(** * Metaformers: the embedding-indexed memory store and its recall filter

    A shallow embedding of the memory loop of the repository:
    - [rag_chat.py]    : [clean_text], [NOISE_RE], [remember], [recall];
    - [ingest.py]      : [clean_text] (with carriage returns removed) and the
                         batch insert of [main] with its dimension check;
    - [memory_chat.py] : [embed], [remember], [recall].

    Python strings are sequences of Unicode code points, so a text is a list
    of code points ([N]).  Regular expressions are kept as syntax trees and
    run by a backtracking matcher that follows the priorities of Python's
    [re] (ordered alternation, greedy repetition, leftmost match).  The
    PostgreSQL table [public.contexts] is a list of rows in insertion order
    together with the next value of its serial [id].

    Of the database the model keeps what bears on the three files: the
    refusal of a [LIMIT] that is negative or beyond
    [bigint], pgvector's refusal of [<=>] on two vectors of different
    dimensions, NaN for the cosine distance of a zero vector, the place of
    NaN and NULL in [ORDER BY ... ASC], an order of ties that is the
    server's own, and psycopg2's refusal of a string that holds NUL.  A lost
    connection, a failed commit, a [::vector] cast that fails and the like
    are not modelled: the statements below that speak of what a query gives
    are about calls that return. *)

From Stdlib Require Import List Bool Arith NArith ZArith QArith Qabs Lia.
From Stdlib Require Import String Ascii.
From Stdlib Require Import Sorted.
Import ListNotations.

Local Open Scope N_scope.

(** ** Python strings *)

Module Text.

Definition char := N.
Definition text := list char.

(** An ASCII literal of the source, as code points. *)
Definition of_string (s : string) : text :=
  List.map N_of_ascii (list_ascii_of_string s).

Definition between (lo hi c : N) : bool := (lo <=? c) && (c <=? hi).

(** [str.isspace] of one code point, which is also what [\s] matches in a
    [str] pattern: TAB..CR, FS..US, space, NEL, NBSP, U+1680, U+2000..U+200A,
    U+2028, U+2029, U+202F, U+205F and U+3000. *)
Definition isspace (c : char) : bool :=
  between 0x09 0x0D c || between 0x1C 0x1F c || (c =? 0x20)
  || (c =? 0x85) || (c =? 0xA0) || (c =? 0x1680)
  || between 0x2000 0x200A c || (c =? 0x2028) || (c =? 0x2029)
  || (c =? 0x202F) || (c =? 0x205F) || (c =? 0x3000).

(** [s.lstrip()] *)
Fixpoint lstrip (s : text) : text :=
  match s with
  | [] => []
  | c :: r => if isspace c then lstrip r else s
  end.

(** [s.rstrip()]: a character survives when something after it survives or
    when it is not white space itself. *)
Fixpoint rstrip (s : text) : text :=
  match s with
  | [] => []
  | c :: r =>
      match rstrip r with
      | [] => if isspace c then [] else [c]
      | r' => c :: r'
      end
  end.

(** [s.strip()] *)
Definition strip (s : text) : text := rstrip (lstrip s).

(** [s.replace(c, "")] for a one-character [c]. *)
Definition remove_char (c : char) (s : text) : text :=
  List.filter (fun x => negb (x =? c)) s.

(** [s.startswith(p)] *)
Fixpoint startswith (p s : text) : bool :=
  match p, s with
  | [], _ => true
  | _ :: _, [] => false
  | a :: p', b :: s' => (a =? b) && startswith p' s'
  end.

(** [p in s]: [p] occurs in [s] as a contiguous substring. *)
Fixpoint contains (p s : text) : bool :=
  startswith p s
  || match s with
     | [] => false
     | _ :: s' => contains p s'
     end.

(** [not s] *)
Definition is_empty (s : text) : bool :=
  match s with [] => true | _ :: _ => false end.

(** [a == b] *)
Fixpoint eqb (a b : text) : bool :=
  match a, b with
  | [], [] => true
  | x :: a', y :: b' => (x =? y) && eqb a' b'
  | _, _ => false
  end.

(** [s.split(c)] for a one-character separator: the pieces between the
    occurrences of [c], never an empty list. *)
Fixpoint split (c : char) (s : text) : list text :=
  match s with
  | [] => [[]]
  | x :: s' =>
      if x =? c then [] :: split c s'
      else match split c s' with
           | [] => [[x]]
           | piece :: pieces => (x :: piece) :: pieces
           end
  end.

End Text.

Import Text.

(** ** Regular expressions, as Python's [re] runs them *)

Module Re.

(** The fragment of the pattern language the memory code uses. *)
Inductive regex : Type :=
| Eps  : regex                       (* the empty pattern *)
| Bos  : regex                       (* [^] without MULTILINE: start of the string *)
| Cls  : (char -> bool) -> regex     (* one character of a class *)
| Seq  : regex -> regex -> regex
| Alt  : regex -> regex -> regex     (* [a|b], [a] tried first *)
| Star : regex -> regex.             (* greedy [a*] *)

Definition Chr (c : char) : regex := Cls (N.eqb c).
Definition Plus (r : regex) : regex := Seq r (Star r).

Fixpoint seqs (rs : list regex) : regex :=
  match rs with
  | [] => Eps
  | [r] => r
  | r :: rs' => Seq r (seqs rs')
  end.

Fixpoint alts (r : regex) (rs : list regex) : regex :=
  match rs with
  | [] => r
  | r' :: rs' => Alt r (alts r' rs')
  end.

(** The loop of a greedy repetition: [step] matches the body once; an
    iteration that consumes nothing ends the loop, so at most [n >= length s]
    iterations are run. *)
Fixpoint star_iter
         (step : bool -> text -> (bool -> text -> option text) -> option text)
         (k : bool -> text -> option text)
         (n : nat) (bos : bool) (s : text) {struct n} : option text :=
  match n with
  | O => k bos s
  | S n' =>
      match step bos s
              (fun bos' s' =>
                 if (List.length s' <? List.length s)%nat
                 then star_iter step k n' bos' s' else None) with
      | Some out => Some out
      | None => k bos s
      end
  end.

(** [rmatch r bos s k]: match [r] at the front of [s] ([bos] tells whether
    the front of [s] is the start of the whole string), then hand what is
    left to the continuation [k]; a continuation that answers [None] makes
    the matcher backtrack into the next choice.  The result is the suffix
    left after the first successful match in Python's priority order. *)
Fixpoint rmatch (r : regex) (bos : bool) (s : text)
         (k : bool -> text -> option text) {struct r} : option text :=
  match r with
  | Eps => k bos s
  | Bos => if bos then k bos s else None
  | Cls p =>
      match s with
      | c :: s' => if p c then k false s' else None
      | [] => None
      end
  | Seq a b => rmatch a bos s (fun bos' s' => rmatch b bos' s' k)
  | Alt a b =>
      match rmatch a bos s k with
      | Some out => Some out
      | None => rmatch b bos s k
      end
  | Star a => star_iter (rmatch a) k (List.length s) bos s
  end.

(** The suffix left by a match of [r] at the front of [s], if there is one. *)
Definition match_at (r : regex) (bos : bool) (s : text) : option text :=
  rmatch r bos s (fun _ rest => Some rest).

(** The number of characters the match at the front of [s] consumes. *)
Definition match_len (r : regex) (bos : bool) (s : text) : option nat :=
  match match_at r bos s with
  | Some rest => Some (List.length s - List.length rest)%nat
  | None => None
  end.

(** [r.search(s)] as a truth value: some position of [s] starts a match. *)
Fixpoint search_from (r : regex) (bos : bool) (s : text) : bool :=
  match match_at r bos s with
  | Some _ => true
  | None =>
      match s with
      | [] => false
      | _ :: s' => search_from r false s'
      end
  end.

Definition search (r : regex) (s : text) : bool := search_from r true s.

(** [r.sub("", s)]: scanning from the left, every non-empty match is deleted
    and the scan resumes behind it; a character at which nothing matches is
    kept.  [skip] counts the characters of the current match still to be
    deleted. *)
Fixpoint sub_from (r : regex) (skip : nat) (bos : bool) (s : text) : text :=
  match s with
  | [] => []
  | c :: s' =>
      match skip with
      | S n => sub_from r n false s'
      | O =>
          match match_len r bos s with
          | Some (S n) => sub_from r n false s'
          | _ => c :: sub_from r O false s'
          end
      end
  end.

Definition sub (r : regex) (s : text) : text := sub_from r 0 true s.

End Re.

Import Re.

(** ** Stable sorting

    An insertion sort that puts an element in front of the first element it
    is not greater than.  [list.sort(key=...)] is stable, and so is this
    sort; it also serves for [ORDER BY], on rows that were first put in the
    order the server met them (see [Store.scan]). *)

Module Sorting.

Section Sort.
Context {A : Type} (leb : A -> A -> bool).

Fixpoint insert (x : A) (l : list A) : list A :=
  match l with
  | [] => [x]
  | y :: l' => if leb x y then x :: l else y :: insert x l'
  end.

Fixpoint sort (l : list A) : list A :=
  match l with
  | [] => []
  | x :: l' => insert x (sort l')
  end.

End Sort.

End Sorting.

(** ** The table [public.contexts] and Python's outcomes *)

Module Store.

(** An embedding.  Its components are taken as rationals: no NaN, no
    infinity, no rounding of their own. *)
Definition vector := list Q.

(** One row of [public.contexts (id, session_id, role, text, embedding)]. *)
Record row : Type := mk_row {
  id : Z;
  session_id : text;
  role : text;
  txt : text;
  embedding : vector
}.

(** The table, oldest row first, and the next value of the serial [id]. *)
Record db : Type := mk_db {
  contexts : list row;
  next_id : Z
}.

(** [INSERT INTO public.contexts (session_id, role, text, embedding)
     VALUES (...) RETURNING id], committed. *)
Definition insert_row (sid r t : text) (v : vector) (d : db) : Z * db :=
  (next_id d,
   mk_db (contexts d ++ [mk_row (next_id d) sid r t v]) (next_id d + 1)).

(** The exceptions the modelled code can raise: [ValueError] (the dimension
    check of ingest.py, [range] with a step of 0, psycopg2 on a string that
    holds NUL) and [psycopg2.DataError], the server's refusal of a query (a
    [LIMIT] out of range, vectors of different dimensions). *)
Inductive exn : Type :=
| ValueError
| DataError.

Inductive outcome (A : Type) : Type :=
| Returned (a : A)
| Raised (e : exn).

Arguments Returned {A} a.
Arguments Raised {A} e.

(** psycopg2 raises [ValueError] on a string parameter that holds NUL,
    before anything is sent to the server. *)
Definition has_nul (t : text) : bool := existsb (fun c => c =? 0) t.

(** The value of [a <=> b], a [float8]: a number, or NaN (the cosine
    distance when one of the two vectors is zero).  Python reads it as a
    [float]. *)
Inductive float8 : Type :=
| Num (q : Q)
| NaN.

(** Python's [d > m] and [a < b] on floats: [False] as soon as one side is
    NaN. *)
Definition float_gt (d : float8) (m : Q) : bool :=
  match d with
  | Num x => negb (Qle_bool x m)
  | NaN => false
  end.

Definition float_lt (a b : float8) : bool :=
  match a, b with
  | Num x, Num y => negb (Qle_bool y x)
  | _, _ => false
  end.

(** [ORDER BY dist ASC]: numbers in ascending order, then NaN, which
    PostgreSQL takes as greater than every number, then NULL. *)
Definition dist_leb (a b : option float8) : bool :=
  match a, b with
  | Some (Num x), Some (Num y) => Qle_bool x y
  | Some (Num _), Some NaN => true
  | Some NaN, Some (Num _) => false
  | Some NaN, Some NaN => true
  | Some _, None => true
  | None, Some _ => false
  | None, None => true
  end.

(** The greatest [bigint], the type of a [LIMIT]. *)
Definition BIGINT_MAX : Z := 9223372036854775807.

(** [LIMIT n] is refused when [n] is negative or no [bigint]. *)
Definition limit_ok (n : Z) : bool := (0 <=? n)%Z && (n <=? BIGINT_MAX)%Z.

(** [a <=> b] is refused when the two vectors have different dimensions. *)
Definition same_dim (a b : vector) : bool :=
  Nat.eqb (List.length a) (List.length b).

Section Query.

(** pgvector's cosine distance on two vectors of one dimension (NULL as
    [None]), and the place of the row of a given id in the table's file. *)
Variable distance : vector -> vector -> option float8.
Variable heap : Z -> Z.

(** The rows of a session, in the order a scan meets them.  PostgreSQL
    promises no order for rows with equal sort keys; the order is taken
    from [heap], and rows at the same place follow in insertion order.
    Every order of rows with distinct ids is the one of some [heap]. *)
Definition scan (session : text) (conn : db) : list row :=
  Sorting.sort (fun a b => (heap (id a) <=? heap (id b))%Z)
    (List.filter (fun r => eqb (session_id r) session) (contexts conn)).

(** [SELECT ..., embedding <=> qvec AS dist FROM public.contexts
     WHERE session_id = session ORDER BY dist ASC LIMIT n], run as it is
    written.  The [LIMIT] is looked at first; with [LIMIT 0] no row is read;
    otherwise the distance is computed for every row of the session, the
    rows are sorted and the first [n] returned. *)
Definition nearest (session : text) (qvec : vector) (n : Z) (conn : db)
  : outcome (list (row * option float8)) :=
  if negb (limit_ok n) then Raised DataError
  else if (n =? 0)%Z then Returned []
  else
    let rows := scan session conn in
    if forallb (fun r => same_dim (embedding r) qvec) rows then
      Returned
        (firstn (Z.to_nat n)
           (Sorting.sort (fun a b => dist_leb (snd a) (snd b))
              (List.map (fun r => (r, distance (embedding r) qvec)) rows)))
    else Raised DataError.

End Query.

End Store.

Import Store.

(** ** rag_chat.py: patterns and cleaning *)

Module RagChat.

Definition ESC : char := 0x1B.
Definition BEL : char := 0x07.
Definition NUL : char := 0x00.
Definition LF  : char := 0x0A.
Definition CR  : char := 0x0D.

(** [[0-9;?]], [[ -/]], [[@-~]], [[@-Z\\-_]] and [[^\x07]]. *)
Definition csi_param (c : char) : bool :=
  between 0x30 0x39 c || (c =? 0x3B) || (c =? 0x3F).
Definition csi_inter (c : char) : bool := between 0x20 0x2F c.
Definition csi_final (c : char) : bool := between 0x40 0x7E c.
Definition esc_two (c : char) : bool :=
  between 0x40 0x5A c || between 0x5C 0x5F c.
Definition not_bel (c : char) : bool := negb (c =? BEL).

(** [ANSI_RE =
     (?:\x1B\[[0-9;?]*[ -/]*[@-~])|(?:\x1B[@-Z\\-_])|(?:\x1B\][^\x07]*\x07)] *)
Definition ANSI_RE : regex :=
  alts (seqs [Chr ESC; Chr 0x5B; Star (Cls csi_param); Star (Cls csi_inter);
              Cls csi_final])
       [ seqs [Chr ESC; Cls esc_two];
         seqs [Chr ESC; Chr 0x5D; Star (Cls not_bel); Chr BEL] ].

(** The class of [SPINNER_RE]: the braille block U+2800..U+28FF and the
    circle quarters U+25D0..U+25D3 (the other glyphs the pattern lists are
    braille). *)
Definition spinner (c : char) : bool :=
  between 0x2800 0x28FF c
  || (c =? 0x25D0) || (c =? 0x25D3) || (c =? 0x25D1) || (c =? 0x25D2).

Definition SPINNER_RE : regex := Plus (Cls spinner).

(** [[\x00-\x08\x0B\x0C\x0E-\x1F]] *)
Definition control (c : char) : bool :=
  between 0x00 0x08 c || (c =? 0x0B) || (c =? 0x0C) || between 0x0E 0x1F c.

Definition CONTROL_RE : regex := Cls control.

(** [clean_text] of rag_chat.py. *)
Definition clean_text (s : text) : text :=
  if is_empty s then []
  else
    let s := remove_char NUL s in
    let s := sub ANSI_RE s in
    let s := sub SPINNER_RE s in
    let s := sub CONTROL_RE s in
    strip s.


(** *** The noise pattern *)

(** The code points [\d] matches in a [str] pattern (Unicode category Nd),
    as inclusive ranges. *)
Definition decimal_ranges : list (N * N) :=
  [ (48, 57); (1632, 1641); (1776, 1785); (1984, 1993); (2406, 2415);
    (2534, 2543); (2662, 2671); (2790, 2799); (2918, 2927); (3046, 3055);
    (3174, 3183); (3302, 3311); (3430, 3439); (3558, 3567); (3664, 3673);
    (3792, 3801); (3872, 3881); (4160, 4169); (4240, 4249); (6112, 6121);
    (6160, 6169); (6470, 6479); (6608, 6617); (6784, 6793); (6800, 6809);
    (6992, 7001); (7088, 7097); (7232, 7241); (7248, 7257); (42528, 42537);
    (43216, 43225); (43264, 43273); (43472, 43481); (43504, 43513);
    (43600, 43609); (44016, 44025); (65296, 65305); (66720, 66729);
    (68912, 68921); (69734, 69743); (69872, 69881); (69942, 69951);
    (70096, 70105); (70384, 70393); (70736, 70745); (70864, 70873);
    (71248, 71257); (71360, 71369); (71472, 71481); (71904, 71913);
    (72016, 72025); (72784, 72793); (73040, 73049); (73120, 73129);
    (92768, 92777); (92864, 92873); (93008, 93017); (120782, 120831);
    (123200, 123209); (123632, 123641); (125264, 125273);
    (130032, 130041) ].

Definition decimal (c : char) : bool :=
  existsb (fun '(lo, hi) => between lo hi c) decimal_ranges.

Definition ascii_lower (c : char) : char :=
  if between 0x41 0x5A c then c + 32 else c.

(** What an ASCII character [p] of a pattern matches under [re.IGNORECASE]:
    itself and its other case, and besides, for [i], U+0130 and U+0131, for
    [k], the Kelvin sign U+212A, and for [s], the long s U+017F. *)
Definition ignorecase (p c : char) : bool :=
  (ascii_lower c =? ascii_lower p)
  || ((ascii_lower p =? 0x69) && ((c =? 0x130) || (c =? 0x131)))
  || ((ascii_lower p =? 0x6B) && (c =? 0x212A))
  || ((ascii_lower p =? 0x73) && (c =? 0x17F)).

(** A literal of a pattern compiled with [re.IGNORECASE]. *)
Definition lit (s : string) : regex :=
  seqs (List.map (fun p => Cls (ignorecase p)) (of_string s)).

Definition digit : regex := Cls decimal.

(** [NOISE_RE = (?:^|\n)\s*(Topic:|CREATOR:|MEDIATOR:|REVIEWER:|=== Turn|
     \[\d{4}-\d\d-\d\dT|Thinking\.\.\.|BEGIN|END|<<|>>|\[llama|\x1b)],
    compiled with [re.IGNORECASE]. *)
Definition NOISE_RE : regex :=
  seqs [ Alt Bos (Chr LF);
         Star (Cls isspace);
         alts (lit "Topic:")
              [ lit "CREATOR:"; lit "MEDIATOR:"; lit "REVIEWER:";
                lit "=== Turn";
                seqs [lit "["; digit; digit; digit; digit; lit "-";
                      digit; digit; lit "-"; digit; digit; lit "T"];
                lit "Thinking..."; lit "BEGIN"; lit "END"; lit "<<";
                lit ">>"; lit "[llama"; Chr ESC ] ].

(** *** Memory operations

    What the module takes from outside: the sentence-transformers model
    ([EMB.encode([t], convert_to_numpy=True)[0].tolist()]), the value a
    float has once it went through the [%.6f] literal and the [::vector]
    cast, pgvector's cosine distance [<=>] and the server's order of ties
    (see [Store.nearest]), [str.lower], and the settings read from the
    environment.  [SESSION_ID] is a string of the environment and [role] is
    ["user"] or ["assistant"] in every call the module makes; neither holds
    NUL, and the text is cleaned of it, so that psycopg2 has no string to
    refuse here. *)

Section Memory.

Variable encode : text -> vector.
Variable stored_float : Q -> Q.
Variable distance : vector -> vector -> option float8.
Variable heap : Z -> Z.
Variable lower : text -> text.

Variable SESSION_ID : text.
Variable MIN_SIM : Q.
Variable DEFAULT_BLOCK_TERMS : list text.

(** How the module computes [DEFAULT_BLOCK_TERMS] when it is loaded:
    [[t.strip().lower() for t in BLOCK_TERMS_ENV.split(",") if t.strip()]] *)
Definition default_block_terms (BLOCK_TERMS_ENV : text) : list text :=
  List.map (fun t => lower (strip t))
    (List.filter (fun t => negb (is_empty (strip t)))
       (split 0x2C BLOCK_TERMS_ENV)).

(** [to_vec_literal], read back by the [::vector] cast: one component per
    component of [vec]. *)
Definition to_vec_literal (vec : vector) : vector :=
  List.map stored_float vec.

(** [remember(role, text, conn)]: the returned id ([None] for a bare
    [return]) and the table afterwards. *)
Definition remember (role text : text) (conn : db) : option Z * db :=
  let text := clean_text text in
  if startswith (of_string "(model error)") text then (None, conn)
  else if is_empty text then (None, conn)
  else if search NOISE_RE text then (None, conn)
  else
    let emb := encode text in
    let vec := to_vec_literal emb in
    let '(rid, conn') := insert_row SESSION_ID role text vec conn in
    (Some rid, conn').

(** The two assignments of [block_lc]: the terms of the call and the
    default ones, lower-cased, the empty ones dropped.  (A Python set; only
    membership tests are made on it, so a list stands for it.) *)
Definition block_lc (block_terms : list text) : list text :=
  List.filter (fun b => negb (is_empty b))
    (List.map lower (block_terms ++ DEFAULT_BLOCK_TERMS)).

(** [SELECT role, text, (embedding <=> qvec) AS dist FROM public.contexts
     WHERE session_id = SESSION_ID ORDER BY dist ASC LIMIT k*6] *)
Definition select_rows (qvec : vector) (k : Z) (conn : db)
  : outcome (list (text * text * option float8)) :=
  match nearest distance heap SESSION_ID qvec (k * 6) conn with
  | Raised e => Raised e
  | Returned rows =>
      Returned (List.map (fun rd => (role (fst rd), txt (fst rd), snd rd)) rows)
  end.

(** The loop over [rows] that fills [kept].  A distance that is NaN is not
    greater than [MIN_SIM] and passes the gate. *)
Fixpoint keep (block : list text) (rows : list (text * text * option float8))
  : list (text * text * float8) :=
  match rows with
  | [] => []
  | (role, txt, dist) :: rows' =>
      match dist with
      | None => keep block rows'
      | Some d =>
          if float_gt d MIN_SIM then keep block rows'
          else if is_empty txt then keep block rows'
          else if search NOISE_RE txt then keep block rows'
          else
            let low := lower txt in
            if existsb (fun bt => contains bt low) block then keep block rows'
            else (role, txt, d) :: keep block rows'
      end
  end.

(** [kept.sort(key=lambda r: r[2])] and [kept[:k]], for [k >= 0].  The sort
    compares two keys with [<] and puts an element in front of the first
    one that is not less than it.  With NaN among the keys [<] is no
    order; on a list in which no key is less than the key before it, as
    [kept] is, [list.sort] finds one ascending run and leaves the list as
    it is, and so does the insertion sort. *)
Definition ranked (k : Z) (kept : list (text * text * float8))
  : list (text * text * float8) :=
  firstn (Z.to_nat k)
    (Sorting.sort (fun a b => negb (float_lt (snd b) (snd a))) kept).

(** [recall(query, conn, k, block_terms)]; [block_terms=None] is []. *)
Definition recall (query : text) (conn : db) (k : Z) (block_terms : list text)
  : outcome (list (text * text)) :=
  let block := block_lc block_terms in
  let q := encode query in
  let qvec := to_vec_literal q in
  match select_rows qvec k conn with
  | Raised e => Raised e
  | Returned rows =>
      Returned (List.map (fun r => (fst (fst r), snd (fst r)))
                  (ranked k (keep block rows)))
  end.

End Memory.

End RagChat.

(** ** ingest.py *)

Module Ingest.

Definition EMB_DIM : nat := 384.

Definition ANSI_RE : regex := RagChat.ANSI_RE.
Definition SPINNER_RE : regex := RagChat.SPINNER_RE.
Definition CONTROL_RE : regex := RagChat.CONTROL_RE.

(** [clean_text] of ingest.py: as in rag_chat.py, and carriage returns are
    deleted before the strip. *)
Definition clean_text (s : text) : text :=
  if is_empty s then []
  else
    let s := remove_char RagChat.NUL s in
    let s := sub ANSI_RE s in
    let s := sub SPINNER_RE s in
    let s := sub CONTROL_RE s in
    let s := remove_char RagChat.CR s in
    strip s.

Section Batch.

Variable encode : text -> vector.
Variable stored_float : Q -> Q.

(** [embed_texts(model, texts)] *)
Definition embed_texts (texts : list text) : list vector :=
  List.map encode texts.

(** [emb_to_vector_literal], read back by the [::vector] cast. *)
Definition emb_to_vector_literal (vec : vector) : vector :=
  List.map stored_float vec.

(** [execute_values(cur, UPSERT_SQL, rows, ...)] then [conn.commit()]: the
    rows are inserted in order. *)
Fixpoint execute_values (rows : list (text * text * text * vector)) (conn : db)
  : db :=
  match rows with
  | [] => conn
  | (session, role, t, vec) :: rows' =>
      execute_values rows' (snd (insert_row session role t vec conn))
  end.

(** One turn of the batch loop of [main]: embed the batch, raise
    [ValueError] when some embedding has not [EMB_DIM] components, else
    insert one row per chunk under [session] with role ["user"]. *)
Definition main_batch (session : text) (batch_texts : list text) (conn : db)
  : outcome db :=
  let embs := embed_texts batch_texts in
  if forallb (fun e => Nat.eqb (List.length e) EMB_DIM) embs then
    let rows :=
      List.map (fun te => (session, of_string "user", fst te,
                           emb_to_vector_literal (snd te)))
               (List.combine batch_texts embs) in
    Returned (execute_values rows conn)
  else Raised ValueError.

End Batch.

End Ingest.

(** ** memory_chat.py *)

Module MemoryChat.

Section Memory.

Variable encode : text -> vector.
Variable stored_float : Q -> Q.
Variable distance : vector -> vector -> option float8.
Variable heap : Z -> Z.

(** [embed(text)]: the [%.6f] literal of the embedding, as the [::vector]
    cast reads it. *)
Definition embed (t : text) : vector := List.map stored_float (encode t).

(** [recall(conn, session_id, query, k)]:
    [SELECT id, role, text FROM public.contexts WHERE session_id = %s
     ORDER BY embedding <=> %s::vector LIMIT %s].  The session id is the one
    string psycopg2 is given. *)
Definition recall (conn : db) (session : text) (query : text) (k : Z)
  : outcome (list (Z * text * text)) :=
  let q := embed query in
  if has_nul session then Raised ValueError
  else
    match nearest distance heap session q k conn with
    | Raised e => Raised e
    | Returned rows =>
        Returned (List.map (fun rd => (id (fst rd), role (fst rd), txt (fst rd)))
                    rows)
    end.

(** [remember(conn, session_id, role, text)]: the new id, or the exception,
    and the table afterwards.  Nothing is cleaned here, and psycopg2 refuses
    a session id, a role or a text that holds NUL. *)
Definition remember (conn : db) (session role t : text) : outcome Z * db :=
  let v := embed t in
  if has_nul session || has_nul role || has_nul t then (Raised ValueError, conn)
  else
    let '(new_id, conn') := insert_row session role t v conn in
    (Returned new_id, conn').

End Memory.

End MemoryChat.

(** ** A small instance, for examples

    A toy embedder (one component: the length of the text), a distance that
    is a tenth of the difference of two such lengths, a table whose file
    holds the rows in the order of their ids, [str.lower] on ASCII
    text, the session ["s1"] and the default settings [MIN_SIM = 0.35] and
    no default block term. *)

Module Example.

Definition encode (t : text) : vector := [inject_Z (Z.of_nat (List.length t))].

Definition stored_float (x : Q) : Q := x.

Definition distance (a b : vector) : option float8 :=
  match a, b with
  | [x], [y] => Some (Num (Qabs (x - y) * (1 # 10))%Q)
  | _, _ => None
  end.

(** Rows lie in the table's file in the order of their ids. *)
Definition heap (i : Z) : Z := i.

Definition lower (t : text) : text := List.map RagChat.ascii_lower t.

Definition s1 : text := of_string "s1".
Definition s2 : text := of_string "s2".
Definition user : text := of_string "user".
Definition assistant : text := of_string "assistant".

Definition MIN_SIM : Q := 35 # 100.

Definition remember : text -> text -> db -> option Z * db :=
  RagChat.remember encode stored_float s1.

Definition recall : text -> db -> Z -> list text -> outcome (list (text * text)) :=
  RagChat.recall encode stored_float distance heap lower s1 MIN_SIM [].

Definition empty_db : db := mk_db [] 1.

(** ["=== Turn 3 ===\nCREATOR: plan details"] *)
Definition turn3 : text :=
  of_string "=== Turn 3 ===" ++ [RagChat.LF] ++ of_string "CREATOR: plan details".

(** ["a\rb"] *)
Definition a_cr_b : text := of_string "a" ++ [RagChat.CR] ++ of_string "b".

(** Three rows of session ["s1"] and one of session ["s2"]. *)
Definition db4 : db :=
  mk_db [ mk_row 1 s1 user (of_string "tea or coffee") [13%Q];
          mk_row 2 s2 user (of_string "tea or coffee") [13%Q];
          mk_row 3 s1 assistant (of_string "Politics today") [14%Q];
          mk_row 4 s1 user (of_string "something much longer") [21%Q] ]
        5.

(** The queries of the examples: ["tea or coffee"], the same behind four
    NUL bytes (which [clean_text] deletes), ["tea or coffee?"], and
    ["END of coffee"], which [NOISE_RE] matches. *)
Definition q_tea : text := of_string "tea or coffee".
Definition q_nul_tea : text :=
  [RagChat.NUL; RagChat.NUL; RagChat.NUL; RagChat.NUL] ++ q_tea.
Definition q_tea14 : text := of_string "tea or coffee?".
Definition q_end : text := of_string "END of coffee".

(** Three rows of session ["s1"] at distances 0.9, 0.1 and 0.5 from the
    empty query, stored in that order. *)
Definition far : text := of_string "123456789".
Definition near : text := of_string "1".
Definition middle : text := of_string "12345".

Definition db3 : db :=
  mk_db [ mk_row 1 s1 user far [9%Q];
          mk_row 2 s1 user near [1%Q];
          mk_row 3 s1 user middle [5%Q] ]
        4.

Definition row_tea : text * text := (user, of_string "tea or coffee").
Definition row_politics : text * text := (assistant, of_string "Politics today").

End Example.

(** ** Predicates of the statements *)

Module Spec.

(** What [lstrip] leaves: empty, or starting with a character that is not
    white space. *)
Definition starts_black (s : text) : Prop :=
  match s with
  | [] => True
  | c :: _ => isspace c = false
  end.

(** A character that no step of [clean_text] deletes wherever it stands:
    neither a control character of [CONTROL_RE] (NUL and ESC are two of
    them) nor a spinner glyph. *)
Definition tidy (c : char) : Prop :=
  RagChat.control c = false /\ RagChat.spinner c = false.

(** [h = (role, text, dist)] is a row of [conn] stored under [session],
    at distance [dist] from the query vector [qvec]. *)
Definition hit_of (distance : vector -> vector -> option float8)
           (session : text) (conn : db) (qvec : vector)
           (h : text * text * float8) : Prop :=
  exists r, In r (contexts conn)
            /\ session_id r = session
            /\ (role r, txt r) = fst h
            /\ distance (embedding r) qvec = Some (snd h).

(** [a] stands before [b] in ascending order, NaN after every number. *)
Definition ascending (a b : float8) : Prop :=
  dist_leb (Some a) (Some b) = true.

(** A session id, a row and the table with the empty session id and the
    id [s] exchanged. *)
Definition swap_id (s x : text) : text :=
  if is_empty x then s else if eqb x s then [] else x.

Definition swap_row (s : text) (r : row) : row :=
  mk_row (id r) (swap_id s (session_id r)) (role r) (txt r) (embedding r).

Definition swap (s : text) (conn : db) : db :=
  mk_db (List.map (swap_row s) (contexts conn)) (next_id conn).

(** The table without the rows of the other sessions. *)
Definition restrict (session : text) (conn : db) : db :=
  mk_db (List.filter (fun r => eqb (session_id r) session) (contexts conn))
        (next_id conn).

End Spec.

Import Spec.

(** * The rest of the three files *)

(** ** More of Python's sequences *)

Module Seqs.

(** [sep.join(parts)] *)
Fixpoint join (sep : text) (parts : list text) : text :=
  match parts with
  | [] => []
  | [p] => p
  | p :: rest => p ++ sep ++ join sep rest
  end.

(** The slices [l[i:i+size]] for [i] in [range(0, len(l), size)], [size]
    positive; [fuel] bounds the number of slices. *)
Fixpoint slices_from {A : Type} (fuel size : nat) (l : list A) : list (list A) :=
  match fuel with
  | O => []
  | S fuel' =>
      match l with
      | [] => []
      | _ :: _ => firstn size l :: slices_from fuel' size (skipn size l)
      end
  end.

(** [[l[i:i+step] for i in range(0, len(l), step)]]: [range] raises
    [ValueError] for a zero step and is empty for a negative one. *)
Definition slices {A : Type} (step : Z) (l : list A) : outcome (list (list A)) :=
  if (step =? 0)%Z then Raised ValueError
  else if (step <? 0)%Z then Returned []
  else Returned (slices_from (List.length l) (Z.to_nat step) l).

End Seqs.

Import Seqs.

(** ** rag_chat.py: the context shown to the model *)

Module RagContext.

Section Context.

Variable lower : text -> text.
Variable upper : text -> text.

(** The [block_lc] of [format_context]: [{b.lower() for b in (block_terms or
    []) if b}], the default terms not included. *)
Definition block_lc (block_terms : list text) : list text :=
  List.map lower (List.filter (fun b => negb (is_empty b)) block_terms).

(** ["\n---\n"] and [": "] *)
Definition separator : text := [RagChat.LF] ++ of_string "---" ++ [RagChat.LF].
Definition colon : text := of_string ": ".

(** The loop of [format_context] that fills [blocks]. *)
Fixpoint blocks (block : list text) (snips : list (text * text)) : list text :=
  match snips with
  | [] => []
  | (role, txt) :: snips' =>
      if is_empty txt || search RagChat.NOISE_RE txt then blocks block snips'
      else
        let low := lower txt in
        if existsb (fun bt => contains bt low) block then blocks block snips'
        else
          let txt := firstn 1200 (RagChat.clean_text txt) in
          if is_empty txt then blocks block snips'
          else (upper role ++ colon ++ txt) :: blocks block snips'
  end.

(** [format_context(snips, block_terms)] *)
Definition format_context (snips : list (text * text)) (block_terms : list text)
  : text :=
  match snips with
  | [] => []
  | _ :: _ => join separator (blocks (block_lc block_terms) snips)
  end.

End Context.

End RagContext.

(** ** rag_chat.py: the block terms of a message *)

Module RagBlockTerms.

(** [.] without DOTALL: any character but the line feed. *)
Definition dot (c : char) : bool := negb (c =? RagChat.LF).

Definition spaces : regex := Plus (Cls isspace).

(** The three [NEG_PATTERNS], compiled with [re.I], without their last
    group [(.+)]:
    [(?:nothing|not)\s+(?:about|to\s+do\s+with)\s+],
    [other\s+than\s+] and [avoid\s+talking\s+about\s+]. *)
Definition NEG_PATTERNS : list regex :=
  [ seqs [ Alt (RagChat.lit "nothing") (RagChat.lit "not"); spaces;
           Alt (RagChat.lit "about")
               (seqs [RagChat.lit "to"; spaces; RagChat.lit "do"; spaces;
                      RagChat.lit "with"]);
           spaces ];
    seqs [ RagChat.lit "other"; spaces; RagChat.lit "than"; spaces ];
    seqs [ RagChat.lit "avoid"; spaces; RagChat.lit "talking"; spaces;
           RagChat.lit "about"; spaces ] ].

(** A match of [pat] followed by the group [(.+)] at the front of [s]: what
    the group holds.  The group is the end of the pattern, so it takes the
    longest run of characters it can; when it can take none, the matcher
    backtracks into [pat]. *)
Definition group1_at (pat : regex) (bos : bool) (s : text) : option text :=
  rmatch pat bos s
    (fun _ s1 =>
       match match_at (Plus (Cls dot)) false s1 with
       | Some s2 => Some (firstn (List.length s1 - List.length s2) s1)
       | None => None
       end).

(** [pat.search(s)] and [m.group(1)], for the leftmost match. *)
Fixpoint search_group1 (pat : regex) (bos : bool) (s : text) : option text :=
  match group1_at pat bos s with
  | Some g => Some g
  | None =>
      match s with
      | [] => None
      | _ :: s' => search_group1 pat false s'
      end
  end.

Section Terms.

(** [str.lower], and the characters [\w] matches (the two sides of the
    word boundary [\b]). *)
Variable lower : text -> text.
Variable isword : char -> bool.

(** [\band\b] under [re.I] at the front of [s], [prev] being the character
    before it. *)
Definition and_here (prev : option char) (s : text) : bool :=
  match s with
  | a :: n :: d :: rest =>
      RagChat.ignorecase 0x61 a && RagChat.ignorecase 0x6E n
      && RagChat.ignorecase 0x64 d
      && negb (match prev with Some p => isword p | None => false end)
      && negb (match rest with x :: _ => isword x | [] => false end)
  | _ => false
  end.

(** [re.split(r",|\band\b", s, flags=re.I)]: the pieces between the
    matches, scanned from the left; [skip] counts the characters of the
    current match still to be passed over. *)
Fixpoint split_terms (skip : nat) (prev : option char) (s : text) : list text :=
  match s with
  | [] => [ [] ]
  | c :: s' =>
      match skip with
      | S n => split_terms n (Some c) s'
      | O =>
          if c =? 0x2C then [] :: split_terms 0 (Some c) s'
          else if and_here prev s then [] :: split_terms 2 (Some c) s'
          else match split_terms 0 (Some c) s' with
               | [] => [ [c] ]
               | piece :: pieces => (c :: piece) :: pieces
               end
      end
  end.

(** [extract_block_terms(user_text)] *)
Definition extract_block_terms (user_text : text) : list text :=
  if is_empty user_text then []
  else
    List.flat_map
      (fun pat =>
         match search_group1 pat true user_text with
         | Some chunk =>
             List.map (fun p => lower (strip p))
               (List.filter (fun p => negb (is_empty (strip p)))
                  (split_terms 0 None chunk))
         | None => []
         end)
      NEG_PATTERNS.

End Terms.

End RagBlockTerms.

(** ** ingest.py: chunks and the loop over one file *)

Module IngestMain.

(** [chunk_text(s, size)] *)
Definition chunk_text (s : text) (size : Z) : outcome (list text) :=
  if (Z.of_nat (List.length s) <=? size)%Z then Returned [s]
  else slices size s.

Section File.

Variable encode : text -> vector.
Variable stored_float : Q -> Q.
Variable CHUNK_CHARS : Z.
Variable BATCH : Z.

(** The batch loop of [main]: a [ValueError] of the dimension check ends the
    run, with the batches before it committed. *)
Fixpoint run_batches (session : text) (batches : list (list text)) (conn : db)
  : db * option exn :=
  match batches with
  | [] => (conn, None)
  | batch_texts :: batches' =>
      match Ingest.main_batch encode stored_float session batch_texts conn with
      | Raised e => (conn, Some e)
      | Returned conn' => run_batches session batches' conn'
      end
  end.

(** The body of the loop of [main] over the files, for a file whose content
    is [raw] and whose directory name is [session]: the table afterwards,
    and the exception that ended the run if there was one. *)
Definition main_file (session raw : text) (conn : db) : db * option exn :=
  let txt := Ingest.clean_text raw in
  if is_empty txt then (conn, None)
  else
    match chunk_text txt CHUNK_CHARS with
    | Raised e => (conn, Some e)
    | Returned chunks =>
        match slices BATCH chunks with
        | Raised e => (conn, Some e)
        | Returned batches => run_batches session batches conn
        end
    end.

End File.

End IngestMain.

(** ** A second instance, for the further examples *)

Module Example2.

(** [str.upper] on ASCII text. *)
Definition upper (t : text) : text :=
  List.map (fun c => if between 0x61 0x7A c then c - 32 else c) t.

(** An embedder of 384 components, and one that gives a single component
    for texts of five characters. *)
Definition encode384 (t : text) : vector :=
  repeat (inject_Z (Z.of_nat (List.length t))) 384.


(** [\w] on ASCII text: letters, digits and the underscore. *)
Definition isword (c : char) : bool :=
  between 0x30 0x39 c || between 0x41 0x5A c || between 0x61 0x7A c
  || (c =? 0x5F).

(** ["alpha beta gamma together"] (25 characters). *)
Definition raw25 : text := of_string "alpha beta gamma together".

(** A second embedder, of two components, and the table two calls of
    [remember] build when the embedder is changed between them. *)
Definition encode2 (t : text) : vector :=
  [inject_Z (Z.of_nat (List.length t)); 0%Q].

Definition db_mixed : db :=
  mk_db [ mk_row 1 Example.s1 Example.user (of_string "hello") [5%Q];
          mk_row 2 Example.s1 Example.user (of_string "hello again")
            [11%Q; 0%Q] ]
        3.

(** The message ["tea or coffee"] and the text ["END of coffee"], which
    [NOISE_RE] matches, as memory_chat.py stores them: both at distance 0
    from the query ["tea or coffee"]. *)
Definition db_noise : db :=
  snd (MemoryChat.remember Example.encode Example.stored_float
         (snd (MemoryChat.remember Example.encode Example.stored_float
                 Example.empty_db Example.s1 Example.user Example.q_tea))
         Example.s1 Example.user Example.q_end).

(** One row under the empty session id and one under ["s1"]. *)
Definition db_anon : db :=
  mk_db [ mk_row 1 [] Example.user Example.q_tea [13%Q];
          mk_row 2 Example.s1 Example.assistant (of_string "Politics today")
            [14%Q] ]
        3.

(** A distance like the one of the first instance, but NaN when one of the
    two vectors is zero, as the cosine distance is. *)
Definition distance0 (a b : vector) : option float8 :=
  match a, b with
  | [x], [y] =>
      if Qeq_bool x 0 || Qeq_bool y 0 then Some NaN
      else Some (Num (Qabs (x - y) * (1 # 10))%Q)
  | _, _ => None
  end.

End Example2.

(** ** Predicates of the further statements *)

Module Spec2.

(** [a] is [b] with some characters left out. *)
Inductive subseq {A : Type} : list A -> list A -> Prop :=
| subseq_nil : subseq [] []
| subseq_skip : forall x a b, subseq a b -> subseq a (x :: b)
| subseq_keep : forall x a b, subseq a b -> subseq (x :: a) (x :: b).


(** The rows of a session. *)
Definition session_rows (session : text) (d : db) : list row :=
  List.filter (fun r => eqb (session_id r) session) (contexts d).

(** A text as [remember] of rag_chat.py stores it. *)
Definition storable (t : text) : Prop :=
  RagChat.clean_text t = t
  /\ t <> []
  /\ startswith (of_string "(model error)") t = false
  /\ search RagChat.NOISE_RE t = false.

(** The row [r] passes the tests of [recall]: its distance is not NULL and
    not greater than [MIN_SIM] (so it is a number within the gate, or NaN),
    its text is neither empty nor noise, and it holds no block term (of
    [terms], lower-cased, the empty ones apart). *)
Definition passes (distance : vector -> vector -> option float8)
           (lower : text -> text) (MIN_SIM : Q) (terms : list text)
           (qvec : vector) (r : row) : Prop :=
  exists d, distance (embedding r) qvec = Some d
            /\ float_gt d MIN_SIM = false
            /\ txt r <> []
            /\ search RagChat.NOISE_RE (txt r) = false
            /\ forall t, In t terms -> lower t <> [] ->
                         contains (lower t) (lower (txt r)) = false.

(** The fixed words of the alternatives of [NOISE_RE]. *)
Definition noise_headers : list text :=
  List.map of_string
    [ "Topic:"; "CREATOR:"; "MEDIATOR:"; "REVIEWER:"; "=== Turn";
      "Thinking..."; "BEGIN"; "END"; "<<"; ">>"; "[llama" ]%string.

End Spec2.

Import Spec2.

(** * Properties *)

(** ** Strings *)

Section TextFacts.

Lemma eqb_eq (a b : text) : eqb a b = true <-> a = b.
Proof.
  revert b; induction a as [|x a IH]; intros [|y b]; simpl;
    try (split; [discriminate | congruence]); try tauto.
  rewrite andb_true_iff, N.eqb_eq, IH.
  split; [intros [-> ->]; reflexivity | intros E; inversion E; auto].
Qed.

Lemma eqb_refl (a : text) : eqb a a = true.
Proof. apply eqb_eq; reflexivity. Qed.

Lemma lstrip_Forall (P : char -> Prop) (s : text) :
  Forall P s -> Forall P (lstrip s).
Proof.
  induction 1 as [|c r Hc Hr IH]; simpl; [constructor|].
  destruct (isspace c); [exact IH | constructor; assumption].
Qed.

Lemma rstrip_Forall (P : char -> Prop) (s : text) :
  Forall P s -> Forall P (rstrip s).
Proof.
  induction 1 as [|c r Hc Hr IH]; simpl; [constructor|].
  destruct (rstrip r) as [|y r'].
  - destruct (isspace c); constructor; auto.
  - constructor; assumption.
Qed.

Lemma strip_Forall (P : char -> Prop) (s : text) :
  Forall P s -> Forall P (strip s).
Proof. intros H; apply rstrip_Forall, lstrip_Forall, H. Qed.

Lemma rstrip_idem (s : text) : rstrip (rstrip s) = rstrip s.
Proof.
  induction s as [|c r IH]; simpl; [reflexivity|].
  destruct (rstrip r) as [|y r'] eqn:E.
  - destruct (isspace c) eqn:Ec; simpl; [reflexivity | rewrite Ec; reflexivity].
  - simpl in *. rewrite IH. reflexivity.
Qed.

Lemma lstrip_starts_black (s : text) : starts_black (lstrip s).
Proof.
  induction s as [|c r IH]; simpl; [exact I|].
  destruct (isspace c) eqn:E; [exact IH | exact E].
Qed.

Lemma lstrip_fixed (s : text) : starts_black s -> lstrip s = s.
Proof. destruct s as [|c r]; simpl; [reflexivity | intros ->; reflexivity]. Qed.

Lemma rstrip_starts_black (s : text) : starts_black s -> starts_black (rstrip s).
Proof.
  destruct s as [|c r]; simpl; [trivial|]. intros E.
  destruct (rstrip r); [rewrite E|]; exact E.
Qed.

Lemma strip_idem (s : text) : strip (strip s) = strip s.
Proof.
  unfold strip.
  rewrite (lstrip_fixed (rstrip (lstrip s))).
  - apply rstrip_idem.
  - apply rstrip_starts_black, lstrip_starts_black.
Qed.

Lemma remove_char_Forall (P : char -> Prop) (c : char) (s : text) :
  Forall P s -> Forall P (remove_char c s).
Proof.
  unfold remove_char. rewrite !Forall_forall. intros H x Hx.
  apply filter_In in Hx. apply H, Hx.
Qed.

Lemma remove_char_absent (c : char) (s : text) :
  Forall (fun x => x <> c) (remove_char c s).
Proof.
  unfold remove_char. apply Forall_forall. intros x Hx.
  apply filter_In in Hx. destruct Hx as [_ Hx].
  apply negb_true_iff, N.eqb_neq in Hx. exact Hx.
Qed.

Lemma remove_char_fixed (c : char) (s : text) :
  Forall (fun x => x <> c) s -> remove_char c s = s.
Proof.
  unfold remove_char. induction 1 as [|x r Hx Hr IH]; simpl; [reflexivity|].
  apply N.eqb_neq in Hx. rewrite Hx. simpl. rewrite IH. reflexivity.
Qed.

End TextFacts.

(** ** Substitution by a pattern *)

Section ReFacts.

Variable r : regex.

(** Substitution only deletes. *)
Lemma sub_from_Forall (P : char -> Prop) (s : text) :
  Forall P s -> forall n bos, Forall P (sub_from r n bos s).
Proof.
  induction 1 as [|c s' Hc Hs IH]; intros n bos; simpl; [constructor|].
  destruct n as [|n]; [|apply IH].
  destruct (match_len r bos (c :: s')) as [[|m]|]; auto.
Qed.

(** Where no character can start a match, nothing is deleted. *)
Lemma sub_from_fixed (P : char -> Prop) :
  (forall c, P c -> forall bos rest, match_at r bos (c :: rest) = None) ->
  forall s, Forall P s -> forall bos, sub_from r 0 bos s = s.
Proof.
  intros Hnone s Hs. induction Hs as [|c s' Hc Hs IH]; intros bos; simpl.
  - reflexivity.
  - unfold match_len. rewrite (Hnone c Hc). rewrite IH. reflexivity.
Qed.

(** Where every character of a class starts a non-empty match, no character
    of the class is left. *)
Lemma sub_from_kept (p : char -> bool) :
  (forall bos c rest, p c = true ->
     exists n, match_len r bos (c :: rest) = Some (S n)) ->
  forall s n bos, Forall (fun c => p c = false) (sub_from r n bos s).
Proof.
  intros Hsome s. induction s as [|c s' IH]; intros n bos; simpl.
  - constructor.
  - destruct n as [|n]; [|apply IH].
    destruct (p c) eqn:Ec.
    + destruct (Hsome bos c s' Ec) as [m ->]. apply IH.
    + destruct (match_len r bos (c :: s')) as [[|m]|]; auto.
Qed.

End ReFacts.

Lemma match_len_Cls (p : char -> bool) (bos : bool) (c : char) (rest : text) :
  p c = true -> match_len (Cls p) bos (c :: rest) = Some 1%nat.
Proof.
  intros E. unfold match_len, match_at. simpl rmatch. rewrite E.
  f_equal. simpl List.length. lia.
Qed.

Lemma match_at_Cls_none (p : char -> bool) (bos : bool) (c : char) (rest : text) :
  p c = false -> match_at (Cls p) bos (c :: rest) = None.
Proof. intros E. unfold match_at. simpl. rewrite E. reflexivity. Qed.

(** A greedy run over a class always succeeds, on a suffix. *)
Lemma star_Cls_total (p : char -> bool) (n : nat) :
  forall bos s, exists rest,
    star_iter (rmatch (Cls p)) (fun _ rest => Some rest) n bos s = Some rest
    /\ (List.length rest <= List.length s)%nat.
Proof.
  induction n as [|n IH]; intros bos s; cbn [star_iter rmatch].
  - exists s. split; [reflexivity | lia].
  - destruct s as [|c s']; [exists []; split; [reflexivity | simpl; lia]|].
    destruct (p c); [|exists (c :: s'); split; [reflexivity | lia]].
    destruct (Nat.ltb_spec (List.length s') (List.length (c :: s')))
      as [_|Hge]; [|simpl in Hge; lia].
    destruct (IH false s') as [rest [E Hle]]. cbn [rmatch] in E. rewrite E.
    exists rest. split; [reflexivity | simpl; lia].
Qed.

Lemma match_len_Plus_Cls (p : char -> bool) (bos : bool) (c : char) (rest : text) :
  p c = true -> exists n, match_len (Plus (Cls p)) bos (c :: rest) = Some (S n).
Proof.
  intros E. unfold match_len, match_at, Plus. cbn [rmatch]. rewrite E.
  destruct (star_Cls_total p (List.length rest) false rest) as [out [Eo Hle]].
  cbn [rmatch] in Eo. rewrite Eo.
  exists (List.length rest - List.length out)%nat. f_equal. simpl List.length. lia.
Qed.

Lemma match_at_Plus_Cls_none (p : char -> bool) (bos : bool) (c : char) (rest : text) :
  p c = false -> match_at (Plus (Cls p)) bos (c :: rest) = None.
Proof. intros E. unfold match_at, Plus. simpl. rewrite E. reflexivity. Qed.

(** Every alternative of [ANSI_RE] starts with ESC. *)
Lemma match_at_ANSI_none (bos : bool) (c : char) (rest : text) :
  c <> RagChat.ESC -> match_at RagChat.ANSI_RE bos (c :: rest) = None.
Proof.
  intros Hc. assert (E : (RagChat.ESC =? c) = false).
  { apply N.eqb_neq. congruence. }
  unfold match_at, RagChat.ANSI_RE, alts, seqs, Chr.
  cbn [rmatch]. rewrite E. reflexivity.
Qed.

(** ** Cleaning *)

Lemma tidy_not_NUL (c : char) : tidy c -> c <> RagChat.NUL.
Proof. intros [H _] ->. discriminate H. Qed.

Lemma tidy_not_ESC (c : char) : tidy c -> c <> RagChat.ESC.
Proof. intros [H _] ->. discriminate H. Qed.

Lemma sub_ANSI_fixed (s : text) :
  Forall (fun c => c <> RagChat.ESC) s -> sub RagChat.ANSI_RE s = s.
Proof.
  intros H. unfold sub.
  apply (sub_from_fixed RagChat.ANSI_RE (fun c => c <> RagChat.ESC)); [|exact H].
  intros c Hc bos rest. apply match_at_ANSI_none, Hc.
Qed.

Lemma sub_SPINNER_fixed (s : text) :
  Forall (fun c => RagChat.spinner c = false) s -> sub RagChat.SPINNER_RE s = s.
Proof.
  intros H. unfold sub, RagChat.SPINNER_RE.
  apply (sub_from_fixed _ (fun c => RagChat.spinner c = false)); [|exact H].
  intros c Hc bos rest. apply match_at_Plus_Cls_none, Hc.
Qed.

Lemma sub_CONTROL_fixed (s : text) :
  Forall (fun c => RagChat.control c = false) s -> sub RagChat.CONTROL_RE s = s.
Proof.
  intros H. unfold sub, RagChat.CONTROL_RE.
  apply (sub_from_fixed _ (fun c => RagChat.control c = false)); [|exact H].
  intros c Hc bos rest. apply match_at_Cls_none, Hc.
Qed.

Lemma sub_SPINNER_clears (s : text) :
  Forall (fun c => RagChat.spinner c = false) (sub RagChat.SPINNER_RE s).
Proof.
  unfold sub, RagChat.SPINNER_RE. apply sub_from_kept.
  intros bos c rest. apply match_len_Plus_Cls.
Qed.

Lemma sub_CONTROL_clears (s : text) :
  Forall (fun c => RagChat.control c = false) (sub RagChat.CONTROL_RE s).
Proof.
  unfold sub, RagChat.CONTROL_RE. apply sub_from_kept.
  intros bos c rest E. exists 0%nat. apply match_len_Cls, E.
Qed.

(** After the two last substitutions only tidy characters are left. *)
Lemma subs_tidy (s : text) :
  Forall tidy (sub RagChat.CONTROL_RE (sub RagChat.SPINNER_RE s)).
Proof.
  apply Forall_and.
  - apply sub_CONTROL_clears.
  - unfold sub. apply sub_from_Forall. apply sub_SPINNER_clears.
Qed.

Lemma Forall_weaken {A : Type} (P R : A -> Prop) (l : list A) :
  (forall x, P x -> R x) -> Forall P l -> Forall R l.
Proof. intros H F. eapply Forall_impl; [exact H | exact F]. Qed.

(** A stripped text of tidy characters is a fixed point of rag_chat's
    [clean_text]. *)
Lemma rag_clean_text_fixed (t : text) :
  Forall tidy t -> strip t = t -> RagChat.clean_text t = t.
Proof.
  intros Ht Hs. unfold RagChat.clean_text.
  destruct t as [|c t']; [reflexivity|].
  cbn [is_empty].
  rewrite (remove_char_fixed RagChat.NUL)
    by (eapply Forall_weaken; [apply tidy_not_NUL | exact Ht]).
  rewrite sub_ANSI_fixed
    by (eapply Forall_weaken; [apply tidy_not_ESC | exact Ht]).
  rewrite sub_SPINNER_fixed
    by (apply (Forall_weaken tidy); [intros x Hx; apply Hx | exact Ht]).
  rewrite sub_CONTROL_fixed
    by (apply (Forall_weaken tidy); [intros x Hx; apply Hx | exact Ht]).
  exact Hs.
Qed.

Lemma rag_clean_text_tidy (s : text) :
  Forall tidy (RagChat.clean_text s)
  /\ strip (RagChat.clean_text s) = RagChat.clean_text s.
Proof.
  unfold RagChat.clean_text. destruct (is_empty s).
  - split; [constructor | reflexivity].
  - cbv zeta. split; [apply strip_Forall, subs_tidy | apply strip_idem].
Qed.

(** The same for ingest.py, whose result holds no carriage return either. *)
Lemma ingest_clean_text_fixed (t : text) :
  Forall tidy t -> Forall (fun c => c <> RagChat.CR) t -> strip t = t ->
  Ingest.clean_text t = t.
Proof.
  intros Ht Hcr Hs. unfold Ingest.clean_text.
  destruct t as [|c t']; [reflexivity|].
  cbn [is_empty].
  unfold Ingest.ANSI_RE, Ingest.SPINNER_RE, Ingest.CONTROL_RE.
  rewrite (remove_char_fixed RagChat.NUL)
    by (eapply Forall_weaken; [apply tidy_not_NUL | exact Ht]).
  rewrite sub_ANSI_fixed
    by (eapply Forall_weaken; [apply tidy_not_ESC | exact Ht]).
  rewrite sub_SPINNER_fixed
    by (apply (Forall_weaken tidy); [intros x Hx; apply Hx | exact Ht]).
  rewrite sub_CONTROL_fixed
    by (apply (Forall_weaken tidy); [intros x Hx; apply Hx | exact Ht]).
  rewrite (remove_char_fixed RagChat.CR) by exact Hcr.
  exact Hs.
Qed.

Lemma ingest_clean_text_tidy (s : text) :
  Forall tidy (Ingest.clean_text s)
  /\ Forall (fun c => c <> RagChat.CR) (Ingest.clean_text s)
  /\ strip (Ingest.clean_text s) = Ingest.clean_text s.
Proof.
  unfold Ingest.clean_text. destruct (is_empty s).
  - repeat split; constructor.
  - cbv zeta. unfold Ingest.SPINNER_RE, Ingest.CONTROL_RE. repeat split.
    + apply strip_Forall, remove_char_Forall, subs_tidy.
    + apply strip_Forall, remove_char_absent.
    + apply strip_idem.
Qed.

(** C5.  Cleaning is idempotent: for every string [s], cleaning the cleaned
    string gives the cleaned string again, for the [clean_text] of
    rag_chat.py and for the one of ingest.py. *)
Theorem clean_text_idempotent (s : text) :
  RagChat.clean_text (RagChat.clean_text s) = RagChat.clean_text s
  /\ Ingest.clean_text (Ingest.clean_text s) = Ingest.clean_text s.
Proof.
  split.
  - destruct (rag_clean_text_tidy s) as [Ht Hs].
    apply rag_clean_text_fixed; assumption.
  - destruct (ingest_clean_text_tidy s) as [Ht [Hcr Hs]].
    apply ingest_clean_text_fixed; assumption.
Qed.

(** The [clean_text] of ingest.py leaves no carriage return. *)
Lemma ingest_clean_text_no_CR (s : text) : ~ In RagChat.CR (Ingest.clean_text s).
Proof.
  destruct (ingest_clean_text_tidy s) as [_ [Hcr _]].
  rewrite Forall_forall in Hcr. intros Hin. exact (Hcr _ Hin eq_refl).
Qed.

(** C8.  The [clean_text] of rag_chat.py does not delete a carriage return
    inside the text: ["a\rb"] comes back unchanged, carriage return
    included, where the [clean_text] of ingest.py returns ["ab"]. *)
Theorem rag_clean_text_keeps_CR :
  RagChat.clean_text Example.a_cr_b = Example.a_cr_b
  /\ In RagChat.CR (RagChat.clean_text Example.a_cr_b)
  /\ Ingest.clean_text Example.a_cr_b = of_string "ab".
Proof.
  split; [reflexivity|]. split; [|reflexivity].
  right; left; reflexivity.
Qed.

(** ** remember *)

Lemma insert_row_changes (sid r t : text) (v : vector) (conn : db) :
  snd (insert_row sid r t v conn) <> conn.
Proof.
  unfold insert_row. cbn [snd]. intros E.
  apply (f_equal next_id) in E. cbn [next_id] in E. lia.
Qed.

Lemma clean_text_nulls : RagChat.clean_text [RagChat.NUL; RagChat.NUL] = [].
Proof. reflexivity. Qed.

Lemma clean_text_turn3 : RagChat.clean_text Example.turn3 = Example.turn3.
Proof. vm_compute. reflexivity. Qed.

Lemma turn3_is_noise : search RagChat.NOISE_RE Example.turn3 = true.
Proof. vm_compute. reflexivity. Qed.

(** C3.  [remember] returns [None], and leaves the table as it was, exactly
    when the cleaned text is empty, or starts with ["(model error)"], or
    matches [NOISE_RE]; otherwise it appends one row holding the cleaned
    text and returns its id.  Two NUL bytes are rejected (the table is
    unchanged), and so is ["=== Turn 3 ===\nCREATOR: plan details"], which
    is noise. *)
Theorem remember_rejects_exactly :
  forall (encode : text -> vector) (stored_float : Q -> Q)
         (SESSION_ID role text : text) (conn : db),
    let t := RagChat.clean_text text in
    let out := RagChat.remember encode stored_float SESSION_ID role text conn in
    let rejected :=
      t = [] \/ startswith (of_string "(model error)") t = true
      \/ search RagChat.NOISE_RE t = true in
    (fst out = None <-> rejected)
    /\ (snd out = conn <-> rejected)
    /\ (~ rejected ->
        out = (Some (next_id conn),
               mk_db (contexts conn
                      ++ [mk_row (next_id conn) SESSION_ID role t
                            (List.map stored_float (encode t))])
                     (next_id conn + 1)))
    /\ RagChat.remember encode stored_float SESSION_ID role
         [RagChat.NUL; RagChat.NUL] conn = (None, conn)
    /\ search RagChat.NOISE_RE (RagChat.clean_text Example.turn3) = true
    /\ RagChat.remember encode stored_float SESSION_ID role
         Example.turn3 conn = (None, conn).
Proof.
  intros encode stored_float SESSION_ID role text conn. cbv zeta.
  split; [|split; [|split; [|split; [|split]]]].
  - unfold RagChat.remember. cbv zeta.
    destruct (startswith (of_string "(model error)") (RagChat.clean_text text)) eqn:E1;
      [cbn [fst]; tauto|].
    destruct (RagChat.clean_text text) as [|c t'] eqn:Et; [cbn; tauto|].
    cbn [is_empty].
    destruct (search RagChat.NOISE_RE (c :: t')) eqn:E3; [cbn [fst]; tauto|].
    cbn [insert_row fst]. split; [discriminate|].
    intros [H|[H|H]]; discriminate H.
  - unfold RagChat.remember. cbv zeta.
    destruct (startswith (of_string "(model error)") (RagChat.clean_text text)) eqn:E1;
      [cbn [snd]; tauto|].
    destruct (RagChat.clean_text text) as [|c t'] eqn:Et; [cbn; tauto|].
    cbn [is_empty].
    destruct (search RagChat.NOISE_RE (c :: t')) eqn:E3; [cbn [snd]; tauto|].
    split.
    + intros E. exfalso.
      apply (insert_row_changes SESSION_ID role (c :: t')
               (RagChat.to_vec_literal stored_float (encode (c :: t'))) conn).
      destruct (insert_row SESSION_ID role (c :: t')
                  (RagChat.to_vec_literal stored_float (encode (c :: t'))) conn)
        as [rid conn'].
      exact E.
    + intros [H|[H|H]]; discriminate H.
  - intros Hn. unfold RagChat.remember. cbv zeta.
    destruct (startswith (of_string "(model error)") (RagChat.clean_text text)) eqn:E1;
      [exfalso; apply Hn; tauto|].
    destruct (RagChat.clean_text text) as [|c t'] eqn:Et;
      [exfalso; apply Hn; tauto|].
    cbn [is_empty].
    destruct (search RagChat.NOISE_RE (c :: t')) eqn:E3;
      [exfalso; apply Hn; tauto|].
    reflexivity.
  - unfold RagChat.remember. cbv zeta. rewrite clean_text_nulls. reflexivity.
  - rewrite clean_text_turn3. exact turn3_is_noise.
  - unfold RagChat.remember. cbv zeta.
    rewrite clean_text_turn3, turn3_is_noise. reflexivity.
Qed.

(** What [remember] stores has the length the embedder gave it: no length
    is checked on the way. *)
Lemma remember_stores_any_length
      (encode : text -> vector) (stored_float : Q -> Q)
      (SESSION_ID role text : text) (conn conn' : db) (rid : Z) :
  RagChat.remember encode stored_float SESSION_ID role text conn
  = (Some rid, conn') ->
  exists r, contexts conn' = contexts conn ++ [r]
            /\ List.length (embedding r)
               = List.length (encode (RagChat.clean_text text)).
Proof.
  unfold RagChat.remember. cbv zeta.
  destruct (startswith _ _); [discriminate|].
  destruct (is_empty _); [discriminate|].
  destruct (search _ _); [discriminate|].
  cbn [insert_row]. intros E. inversion E; subst. cbn [contexts].
  eexists. split; [reflexivity|]. cbn [embedding].
  unfold RagChat.to_vec_literal. apply length_map.
Qed.

(** ingest.py, on the other hand, checks every embedding of a batch before
    it inserts: a batch is inserted as a whole, with embeddings of
    [EMB_DIM] components, or raises [ValueError] and inserts nothing. *)
Lemma execute_values_appends (rows : list (text * text * text * vector)) :
  forall conn, exists new,
    contexts (Ingest.execute_values rows conn) = contexts conn ++ new
    /\ List.map embedding new = List.map snd rows.
Proof.
  induction rows as [|[[[s r] t] v] rows IH]; intros conn; cbn [Ingest.execute_values].
  - exists []. split; [symmetry; apply app_nil_r | reflexivity].
  - destruct (IH (snd (insert_row s r t v conn))) as [new [E1 E2]].
    exists (mk_row (next_id conn) s r t v :: new). split.
    + rewrite E1. cbn [insert_row snd contexts]. rewrite <- app_assoc. reflexivity.
    + cbn. rewrite E2. reflexivity.
Qed.

Lemma main_batch_checks_dimension
      (encode : text -> vector) (stored_float : Q -> Q)
      (session : text) (batch_texts : list text) (conn : db) :
  match Ingest.main_batch encode stored_float session batch_texts conn with
  | Returned conn' =>
      exists new, contexts conn' = contexts conn ++ new
                  /\ Forall (fun r => List.length (embedding r) = Ingest.EMB_DIM) new
  | Raised e =>
      e = ValueError
      /\ Exists (fun t => List.length (encode t) <> Ingest.EMB_DIM) batch_texts
  end.
Proof.
  unfold Ingest.main_batch. cbv zeta. unfold Ingest.embed_texts.
  destruct (forallb (fun e => Nat.eqb (List.length e) Ingest.EMB_DIM)
                    (List.map encode batch_texts)) eqn:E.
  - destruct (execute_values_appends
                (List.map (fun te => (session, of_string "user", fst te,
                                      Ingest.emb_to_vector_literal stored_float (snd te)))
                          (combine batch_texts (List.map encode batch_texts))) conn)
      as [new [E1 E2]].
    exists new. split; [exact E1|].
    rewrite forallb_forall in E.
    rewrite map_map in E2. cbn [snd] in E2.
    assert (H : Forall (fun v => List.length v = Ingest.EMB_DIM) (List.map embedding new)).
    { rewrite E2. apply Forall_forall. intros v Hv.
      apply in_map_iff in Hv. destruct Hv as [[t e] [<- Hin]].
      cbn [snd]. unfold Ingest.emb_to_vector_literal. rewrite length_map.
      apply in_combine_r in Hin. apply Nat.eqb_eq, E, Hin. }
    clear - H. induction new as [|r new IH]; [constructor|].
    inversion H; subst. constructor; auto.
  - split; [reflexivity|].
    apply Exists_exists.
    destruct (forallb_forall (fun e => Nat.eqb (List.length e) Ingest.EMB_DIM)
                             (List.map encode batch_texts)) as [_ Hall].
    destruct (Exists_dec (fun t => List.length (encode t) <> Ingest.EMB_DIM) batch_texts)
      as [Hex|Hno].
    { intros t. destruct (Nat.eq_dec (List.length (encode t)) Ingest.EMB_DIM);
        [right; intros H; apply H; assumption | left; assumption]. }
    + apply Exists_exists in Hex. exact Hex.
    + exfalso. rewrite Hall in E; [discriminate|].
      intros e He. apply in_map_iff in He. destruct He as [t [<- Ht]].
      apply Nat.eqb_eq.
      destruct (Nat.eq_dec (List.length (encode t)) Ingest.EMB_DIM) as [Heq|Hne];
        [exact Heq|].
      exfalso. apply Hno. apply Exists_exists. exists t. split; assumption.
Qed.

(** C2.  [remember] makes no check of the embedding's length: with an
    embedder of one component it returns an id and persists a row whose
    embedding has one component, not [EMB_DIM = 384], and raises nothing. *)
Theorem remember_skips_dimension_check :
  let out := Example.remember Example.user (of_string "hello") Example.empty_db in
  fst out = Some 1%Z
  /\ exists r, contexts (snd out) = [r]
               /\ List.length (embedding r) = 1%nat
               /\ List.length (embedding r) <> Ingest.EMB_DIM.
Proof.
  cbv zeta. split; [reflexivity|].
  eexists. split; [vm_compute; reflexivity|].
  split; [reflexivity | vm_compute; discriminate].
Qed.

(** ** Sorting *)

Section SortFacts.

Context {A : Type} (leb : A -> A -> bool).
Hypothesis leb_total : forall a b, leb a b = true \/ leb b a = true.
Hypothesis leb_trans : forall a b c, leb a b = true -> leb b c = true -> leb a c = true.

Lemma insert_In (x y : A) (l : list A) :
  In y (Sorting.insert leb x l) <-> y = x \/ In y l.
Proof.
  induction l as [|z l IH]; simpl.
  - intuition.
  - destruct (leb x z); simpl; [intuition|]. rewrite IH. intuition.
Qed.

Lemma sort_In (y : A) (l : list A) : In y (Sorting.sort leb l) <-> In y l.
Proof.
  induction l as [|x l IH]; simpl; [tauto|].
  rewrite insert_In, IH. intuition.
Qed.

Lemma insert_length (x : A) (l : list A) :
  List.length (Sorting.insert leb x l) = S (List.length l).
Proof.
  induction l as [|z l IH]; simpl; [reflexivity|].
  destruct (leb x z); simpl; [reflexivity | rewrite IH; reflexivity].
Qed.

Lemma sort_length (l : list A) : List.length (Sorting.sort leb l) = List.length l.
Proof.
  induction l as [|x l IH]; simpl; [reflexivity|].
  rewrite insert_length, IH. reflexivity.
Qed.

Lemma insert_sorted (x : A) (l : list A) :
  StronglySorted (fun a b => leb a b = true) l ->
  StronglySorted (fun a b => leb a b = true) (Sorting.insert leb x l).
Proof.
  induction 1 as [|z l Hl IH Hz]; simpl.
  - constructor; constructor.
  - destruct (leb x z) eqn:E.
    + constructor; [constructor; assumption|].
      constructor; [exact E|].
      eapply Forall_impl; [|exact Hz]. intros a Ha. exact (leb_trans _ _ _ E Ha).
    + constructor; [exact IH|].
      apply Forall_forall. intros a Ha. apply insert_In in Ha.
      destruct Ha as [->|Ha].
      * destruct (leb_total x z) as [H|H]; [congruence | exact H].
      * rewrite Forall_forall in Hz. apply Hz, Ha.
Qed.

Lemma sort_sorted (l : list A) :
  StronglySorted (fun a b => leb a b = true) (Sorting.sort leb l).
Proof.
  induction l as [|x l IH]; simpl; [constructor | apply insert_sorted, IH].
Qed.

End SortFacts.

(** Sorting commutes with a map that keeps the order of the keys. *)
Lemma sort_map {A B : Type} (f : A -> B) (lebB : B -> B -> bool)
      (lebA : A -> A -> bool) (l : list A) :
  (forall a b, lebB (f a) (f b) = lebA a b) ->
  Sorting.sort lebB (List.map f l) = List.map f (Sorting.sort lebA l).
Proof.
  intros H. induction l as [|x l IH]; cbn [List.map Sorting.sort]; [reflexivity|].
  rewrite IH. generalize (Sorting.sort lebA l). intros s.
  induction s as [|y s IHs]; cbn [List.map Sorting.insert]; [reflexivity|].
  rewrite H. destruct (lebA x y); cbn [List.map]; [reflexivity|].
  rewrite IHs. reflexivity.
Qed.

Lemma firstn_member {A : Type} (n : nat) (l : list A) (a : A) :
  In a (firstn n l) -> In a l.
Proof.
  revert l. induction n as [|n IH]; intros [|x l]; simpl; try tauto.
  intros [->|H]; [left; reflexivity | right; apply IH, H].
Qed.

Lemma firstn_sorted {A : Type} (R : A -> A -> Prop) (n : nat) (l : list A) :
  StronglySorted R l -> StronglySorted R (firstn n l).
Proof.
  intros H. revert n. induction H as [|x l Hl IH Hx]; intros [|n]; simpl;
    try constructor.
  - apply IH.
  - apply Forall_forall. intros a Ha. rewrite Forall_forall in Hx.
    apply Hx. eapply firstn_member; exact Ha.
Qed.

Lemma firstn_Forall {A : Type} (P : A -> Prop) (n : nat) (l : list A) :
  Forall P l -> Forall P (firstn n l).
Proof.
  rewrite !Forall_forall. intros H a Ha. apply H. eapply firstn_member; exact Ha.
Qed.

Lemma Qle_bool_total (a b : Q) : Qle_bool a b = true \/ Qle_bool b a = true.
Proof.
  rewrite !Qle_bool_iff. destruct (Qlt_le_dec a b) as [H|H];
    [left; apply Qlt_le_weak, H | right; exact H].
Qed.

Lemma Qle_bool_trans (a b c : Q) :
  Qle_bool a b = true -> Qle_bool b c = true -> Qle_bool a c = true.
Proof. rewrite !Qle_bool_iff. apply Qle_trans. Qed.

(** ** The database query *)

Lemma dist_leb_total (a b : option float8) :
  dist_leb a b = true \/ dist_leb b a = true.
Proof.
  destruct a as [[x|]|], b as [[y|]|]; cbn; auto using Qle_bool_total.
Qed.

Lemma dist_leb_trans (a b c : option float8) :
  dist_leb a b = true -> dist_leb b c = true -> dist_leb a c = true.
Proof.
  destruct a as [[x|]|], b as [[y|]|], c as [[z|]|]; cbn;
    try congruence; try reflexivity.
  apply Qle_bool_trans.
Qed.

Lemma scan_In (heap : Z -> Z) (session : text) (conn : db) (r : row) :
  In r (scan heap session conn) <->
  In r (contexts conn) /\ session_id r = session.
Proof.
  unfold scan. rewrite sort_In, filter_In.
  split; intros [H E]; (split; [exact H|]); apply eqb_eq; exact E.
Qed.

Lemma scan_length (heap : Z -> Z) (session : text) (conn : db) :
  List.length (scan heap session conn)
  = List.length (session_rows session conn).
Proof. unfold scan, session_rows. apply sort_length. Qed.

Lemma limit_ok_spec (n : Z) :
  limit_ok n = true <-> (0 <= n <= BIGINT_MAX)%Z.
Proof. unfold limit_ok. rewrite andb_true_iff, !Z.leb_le. tauto. Qed.

Lemma same_dim_spec (a b : vector) :
  same_dim a b = true <-> List.length a = List.length b.
Proof. apply Nat.eqb_eq. Qed.

(** What the query gives: the first [n] rows of the session in ascending
    distance when it is answered; it is refused for a [LIMIT] out of range
    and, when rows are read, for a row of another dimension than the query
    vector. *)
Lemma nearest_spec (distance : vector -> vector -> option float8)
      (heap : Z -> Z) (session : text) (qvec : vector) (n : Z) (conn : db) :
  match nearest distance heap session qvec n conn with
  | Returned out =>
      (0 <= n <= BIGINT_MAX)%Z
      /\ out = firstn (Z.to_nat n)
                (Sorting.sort (fun a b => dist_leb (snd a) (snd b))
                   (List.map (fun r => (r, distance (embedding r) qvec))
                      (scan heap session conn)))
  | Raised e =>
      e = DataError
      /\ ((n < 0)%Z \/ (BIGINT_MAX < n)%Z
          \/ (0 < n)%Z
             /\ exists r, In r (contexts conn) /\ session_id r = session
                          /\ List.length (embedding r) <> List.length qvec)
  end.
Proof.
  unfold nearest. destruct (limit_ok n) eqn:El; cbn [negb].
  - apply limit_ok_spec in El. destruct (Z.eqb_spec n 0) as [->|Hn].
    + split; [exact El | reflexivity].
    + cbv zeta.
      destruct (forallb (fun r => same_dim (embedding r) qvec)
                        (scan heap session conn)) eqn:Ef.
      * split; [exact El | reflexivity].
      * split; [reflexivity|]. right. right. split; [lia|].
        destruct (forallb_forall (fun r => same_dim (embedding r) qvec)
                                 (scan heap session conn)) as [_ Hall].
        destruct (Exists_dec
                    (fun r => List.length (embedding r) <> List.length qvec)
                    (scan heap session conn)) as [Hex|Hno].
        { intros r.
          destruct (Nat.eq_dec (List.length (embedding r)) (List.length qvec));
            [right; intros H; apply H; assumption | left; assumption]. }
        -- apply Exists_exists in Hex. destruct Hex as [r [Hr Hd]].
           apply scan_In in Hr. exists r. tauto.
        -- exfalso. rewrite Hall in Ef; [discriminate|].
           intros r Hr. apply same_dim_spec.
           destruct (Nat.eq_dec (List.length (embedding r)) (List.length qvec))
             as [Heq|Hne]; [exact Heq|].
           exfalso. apply Hno. apply Exists_exists. exists r. split; assumption.
  - split; [reflexivity|].
    assert (H : ~ (0 <= n <= BIGINT_MAX)%Z)
      by (intros H; apply limit_ok_spec in H; congruence).
    lia.
Qed.

(** The rows the query returns are sorted in the order of [ORDER BY]. *)
Lemma nearest_sorted (distance : vector -> vector -> option float8)
      (heap : Z -> Z) (session : text) (qvec : vector) (n : Z) (conn : db)
      (out : list (row * option float8)) :
  nearest distance heap session qvec n conn = Returned out ->
  StronglySorted (fun a b => dist_leb (snd a) (snd b) = true) out.
Proof.
  intros E. pose proof (nearest_spec distance heap session qvec n conn) as S.
  rewrite E in S. destruct S as [_ ->].
  apply firstn_sorted.
  apply (sort_sorted (fun a b : row * option float8 => dist_leb (snd a) (snd b))).
  - intros a b. apply dist_leb_total.
  - intros a b c. apply dist_leb_trans.
Qed.

Lemma StronglySorted_impl {A : Type} (R R' : A -> A -> Prop) (l : list A) :
  (forall a b, R a b -> R' a b) -> StronglySorted R l -> StronglySorted R' l.
Proof.
  intros H. induction 1 as [|x l Hl IH Hx]; constructor; [exact IH|].
  eapply Forall_impl; [|exact Hx]. intros a. apply H.
Qed.

(** ** recall of rag_chat.py *)

(** What the loop keeps is a row of [rows] that passes the four tests. *)
Lemma keep_In (lower : text -> text) (MIN_SIM : Q)
      (block : list text) (rows : list (text * text * option float8))
      (r t : text) (d : float8) :
  In (r, t, d) (RagChat.keep lower MIN_SIM block rows) <->
  In (r, t, Some d) rows
  /\ float_gt d MIN_SIM = false
  /\ is_empty t = false
  /\ search RagChat.NOISE_RE t = false
  /\ existsb (fun bt => contains bt (lower t)) block = false.
Proof.
  induction rows as [|[[r0 t0] [d0|]] rows IH]; cbn [RagChat.keep In].
  - tauto.
  - destruct (float_gt d0 MIN_SIM) eqn:E1;
      [rewrite IH; split; [tauto|];
        intros [[H|H] R]; [inversion H; subst; destruct R as [R _]; congruence | tauto]|].
    destruct (is_empty t0) eqn:E2;
      [rewrite IH; split; [tauto|];
        intros [[H|H] R]; [inversion H; subst; destruct R as [_ [R _]]; congruence | tauto]|].
    destruct (search RagChat.NOISE_RE t0) eqn:E3;
      [rewrite IH; split; [tauto|];
        intros [[H|H] R]; [inversion H; subst; destruct R as [_ [_ [R _]]]; congruence | tauto]|].
    destruct (existsb (fun bt => contains bt (lower t0)) block) eqn:E4;
      [rewrite IH; split; [tauto|];
        intros [[H|H] R]; [inversion H; subst; destruct R as [_ [_ [_ R]]]; congruence | tauto]|].
    cbn [In]. rewrite IH. split.
    + intros [H|H]; [inversion H; subst; tauto | tauto].
    + intros [[H|H] R]; [inversion H; subst; left; reflexivity | right; tauto].
  - rewrite IH. split; [tauto|]. intros [[H|H] R]; [discriminate H | tauto].
Qed.

Lemma keep_length (lower : text -> text) (MIN_SIM : Q) (block : list text)
      (rows : list (text * text * option float8)) :
  (List.length (RagChat.keep lower MIN_SIM block rows) <= List.length rows)%nat.
Proof.
  induction rows as [|[[r t] [d|]] rows IH]; cbn [RagChat.keep List.length].
  - lia.
  - destruct (float_gt _ _); [lia|]. destruct (is_empty _); [lia|].
    destruct (search _ _); [lia|]. destruct (existsb _ _); [lia|].
    cbn [List.length]. lia.
  - lia.
Qed.

(** The loop keeps the order of the rows. *)
Lemma keep_sorted (lower : text -> text) (MIN_SIM : Q) (block : list text)
      (rows : list (text * text * option float8)) :
  StronglySorted (fun a b => dist_leb (snd a) (snd b) = true) rows ->
  StronglySorted (fun a b => ascending (snd a) (snd b))
                 (RagChat.keep lower MIN_SIM block rows).
Proof.
  induction 1 as [|[[r t] od] rows Hs IH Hx]; cbn [RagChat.keep];
    [constructor|].
  destruct od as [d|]; [|exact IH].
  destruct (float_gt _ _); [exact IH|]. destruct (is_empty _); [exact IH|].
  destruct (search _ _); [exact IH|]. destruct (existsb _ _); [exact IH|].
  constructor; [exact IH|].
  apply Forall_forall. intros [[r' t'] d'] Hin. apply keep_In in Hin.
  destruct Hin as [Hin _]. rewrite Forall_forall in Hx.
  exact (Hx _ Hin).
Qed.

Lemma sort_sorted_id {A : Type} (leb : A -> A -> bool) (l : list A) :
  StronglySorted (fun a b => leb a b = true) l -> Sorting.sort leb l = l.
Proof.
  induction 1 as [|x l Hl IH Hx]; cbn [Sorting.sort]; [reflexivity|].
  rewrite IH. destruct l as [|y l']; cbn [Sorting.insert]; [reflexivity|].
  inversion Hx; subst. rewrite H1. reflexivity.
Qed.

(** In ascending order no key is less than a key before it, in Python's
    sense of less. *)
Lemma ascending_not_lt (a b : float8) :
  ascending a b -> negb (float_lt b a) = true.
Proof.
  unfold ascending. destruct a as [x|], b as [y|]; cbn; try reflexivity.
  intros H. rewrite H. reflexivity.
Qed.

(** On a list in ascending order the sort of [ranked] does nothing. *)
Lemma ranked_sorted (k : Z) (kept : list (text * text * float8)) :
  StronglySorted (fun a b => ascending (snd a) (snd b)) kept ->
  RagChat.ranked k kept = firstn (Z.to_nat k) kept.
Proof.
  intros H. unfold RagChat.ranked. f_equal.
  apply sort_sorted_id.
  eapply StronglySorted_impl; [|exact H].
  intros a b. apply ascending_not_lt.
Qed.

Lemma StronglySorted_map {A B : Type} (f : A -> B) (R : B -> B -> Prop)
      (l : list A) :
  StronglySorted (fun a b => R (f a) (f b)) l -> StronglySorted R (List.map f l).
Proof.
  induction 1 as [|x l Hl IH Hx]; cbn [List.map]; constructor; [exact IH|].
  apply Forall_forall. intros b Hb. apply in_map_iff in Hb.
  destruct Hb as [a [<- Ha]]. rewrite Forall_forall in Hx. apply Hx, Ha.
Qed.

(** The query returns rows of the session, each with its distance to the
    query vector, in the order of [ORDER BY]; only for [k >= 0]. *)
Lemma select_rows_spec (distance : vector -> vector -> option float8)
      (heap : Z -> Z) (SESSION_ID : text) (qvec : vector) (k : Z) (conn : db) :
  match RagChat.select_rows distance heap SESSION_ID qvec k conn with
  | Returned rows =>
      (0 <= k)%Z
      /\ forall r t od, In (r, t, od) rows ->
           exists row, In row (contexts conn)
                       /\ session_id row = SESSION_ID
                       /\ role row = r /\ txt row = t
                       /\ distance (embedding row) qvec = od
  | Raised e => e = DataError
  end.
Proof.
  unfold RagChat.select_rows.
  pose proof (nearest_spec distance heap SESSION_ID qvec (k * 6) conn) as S.
  destruct (nearest distance heap SESSION_ID qvec (k * 6) conn) as [out|e].
  - destruct S as [Hk ->]. split; [lia|].
    intros r t od Hin. apply in_map_iff in Hin.
    destruct Hin as [[row od'] [E Hin]]. cbn [fst snd] in E.
    apply firstn_member in Hin. apply sort_In in Hin.
    apply in_map_iff in Hin. destruct Hin as [row' [E' Hrow]].
    apply scan_In in Hrow. inversion E; inversion E'; subst.
    exists row. tauto.
  - apply S.
Qed.

Lemma select_rows_sorted (distance : vector -> vector -> option float8)
      (heap : Z -> Z) (SESSION_ID : text) (qvec : vector) (k : Z) (conn : db)
      (rows : list (text * text * option float8)) :
  RagChat.select_rows distance heap SESSION_ID qvec k conn = Returned rows ->
  StronglySorted (fun a b => dist_leb (snd a) (snd b) = true) rows.
Proof.
  unfold RagChat.select_rows.
  destruct (nearest distance heap SESSION_ID qvec (k * 6) conn) as [out|e] eqn:E;
    [|discriminate].
  intros R. inversion R; subst rows. clear R.
  apply StronglySorted_map. cbn [snd].
  eapply nearest_sorted. exact E.
Qed.

(** What [recall] returns, read off its two steps: the first [k] of the
    rows the loop keeps, in the order of the query. *)
Lemma recall_spec
      (encode : text -> vector) (stored_float : Q -> Q)
      (distance : vector -> vector -> option float8) (heap : Z -> Z)
      (lower : text -> text)
      (SESSION_ID : text) (MIN_SIM : Q) (DEFAULT_BLOCK_TERMS : list text)
      (query : text) (conn : db) (k : Z) (block_terms : list text) :
  RagChat.recall encode stored_float distance heap lower SESSION_ID MIN_SIM
    DEFAULT_BLOCK_TERMS query conn k block_terms
  = match RagChat.select_rows distance heap SESSION_ID
            (RagChat.to_vec_literal stored_float (encode query)) k conn with
    | Raised e => Raised e
    | Returned rows =>
        Returned
          (List.map fst
             (firstn (Z.to_nat k)
                (RagChat.keep lower MIN_SIM
                   (RagChat.block_lc lower DEFAULT_BLOCK_TERMS block_terms)
                   rows)))
    end.
Proof.
  unfold RagChat.recall. cbv zeta.
  destruct (RagChat.select_rows distance heap SESSION_ID
              (RagChat.to_vec_literal stored_float (encode query)) k conn)
    as [rows|e] eqn:E; [|reflexivity].
  rewrite ranked_sorted
    by (apply keep_sorted; eapply select_rows_sorted; exact E).
  f_equal. apply map_ext. intros [[a b] c]. reflexivity.
Qed.

(** C1, as the spec states it, fails: there are store states and calls on
    which [recall] returns no list but raises the error of the database.
    [db_mixed] holds two rows of the session that [remember] itself stored,
    one with an embedder of one component and one with an embedder of two;
    the query cannot compare the second with a query vector of one
    component.  A negative [k] and a [k] whose sixfold is no [bigint] are
    refused on any table, the empty one too, on which no candidate
    survives. *)
Lemma recall_raises_database_errors :
  Example2.db_mixed
  = snd (RagChat.remember Example2.encode2 Example.stored_float Example.s1
           Example.user (of_string "hello again")
           (snd (Example.remember Example.user (of_string "hello")
                   Example.empty_db)))
  /\ Example.recall Example.q_tea Example2.db_mixed 3 [] = Raised DataError
  /\ Example.recall Example.q_tea Example.empty_db (-1) [] = Raised DataError
  /\ Example.recall Example.q_tea Example.empty_db 1537228672809129302 []
     = Raised DataError.
Proof. repeat split; vm_compute; reflexivity. Qed.

(** C1, amended.  When the database answers the query, the list [recall]
    returns has at most [k] pairs, which are the (role, text) of rows of the
    session listed by ascending cosine distance to the query embedding,
    none at a distance greater than [MIN_SIM] (so with [MIN_SIM = 0.35] none
    at distance 0.5); and when the loop keeps no candidate the result is the
    empty list, not an error.  An error of [recall] is the error of the
    query, which is refused when [k * 6] is negative or no [bigint], and,
    for a [k] above 0, when a row of the session has another dimension than
    the query vector. *)
Theorem recall_at_most_k_sorted_gated :
  forall (encode : text -> vector) (stored_float : Q -> Q)
         (distance : vector -> vector -> option float8) (heap : Z -> Z)
         (lower : text -> text)
         (SESSION_ID : text) (MIN_SIM : Q) (DEFAULT_BLOCK_TERMS : list text)
         (query : text) (conn : db) (k : Z) (block_terms : list text),
    let qvec := RagChat.to_vec_literal stored_float (encode query) in
    let result :=
      RagChat.recall encode stored_float distance heap lower SESSION_ID MIN_SIM
        DEFAULT_BLOCK_TERMS query conn k block_terms in
    match result with
    | Raised e =>
        RagChat.select_rows distance heap SESSION_ID qvec k conn = Raised e
    | Returned out =>
        (0 <= k)%Z
        /\ (Z.of_nat (List.length out) <= k)%Z
        /\ (exists hits : list (text * text * float8),
              out = List.map fst hits
              /\ StronglySorted (fun a b => ascending (snd a) (snd b)) hits
              /\ Forall (fun h =>
                           float_gt (snd h) MIN_SIM = false
                           /\ (forall d, snd h = Num d ->
                                 (d <= MIN_SIM)%Q
                                 /\ (MIN_SIM == 35 # 100 -> ~ d == 1 # 2)%Q)
                           /\ hit_of distance SESSION_ID conn qvec h) hits)
        /\ (forall rows,
              RagChat.select_rows distance heap SESSION_ID qvec k conn
              = Returned rows ->
              RagChat.keep lower MIN_SIM
                (RagChat.block_lc lower DEFAULT_BLOCK_TERMS block_terms) rows = [] ->
              out = [])
    end
    /\ ((k * 6 < 0)%Z \/ (BIGINT_MAX < k * 6)%Z -> result = Raised DataError)
    /\ ((0 < k)%Z ->
        (exists r, In r (contexts conn) /\ session_id r = SESSION_ID
                   /\ List.length (embedding r) <> List.length qvec) ->
        result = Raised DataError).
Proof.
  intros. subst result qvec. rewrite recall_spec.
  set (qvec := RagChat.to_vec_literal stored_float (encode query)).
  split; [|split].
  - pose proof (select_rows_spec distance heap SESSION_ID qvec k conn) as S.
    destruct (RagChat.select_rows distance heap SESSION_ID qvec k conn)
      as [rows|e] eqn:E; [|reflexivity].
    destruct S as [Hk Hrows].
    set (block := RagChat.block_lc lower DEFAULT_BLOCK_TERMS block_terms).
    set (hits := firstn (Z.to_nat k) (RagChat.keep lower MIN_SIM block rows)).
    split; [exact Hk|]. split; [|split].
    + rewrite length_map.
      pose proof (firstn_le_length (Z.to_nat k)
                    (RagChat.keep lower MIN_SIM block rows)) as L.
      fold hits in L. lia.
    + exists hits. split; [reflexivity|]. split.
      * apply firstn_sorted, keep_sorted.
        eapply select_rows_sorted. exact E.
      * apply Forall_forall. intros [[r t] d] Hin.
        apply firstn_member in Hin. apply keep_In in Hin.
        destruct Hin as [Hin [Hd _]]. cbn [snd fst].
        split; [exact Hd|]. split.
        -- intros d' Ed. subst d. cbn [float_gt] in Hd.
           apply negb_false_iff, Qle_bool_iff in Hd. split; [exact Hd|].
           intros HM Hhalf. rewrite HM, Hhalf in Hd.
           apply Qle_bool_iff in Hd. discriminate Hd.
        -- destruct (Hrows r t (Some d) Hin) as [row [H1 [H2 [H3 [H4 H5]]]]].
           exists row. cbn [fst snd]. subst r t. auto.
    + intros rows' E' HK. inversion E'; subst rows'.
      unfold hits. fold block in HK. rewrite HK. rewrite firstn_nil. reflexivity.
  - intros Hk. unfold RagChat.select_rows, nearest.
    assert (El : limit_ok (k * 6) = false).
    { destruct (limit_ok (k * 6)) eqn:El; [|reflexivity].
      apply limit_ok_spec in El. unfold BIGINT_MAX in *. lia. }
    rewrite El. reflexivity.
  - intros Hk [r [Hr [Hs Hd]]]. unfold RagChat.select_rows, nearest.
    destruct (limit_ok (k * 6)); cbn [negb]; [|reflexivity].
    destruct (Z.eqb_spec (k * 6) 0) as [E0|_]; [lia|]. cbv zeta.
    destruct (forallb (fun r0 => same_dim (embedding r0) qvec)
                      (scan heap SESSION_ID conn)) eqn:Ef; [|reflexivity].
    exfalso. rewrite forallb_forall in Ef.
    apply Hd, same_dim_spec, Ef, scan_In. tauto.
Qed.

(** ** Sessions *)

Lemma filter_twice {A : Type} (f : A -> bool) (l : list A) :
  List.filter f (List.filter f l) = List.filter f l.
Proof.
  induction l as [|x l IH]; simpl; [reflexivity|].
  destruct (f x) eqn:E; simpl; [rewrite E, IH; reflexivity | exact IH].
Qed.

Lemma NoDup_map_inj {A B : Type} (f : A -> B) (l : list A) (a b : A) :
  NoDup (List.map f l) -> In a l -> In b l -> f a = f b -> a = b.
Proof.
  induction l as [|x l IH]; simpl; [tauto|].
  intros N Ha Hb E. inversion N as [|y l' Hx Hl]; subst.
  destruct Ha as [->|Ha], Hb as [->|Hb]; auto.
  - exfalso. apply Hx. rewrite E. apply in_map, Hb.
  - exfalso. apply Hx. rewrite <- E. apply in_map, Ha.
Qed.

(** Every pair [recall] of rag_chat.py returns is the (role, text) of a row
    stored under [SESSION_ID]. *)
Lemma rag_recall_from_session
      (encode : text -> vector) (stored_float : Q -> Q)
      (distance : vector -> vector -> option float8) (heap : Z -> Z)
      (lower : text -> text)
      (SESSION_ID : text) (MIN_SIM : Q) (DEFAULT_BLOCK_TERMS : list text)
      (query : text) (conn : db) (k : Z) (block_terms : list text)
      (out : list (text * text)) :
  RagChat.recall encode stored_float distance heap lower SESSION_ID MIN_SIM
    DEFAULT_BLOCK_TERMS query conn k block_terms = Returned out ->
  forall p, In p out ->
  exists r, In r (contexts conn) /\ session_id r = SESSION_ID
            /\ (role r, txt r) = p.
Proof.
  unfold RagChat.recall. cbv zeta.
  pose proof (select_rows_spec distance heap SESSION_ID
                (RagChat.to_vec_literal stored_float (encode query)) k conn) as S.
  destruct (RagChat.select_rows distance heap SESSION_ID
              (RagChat.to_vec_literal stored_float (encode query)) k conn)
    as [rows|e]; [|discriminate].
  destruct S as [_ Hrows]. intros E p Hp. inversion E; subst out. clear E.
  apply in_map_iff in Hp. destruct Hp as [[[r t] d] [<- Hin]].
  unfold RagChat.ranked in Hin. apply firstn_member in Hin.
  apply sort_In in Hin. apply keep_In in Hin. destruct Hin as [Hin _].
  destruct (Hrows r t (Some d) Hin) as [row [H1 [H2 [H3 [H4 _]]]]].
  exists row. cbn [fst snd]. subst r t. auto.
Qed.

(** What [recall] of memory_chat.py returns when it returns: the first [k]
    rows of the session in the order of the query. *)
Lemma memory_recall_spec
      (encode : text -> vector) (stored_float : Q -> Q)
      (distance : vector -> vector -> option float8) (heap : Z -> Z)
      (conn : db) (session query : text) (k : Z)
      (out : list (Z * text * text)) :
  MemoryChat.recall encode stored_float distance heap conn session query k
  = Returned out ->
  has_nul session = false
  /\ (0 <= k <= BIGINT_MAX)%Z
  /\ out = List.map (fun r => (id r, role r, txt r))
             (firstn (Z.to_nat k)
                (Sorting.sort
                   (fun a b =>
                      dist_leb
                        (distance (embedding a)
                           (MemoryChat.embed encode stored_float query))
                        (distance (embedding b)
                           (MemoryChat.embed encode stored_float query)))
                   (scan heap session conn))).
Proof.
  unfold MemoryChat.recall. cbv zeta.
  destruct (has_nul session); [discriminate|].
  set (q := MemoryChat.embed encode stored_float query).
  pose proof (nearest_spec distance heap session q k conn) as S.
  destruct (nearest distance heap session q k conn) as [rows|e]; [|discriminate].
  destruct S as [Hk ->]. intros E. inversion E; subst out. clear E.
  split; [reflexivity|]. split; [exact Hk|].
  rewrite <- firstn_map.
  rewrite (sort_map (fun r : row => (r, distance (embedding r) q))
             (fun a b : row * option float8 => dist_leb (snd a) (snd b))
             (fun a b : row =>
                dist_leb (distance (embedding a) q) (distance (embedding b) q)))
    by reflexivity.
  rewrite map_map. cbn [fst]. apply firstn_map.
Qed.

(** Every triple [recall] of memory_chat.py returns is the (id, role, text)
    of a row stored under the session asked for. *)
Lemma memory_recall_from_session
      (encode : text -> vector) (stored_float : Q -> Q)
      (distance : vector -> vector -> option float8) (heap : Z -> Z)
      (conn : db) (session query : text) (k : Z)
      (out : list (Z * text * text)) :
  MemoryChat.recall encode stored_float distance heap conn session query k
  = Returned out ->
  forall x, In x out ->
  exists r, In r (contexts conn) /\ session_id r = session
            /\ (id r, role r, txt r) = x.
Proof.
  intros E x Hx. apply memory_recall_spec in E. destruct E as [_ [_ ->]].
  apply in_map_iff in Hx. destruct Hx as [r [<- Hr]].
  apply firstn_member in Hr. apply sort_In in Hr. apply scan_In in Hr.
  exists r. tauto.
Qed.

(** The query sees the rows of its session only. *)
Lemma nearest_restrict (distance : vector -> vector -> option float8)
      (heap : Z -> Z) (session : text) (qvec : vector) (n : Z) (conn : db) :
  nearest distance heap session qvec n (restrict session conn)
  = nearest distance heap session qvec n conn.
Proof.
  unfold nearest, scan, restrict. cbn [contexts].
  rewrite filter_twice. reflexivity.
Qed.

(** C4.  Session isolation.  Whatever [recall] returns for a session comes
    from rows stored under that session, and the rows of the other sessions
    have no part in the result: the call gives the same on the table with
    those rows taken out.  This holds for [recall] of rag_chat.py (whose
    session is [SESSION_ID]) and for [recall] of memory_chat.py; for the
    latter, which returns ids, no row of another session is returned when
    ids are unique. *)
Theorem recall_session_isolation :
  forall (encode : text -> vector) (stored_float : Q -> Q)
         (distance : vector -> vector -> option float8) (heap : Z -> Z)
         (lower : text -> text)
         (MIN_SIM : Q) (DEFAULT_BLOCK_TERMS : list text)
         (A query : text) (conn : db) (k : Z) (block_terms : list text),
    (forall out,
        RagChat.recall encode stored_float distance heap lower A MIN_SIM
          DEFAULT_BLOCK_TERMS query conn k block_terms = Returned out ->
        Forall (fun p => exists r, In r (contexts conn) /\ session_id r = A
                                   /\ (role r, txt r) = p) out)
    /\ RagChat.recall encode stored_float distance heap lower A MIN_SIM
         DEFAULT_BLOCK_TERMS query (restrict A conn) k block_terms
       = RagChat.recall encode stored_float distance heap lower A MIN_SIM
           DEFAULT_BLOCK_TERMS query conn k block_terms
    /\ (forall out,
           MemoryChat.recall encode stored_float distance heap conn A query k
           = Returned out ->
           Forall (fun x => exists r, In r (contexts conn) /\ session_id r = A
                                      /\ (id r, role r, txt r) = x) out
           /\ (NoDup (List.map id (contexts conn)) ->
               forall r', In r' (contexts conn) -> session_id r' <> A ->
                          ~ In (id r', role r', txt r') out))
    /\ MemoryChat.recall encode stored_float distance heap (restrict A conn) A query k
       = MemoryChat.recall encode stored_float distance heap conn A query k.
Proof.
  intros. split; [|split; [|split]].
  - intros out E. apply Forall_forall. intros p Hp.
    eapply rag_recall_from_session; eassumption.
  - unfold RagChat.recall, RagChat.select_rows.
    rewrite nearest_restrict. reflexivity.
  - intros out E. split.
    + apply Forall_forall. intros x Hx.
      eapply memory_recall_from_session; eassumption.
    + intros N r' Hr' Hs Hin.
      destruct (memory_recall_from_session _ _ _ _ _ _ _ _ _ E _ Hin)
        as [r [Hr [HA Heq]]].
      inversion Heq as [[Hid Hrole Htxt]].
      assert (r = r') by (eapply NoDup_map_inj; eassumption).
      subst r'. contradiction.
  - unfold MemoryChat.recall. rewrite nearest_restrict. reflexivity.
Qed.

(** ** The query of recall *)

(** C6, as the spec states it, fails: the query is embedded as it is given.
    Behind four NUL bytes, which [clean_text] deletes, ["tea or coffee"] has
    another embedding and recalls another list than its cleaned form. *)
Lemma recall_embeds_the_raw_query :
  RagChat.clean_text Example.q_nul_tea = Example.q_tea
  /\ Example.encode Example.q_nul_tea
     <> Example.encode (RagChat.clean_text Example.q_nul_tea)
  /\ Example.recall Example.q_nul_tea Example.db4 3 []
     = Returned [Example.row_politics]
  /\ Example.recall (RagChat.clean_text Example.q_nul_tea) Example.db4 3 []
     = Returned [Example.row_tea; Example.row_politics]
  /\ Example.recall Example.q_nul_tea Example.db4 3 []
     <> Example.recall (RagChat.clean_text Example.q_nul_tea) Example.db4 3 [].
Proof.
  split; [vm_compute; reflexivity|].
  split; [vm_compute; discriminate|].
  split; [vm_compute; reflexivity|].
  split; [vm_compute; reflexivity|].
  vm_compute. discriminate.
Qed.

(** C6, amended.  [recall] uses the embedding of the query as it is given:
    two queries with the same embedding recall the same, whatever they are
    (noise, blocked terms or neither), in rag_chat.py and in
    memory_chat.py.  Nothing is filtered on the query. *)
Theorem recall_depends_on_raw_embedding :
  forall (encode : text -> vector) (stored_float : Q -> Q)
         (distance : vector -> vector -> option float8) (heap : Z -> Z)
         (lower : text -> text)
         (SESSION_ID : text) (MIN_SIM : Q) (DEFAULT_BLOCK_TERMS : list text)
         (q1 q2 : text) (conn : db) (k : Z) (block_terms : list text),
    encode q1 = encode q2 ->
    RagChat.recall encode stored_float distance heap lower SESSION_ID MIN_SIM
      DEFAULT_BLOCK_TERMS q1 conn k block_terms
    = RagChat.recall encode stored_float distance heap lower SESSION_ID MIN_SIM
        DEFAULT_BLOCK_TERMS q2 conn k block_terms
    /\ MemoryChat.recall encode stored_float distance heap conn SESSION_ID q1 k
       = MemoryChat.recall encode stored_float distance heap conn SESSION_ID q2 k.
Proof.
  intros * E. unfold RagChat.recall, MemoryChat.recall, MemoryChat.embed.
  cbv zeta. rewrite E. split; reflexivity.
Qed.

(** The noise query ["END of coffee"] is as long as ["tea or coffee"], so
    the toy embedder gives both the same embedding, and both recall the
    same two rows. *)
Lemma recall_depends_on_raw_embedding_witness :
  search RagChat.NOISE_RE Example.q_end = true
  /\ Example.recall Example.q_end Example.db4 3 []
     = Returned [Example.row_tea; Example.row_politics]
  /\ (Example.recall Example.q_end Example.db4 3 []
      = Example.recall Example.q_tea Example.db4 3 []
      /\ MemoryChat.recall Example.encode Example.stored_float Example.distance
           Example.heap
           Example.db4 Example.s1 Example.q_end 3
         = MemoryChat.recall Example.encode Example.stored_float Example.distance
             Example.heap
             Example.db4 Example.s1 Example.q_tea 3).
Proof.
  split; [vm_compute; reflexivity|].
  split; [vm_compute; reflexivity|].
  apply (recall_depends_on_raw_embedding
           Example.encode Example.stored_float Example.distance
             Example.heap Example.lower
           Example.s1 Example.MIN_SIM [] Example.q_end Example.q_tea
           Example.db4 3 []).
  reflexivity.
Defined.

(** ** Block terms *)

Lemma block_lc_In (lower : text -> text) (D bt : list text) (b : text) :
  In b (RagChat.block_lc lower D bt) <->
  exists t, In t (bt ++ D) /\ lower t = b /\ b <> [].
Proof.
  unfold RagChat.block_lc. rewrite filter_In, in_map_iff. split.
  - intros [[t [E Ht]] Hb]. exists t. split; [exact Ht|]. split; [exact E|].
    intros ->. discriminate Hb.
  - intros [t [Ht [E Hb]]]. split; [exists t; auto|].
    destruct b; [contradiction | reflexivity].
Qed.

(** C7, as the spec states it, fails on an empty term: every text contains
    the empty string, and with [block_terms = [""]] the rows are returned
    all the same. *)
Lemma empty_block_term_excludes_nothing :
  contains (Example.lower []) (Example.lower (snd Example.row_tea)) = true
  /\ Example.recall Example.q_tea Example.db4 3 [ [] ]
     = Returned [Example.row_tea; Example.row_politics].
Proof. split; vm_compute; reflexivity. Qed.

(** C7, amended.  No pair [recall] returns has a text whose lower-cased form
    contains the lower-cased form of a non-empty block term, of the call or
    of the default list.  The row ["Politics today"], the closest match of
    ["tea or coffee?"], is returned first with no block term and is not
    returned with [block_terms = ["politics"]]. *)
Theorem recall_excludes_blocked_terms :
  forall (encode : text -> vector) (stored_float : Q -> Q)
         (distance : vector -> vector -> option float8) (heap : Z -> Z)
         (lower : text -> text)
         (SESSION_ID : text) (MIN_SIM : Q) (DEFAULT_BLOCK_TERMS : list text)
         (query : text) (conn : db) (k : Z) (block_terms : list text),
    match RagChat.recall encode stored_float distance heap lower SESSION_ID MIN_SIM
            DEFAULT_BLOCK_TERMS query conn k block_terms with
    | Returned out =>
        forall p t, In p out ->
                    In t (block_terms ++ DEFAULT_BLOCK_TERMS) ->
                    lower t <> [] ->
                    contains (lower t) (lower (snd p)) = false
    | Raised _ => True
    end
    /\ Example.recall Example.q_tea14 Example.db4 3 []
       = Returned [Example.row_politics; Example.row_tea]
    /\ Example.recall Example.q_tea14 Example.db4 3 [of_string "politics"]
       = Returned [Example.row_tea].
Proof.
  intros. split; [|split; vm_compute; reflexivity].
  unfold RagChat.recall. cbv zeta.
  pose proof (select_rows_spec distance heap SESSION_ID
                (RagChat.to_vec_literal stored_float (encode query)) k conn) as S.
  destruct (RagChat.select_rows distance heap SESSION_ID
              (RagChat.to_vec_literal stored_float (encode query)) k conn)
    as [rows|e]; [|exact I].
  intros p t Hp Ht Hl.
  apply in_map_iff in Hp. destruct Hp as [[[r x] d] [<- Hin]].
  unfold RagChat.ranked in Hin. apply firstn_member in Hin.
  apply sort_In in Hin. apply keep_In in Hin.
  destruct Hin as [_ [_ [_ [_ Hb]]]]. cbn [fst snd].
  destruct (contains (lower t) (lower x)) eqn:E; [|reflexivity].
  assert (Hex : existsb (fun bt => contains bt (lower x))
                        (RagChat.block_lc lower DEFAULT_BLOCK_TERMS block_terms)
                = true).
  { apply existsb_exists. exists (lower t). split; [|exact E].
    apply block_lc_In. exists t. auto. }
  congruence.
Qed.

Lemma block_lc_drops_empty (lower : text -> text) (D bt : list text) :
  lower [] = [] ->
  RagChat.block_lc lower D bt
  = RagChat.block_lc lower (List.filter (fun t => negb (is_empty t)) D)
      (List.filter (fun t => negb (is_empty t)) bt).
Proof.
  intros H0. unfold RagChat.block_lc. rewrite <- filter_app.
  induction (bt ++ D) as [|t l IH]; cbn [List.map List.filter]; [reflexivity|].
  destruct t as [|c t']; cbn [is_empty negb].
  - rewrite H0. cbn [is_empty negb]. exact IH.
  - cbn [List.map List.filter]. rewrite IH. reflexivity.
Qed.

(** C10.  Empty block terms are dropped before the filter: [recall] returns
    what it returns with the empty strings taken out of [block_terms] and of
    the default list, and so [block_terms = [""]] gives what
    [block_terms = []] gives.  ([str.lower] maps the empty string to
    itself.) *)
Theorem recall_drops_empty_block_terms :
  forall (encode : text -> vector) (stored_float : Q -> Q)
         (distance : vector -> vector -> option float8) (heap : Z -> Z)
         (lower : text -> text)
         (SESSION_ID : text) (MIN_SIM : Q) (DEFAULT_BLOCK_TERMS : list text)
         (query : text) (conn : db) (k : Z) (block_terms : list text),
    lower [] = [] ->
    RagChat.recall encode stored_float distance heap lower SESSION_ID MIN_SIM
      DEFAULT_BLOCK_TERMS query conn k block_terms
    = RagChat.recall encode stored_float distance heap lower SESSION_ID MIN_SIM
        (List.filter (fun t => negb (is_empty t)) DEFAULT_BLOCK_TERMS)
        query conn k
        (List.filter (fun t => negb (is_empty t)) block_terms)
    /\ RagChat.recall encode stored_float distance heap lower SESSION_ID MIN_SIM
         DEFAULT_BLOCK_TERMS query conn k [ [] ]
       = RagChat.recall encode stored_float distance heap lower SESSION_ID MIN_SIM
           DEFAULT_BLOCK_TERMS query conn k [].
Proof.
  intros * H0. unfold RagChat.recall. cbv zeta. split.
  - rewrite <- (block_lc_drops_empty lower DEFAULT_BLOCK_TERMS block_terms H0).
    reflexivity.
  - rewrite (block_lc_drops_empty lower DEFAULT_BLOCK_TERMS [ [] ] H0).
    rewrite (block_lc_drops_empty lower DEFAULT_BLOCK_TERMS [] H0).
    reflexivity.
Qed.

(** With a default list that holds an empty string too, and not every
    candidate excluded. *)
Lemma recall_drops_empty_block_terms_witness :
  Example.lower [] = []
  /\ RagChat.recall Example.encode Example.stored_float Example.distance Example.heap
       Example.lower Example.s1 Example.MIN_SIM [ []; of_string "politics" ]
       Example.q_tea Example.db4 3 [ [] ]
     = Returned [Example.row_tea]
  /\ (RagChat.recall Example.encode Example.stored_float Example.distance Example.heap
        Example.lower Example.s1 Example.MIN_SIM [ []; of_string "politics" ]
        Example.q_tea Example.db4 3 [ [] ]
      = RagChat.recall Example.encode Example.stored_float Example.distance Example.heap
          Example.lower Example.s1 Example.MIN_SIM
          (List.filter (fun t => negb (is_empty t)) [ []; of_string "politics" ])
          Example.q_tea Example.db4 3
          (List.filter (fun t => negb (is_empty t)) [ [] ])
      /\ RagChat.recall Example.encode Example.stored_float Example.distance
           Example.heap
           Example.lower Example.s1 Example.MIN_SIM [ []; of_string "politics" ]
           Example.q_tea Example.db4 3 [ [] ]
         = RagChat.recall Example.encode Example.stored_float Example.distance
             Example.heap
             Example.lower Example.s1 Example.MIN_SIM [ []; of_string "politics" ]
             Example.q_tea Example.db4 3 []).
Proof.
  split; [reflexivity|]. split; [vm_compute; reflexivity|].
  apply (recall_drops_empty_block_terms
           Example.encode Example.stored_float Example.distance
             Example.heap Example.lower
           Example.s1 Example.MIN_SIM [ []; of_string "politics" ]
           Example.q_tea Example.db4 3 [ [] ]).
  reflexivity.
Defined.

(** ** The session id is not validated *)

Lemma swap_id_eqb (s x : text) : eqb (swap_id s x) s = eqb x [].
Proof.
  unfold swap_id. destruct x as [|c x']; cbn [is_empty].
  - apply eqb_refl.
  - destruct (eqb (c :: x') s) eqn:E.
    + apply eqb_eq in E. subst s. reflexivity.
    + exact E.
Qed.

Lemma filter_swap (s : text) (rows : list row) :
  List.filter (fun r => eqb (session_id r) s) (List.map (swap_row s) rows)
  = List.map (swap_row s)
      (List.filter (fun r => eqb (session_id r) []) rows).
Proof.
  induction rows as [|r rows IH]; cbn [List.map List.filter]; [reflexivity|].
  cbn [swap_row session_id]. rewrite swap_id_eqb.
  destruct (eqb (session_id r) []); cbn [List.map]; rewrite IH; reflexivity.
Qed.

Lemma scan_swap (heap : Z -> Z) (s : text) (conn : db) :
  scan heap s (swap s conn) = List.map (swap_row s) (scan heap [] conn).
Proof.
  unfold scan, swap. cbn [contexts]. rewrite filter_swap.
  apply sort_map. reflexivity.
Qed.

Lemma forallb_map {A B : Type} (f : A -> B) (p : B -> bool) (l : list A) :
  forallb p (List.map f l) = forallb (fun a => p (f a)) l.
Proof.
  induction l as [|a l IH]; cbn [List.map forallb]; [reflexivity|].
  rewrite IH. reflexivity.
Qed.

(** The query for [s] on the table with the two ids exchanged is the query
    for the empty id: the same rows but for the id, or the same error. *)
Lemma nearest_swap (distance : vector -> vector -> option float8)
      (heap : Z -> Z) (s : text) (qvec : vector) (n : Z) (conn : db) :
  nearest distance heap s qvec n (swap s conn)
  = match nearest distance heap [] qvec n conn with
    | Returned rows =>
        Returned (List.map (fun rd => (swap_row s (fst rd), snd rd)) rows)
    | Raised e => Raised e
    end.
Proof.
  unfold nearest. destruct (negb (limit_ok n)); [reflexivity|].
  destruct (n =? 0)%Z; [reflexivity|]. cbv zeta.
  rewrite scan_swap, forallb_map. cbn [swap_row embedding].
  destruct (forallb (fun r => same_dim (embedding r) qvec) (scan heap [] conn));
    [|reflexivity].
  f_equal. rewrite <- firstn_map. f_equal. rewrite map_map. cbn [swap_row embedding].
  rewrite <- (map_map (fun r => (r, distance (embedding r) qvec))
                      (fun rd => (swap_row s (fst rd), snd rd))).
  apply sort_map. reflexivity.
Qed.

Lemma insert_row_swap (s role t : text) (v : vector) (conn : db) :
  insert_row s role t v (swap s conn)
  = (fst (insert_row [] role t v conn), swap s (snd (insert_row [] role t v conn))).
Proof.
  unfold insert_row, swap. cbn [fst snd contexts next_id].
  rewrite map_app. reflexivity.
Qed.

(** C9, as the spec states it, fails: with the empty session id,
    [remember] of memory_chat.py inserts the row and returns its id, and
    [recall] searches and returns it; so do [remember] and [recall] of
    rag_chat.py when [SESSION_ID] is empty. *)
Lemma empty_session_id_is_accepted :
  MemoryChat.remember Example.encode Example.stored_float Example.empty_db
    [] Example.user Example.q_tea
  = (Returned 1%Z, mk_db [mk_row 1 [] Example.user Example.q_tea [13%Q]] 2)
  /\ MemoryChat.recall Example.encode Example.stored_float Example.distance
       Example.heap
       (mk_db [mk_row 1 [] Example.user Example.q_tea [13%Q]] 2)
       [] Example.q_tea 5
     = Returned [(1%Z, Example.user, Example.q_tea)]
  /\ RagChat.remember Example.encode Example.stored_float []
       Example.user Example.q_tea Example.empty_db
     = (Some 1%Z, mk_db [mk_row 1 [] Example.user Example.q_tea [13%Q]] 2)
  /\ RagChat.recall Example.encode Example.stored_float Example.distance
       Example.heap Example.lower [] Example.MIN_SIM []
       Example.q_tea (mk_db [mk_row 1 [] Example.user Example.q_tea [13%Q]] 2)
       5 []
     = Returned [Example.row_tea].
Proof. repeat split; vm_compute; reflexivity. Qed.

(** C9, amended.  The session id is not validated: the empty id is handled
    like any other.  For an id [s] (without NUL, which psycopg2 refuses in
    memory_chat.py), [remember] and [recall] with the empty id do on a
    table what they do with [s] on the table in which the two ids are
    exchanged: the same id or list is returned or the same error raised,
    and the same row written.  When [remember] returns an id, the row has
    been appended under the empty id.  This holds for memory_chat.py, which
    takes the id as an argument, and for rag_chat.py, which takes it from
    [SESSION_ID]. *)
Theorem empty_session_id_not_validated :
  forall (encode : text -> vector) (stored_float : Q -> Q)
         (distance : vector -> vector -> option float8) (heap : Z -> Z)
         (lower : text -> text)
         (MIN_SIM : Q) (DEFAULT_BLOCK_TERMS : list text)
         (s role t query : text) (conn : db) (k : Z) (block_terms : list text),
    has_nul s = false ->
    (let out := MemoryChat.remember encode stored_float conn [] role t in
     MemoryChat.remember encode stored_float (swap s conn) s role t
     = (fst out, swap s (snd out))
     /\ forall rid,
          fst out = Returned rid ->
          snd out
          = mk_db (contexts conn
                   ++ [mk_row rid [] role t
                         (MemoryChat.embed encode stored_float t)])
                  (next_id conn + 1))
    /\ MemoryChat.recall encode stored_float distance heap (swap s conn) s query k
       = MemoryChat.recall encode stored_float distance heap conn [] query k
    /\ (let out := RagChat.remember encode stored_float [] role t conn in
        RagChat.remember encode stored_float s role t (swap s conn)
        = (fst out, swap s (snd out))
        /\ forall rid,
             fst out = Some rid ->
             snd out
             = mk_db (contexts conn
                      ++ [mk_row rid [] role (RagChat.clean_text t)
                            (List.map stored_float
                               (encode (RagChat.clean_text t)))])
                     (next_id conn + 1))
    /\ RagChat.recall encode stored_float distance heap lower s MIN_SIM
         DEFAULT_BLOCK_TERMS query (swap s conn) k block_terms
       = RagChat.recall encode stored_float distance heap lower [] MIN_SIM
           DEFAULT_BLOCK_TERMS query conn k block_terms.
Proof.
  intros encode stored_float distance heap lower MIN_SIM DEFAULT_BLOCK_TERMS
         s role t query conn k block_terms Hs.
  cbv zeta. split; [|split; [|split]].
  - unfold MemoryChat.remember. cbv zeta. rewrite Hs. cbn [has_nul existsb orb].
    destruct (has_nul role || has_nul t).
    + split; [reflexivity|]. intros rid H. discriminate H.
    + rewrite insert_row_swap. cbn [insert_row fst snd]. split; [reflexivity|].
      intros rid H. inversion H; subst rid. reflexivity.
  - unfold MemoryChat.recall. cbv zeta. rewrite Hs. cbn [has_nul existsb].
    rewrite nearest_swap.
    destruct (nearest distance heap [] (MemoryChat.embed encode stored_float query)
                k conn) as [rows|e]; [|reflexivity].
    rewrite map_map. reflexivity.
  - unfold RagChat.remember. cbv zeta.
    destruct (startswith _ _); [split; [reflexivity | discriminate]|].
    destruct (is_empty _); [split; [reflexivity | discriminate]|].
    destruct (search _ _); [split; [reflexivity | discriminate]|].
    rewrite insert_row_swap. cbn [insert_row fst snd]. split; [reflexivity|].
    intros rid H. inversion H; subst rid. reflexivity.
  - unfold RagChat.recall, RagChat.select_rows. cbv zeta.
    rewrite nearest_swap.
    destruct (nearest distance heap []
                (RagChat.to_vec_literal stored_float (encode query)) (k * 6) conn)
      as [rows|e]; [|reflexivity].
    rewrite map_map. reflexivity.
Qed.

(** The table with one row under the empty id and one under ["s1"]: the
    search for ["s1"] on the table with the ids exchanged finds what the
    search for the empty id finds. *)
Lemma empty_session_id_not_validated_witness :
  has_nul Example.s1 = false
  /\ MemoryChat.recall Example.encode Example.stored_float Example.distance
       Example.heap Example2.db_anon [] Example.q_tea 5
     = Returned [(1%Z, Example.user, Example.q_tea)]
  /\ MemoryChat.recall Example.encode Example.stored_float Example.distance
       Example.heap (swap Example.s1 Example2.db_anon) Example.s1
       Example.q_tea 5
     = MemoryChat.recall Example.encode Example.stored_float Example.distance
         Example.heap Example2.db_anon [] Example.q_tea 5.
Proof.
  split; [reflexivity|]. split; [vm_compute; reflexivity|].
  apply (empty_session_id_not_validated Example.encode Example.stored_float
           Example.distance Example.heap Example.lower Example.MIN_SIM []
           Example.s1 Example.user Example.q_tea Example.q_tea
           Example2.db_anon 5 []).
  reflexivity.
Defined.

(** ** The scenarios of the specification, evaluated *)

(** Rows at distances 0.1, 0.5 and 0.9 come back in that order when the gate
    lets all of them through ([MIN_SIM = 0.9]); with [MIN_SIM = 0.35] only
    the row at 0.1 is returned, whatever [k]; and [k = 2] cuts the list
    after the two closest. *)
Lemma recall_orders_by_distance_example :
  RagChat.recall Example.encode Example.stored_float Example.distance Example.heap
    Example.lower Example.s1 (9 # 10) [] [] Example.db3 3 []
  = Returned [ (Example.user, Example.near); (Example.user, Example.middle);
               (Example.user, Example.far) ]
  /\ Example.recall [] Example.db3 3 [] = Returned [ (Example.user, Example.near) ]
  /\ Example.recall [] Example.db3 100 [] = Returned [ (Example.user, Example.near) ]
  /\ RagChat.recall Example.encode Example.stored_float Example.distance Example.heap
       Example.lower Example.s1 (9 # 10) [] [] Example.db3 2 []
     = Returned [ (Example.user, Example.near); (Example.user, Example.middle) ].
Proof. repeat split; vm_compute; reflexivity. Qed.

(** The row of session ["s2"] in [db4] is never recalled for ["s1"], and is
    the only one recalled for ["s2"]. *)
Lemma recall_session_example :
  MemoryChat.recall Example.encode Example.stored_float Example.distance Example.heap
    Example.db4 Example.s1 Example.q_tea 5
  = Returned [ (1%Z, Example.user, Example.q_tea);
               (3%Z, Example.assistant, of_string "Politics today");
               (4%Z, Example.user, of_string "something much longer") ]
  /\ MemoryChat.recall Example.encode Example.stored_float Example.distance Example.heap
       Example.db4 Example.s2 Example.q_tea 5
     = Returned [ (2%Z, Example.user, Example.q_tea) ].
Proof. split; vm_compute; reflexivity. Qed.

(** Rows at the same distance come in the order of the table's file: the
    two rows of [db_noise], both at distance 0 from the query, come in the
    order of their ids when the file holds them so, and in the other order
    when it holds them the other way round. *)
Lemma ties_follow_the_heap_example :
  MemoryChat.recall Example.encode Example.stored_float Example.distance
    Example.heap Example2.db_noise Example.s1 Example.q_tea 5
  = Returned [ (1%Z, Example.user, Example.q_tea);
               (2%Z, Example.user, Example.q_end) ]
  /\ MemoryChat.recall Example.encode Example.stored_float Example.distance
       (fun i => (- i)%Z) Example2.db_noise Example.s1 Example.q_tea 5
     = Returned [ (2%Z, Example.user, Example.q_end);
                  (1%Z, Example.user, Example.q_tea) ].
Proof. split; vm_compute; reflexivity. Qed.

(** * Further properties *)

(** ** Cleaning only deletes *)

Lemma subseq_refl {A : Type} (l : list A) : subseq l l.
Proof. induction l; constructor; assumption. Qed.

Lemma subseq_trans {A : Type} (a b c : list A) :
  subseq a b -> subseq b c -> subseq a c.
Proof.
  intros Hab Hbc. revert a Hab.
  induction Hbc as [|x b c Hbc IH|x b c Hbc IH]; intros a Hab.
  - exact Hab.
  - constructor. apply IH, Hab.
  - inversion Hab; subst.
    + constructor. apply IH. assumption.
    + apply subseq_keep. apply IH. assumption.
Qed.

Lemma subseq_length {A : Type} (a b : list A) :
  subseq a b -> (List.length a <= List.length b)%nat.
Proof. induction 1; simpl; lia. Qed.

Lemma subseq_nil_l {A : Type} (l : list A) : subseq [] l.
Proof. induction l; constructor; assumption. Qed.

Lemma filter_subseq {A : Type} (f : A -> bool) (l : list A) :
  subseq (List.filter f l) l.
Proof.
  induction l as [|x l IH]; simpl; [constructor|].
  destruct (f x); constructor; exact IH.
Qed.

Lemma sub_from_subseq (r : regex) (s : text) :
  forall n bos, subseq (sub_from r n bos s) s.
Proof.
  induction s as [|c s' IH]; intros n bos; simpl; [constructor|].
  destruct n as [|n]; [|constructor; apply IH].
  destruct (match_len r bos (c :: s')) as [[|m]|]; constructor; apply IH.
Qed.

Lemma lstrip_subseq (s : text) : subseq (lstrip s) s.
Proof.
  induction s as [|c r IH]; simpl; [constructor|].
  destruct (isspace c); [constructor; exact IH | apply subseq_refl].
Qed.

Lemma rstrip_subseq (s : text) : subseq (rstrip s) s.
Proof.
  induction s as [|c r IH]; simpl; [constructor|].
  destruct (rstrip r) as [|y r'].
  - destruct (isspace c); [apply subseq_nil_l|].
    apply subseq_keep. apply subseq_nil_l.
  - apply subseq_keep. exact IH.
Qed.

Lemma strip_subseq (s : text) : subseq (strip s) s.
Proof.
  unfold strip. eapply subseq_trans; [apply rstrip_subseq | apply lstrip_subseq].
Qed.

(** X1.  [clean_text] only deletes characters: its result is the input
    with some characters left out, in the same order, so it is never
    longer than the input.  For rag_chat.py and for ingest.py. *)
Theorem clean_text_only_deletes (s : text) :
  subseq (RagChat.clean_text s) s
  /\ subseq (Ingest.clean_text s) s
  /\ (List.length (RagChat.clean_text s) <= List.length s)%nat
  /\ (List.length (Ingest.clean_text s) <= List.length s)%nat.
Proof.
  assert (H1 : subseq (RagChat.clean_text s) s).
  { unfold RagChat.clean_text. destruct (is_empty s); [apply subseq_nil_l|].
    cbv zeta.
    eapply subseq_trans; [apply strip_subseq|].
    eapply subseq_trans; [apply sub_from_subseq|].
    eapply subseq_trans; [apply sub_from_subseq|].
    eapply subseq_trans; [apply sub_from_subseq|].
    apply filter_subseq. }
  assert (H2 : subseq (Ingest.clean_text s) s).
  { unfold Ingest.clean_text. destruct (is_empty s); [apply subseq_nil_l|].
    cbv zeta.
    eapply subseq_trans; [apply strip_subseq|].
    eapply subseq_trans; [apply filter_subseq|].
    eapply subseq_trans; [apply sub_from_subseq|].
    eapply subseq_trans; [apply sub_from_subseq|].
    eapply subseq_trans; [apply sub_from_subseq|].
    apply filter_subseq. }
  repeat split; auto using subseq_length.
Qed.

(** X2.  What [clean_text] returns holds no NUL, no ESC, no other control
    character of its class and no spinner glyph, and has no white space at
    either end; the one of ingest.py holds no carriage return either. *)
Theorem clean_text_result_is_clean (s : text) :
  (Forall (fun c => c <> RagChat.NUL /\ c <> RagChat.ESC
                    /\ RagChat.control c = false /\ RagChat.spinner c = false)
          (RagChat.clean_text s)
   /\ lstrip (RagChat.clean_text s) = RagChat.clean_text s
   /\ rstrip (RagChat.clean_text s) = RagChat.clean_text s)
  /\ (Forall (fun c => c <> RagChat.NUL /\ c <> RagChat.ESC /\ c <> RagChat.CR
                       /\ RagChat.control c = false /\ RagChat.spinner c = false)
             (Ingest.clean_text s)
      /\ lstrip (Ingest.clean_text s) = Ingest.clean_text s
      /\ rstrip (Ingest.clean_text s) = Ingest.clean_text s).
Proof.
  assert (Hstrip : forall u, lstrip (strip u) = strip u /\ rstrip (strip u) = strip u).
  { intros u. unfold strip. split; [|apply rstrip_idem].
    apply lstrip_fixed, rstrip_starts_black, lstrip_starts_black. }
  split.
  - destruct (rag_clean_text_tidy s) as [Ht Hs]. split.
    + eapply Forall_impl; [|exact Ht]. intros c Hc.
      split; [apply tidy_not_NUL, Hc|]. split; [apply tidy_not_ESC, Hc|]. exact Hc.
    + rewrite <- Hs. apply Hstrip.
  - destruct (ingest_clean_text_tidy s) as [Ht [Hcr Hs]]. split.
    + apply Forall_forall. intros c Hc. rewrite Forall_forall in Ht, Hcr.
      split; [apply tidy_not_NUL, Ht, Hc|]. split; [apply tidy_not_ESC, Ht, Hc|].
      split; [apply Hcr, Hc | apply Ht, Hc].
    + rewrite <- Hs. apply Hstrip.
Qed.

(** ** Escape sequences *)

(** Reading the character classes as ranges. *)
Ltac class_facts :=
  unfold RagChat.csi_param, RagChat.csi_inter, RagChat.csi_final,
         RagChat.esc_two, RagChat.control, RagChat.spinner, RagChat.not_bel,
         isspace, between,
         RagChat.ESC, RagChat.NUL, RagChat.BEL, RagChat.CR, RagChat.LF in *;
  repeat match goal with
         | H : _ && _ = true |- _ => apply andb_true_iff in H; destruct H
         | H : _ || _ = true |- _ => apply orb_true_iff in H; destruct H
         | H : _ || _ = false |- _ => apply orb_false_iff in H; destruct H
         | H : (_ <=? _) = true |- _ => apply N.leb_le in H
         | H : (_ =? _) = true |- _ => apply N.eqb_eq in H
         | H : (_ =? _) = false |- _ => apply N.eqb_neq in H
         end;
  repeat match goal with
         | |- context [?a <=? ?b] => destruct (N.leb_spec a b)
         | |- context [?a =? ?b] => destruct (N.eqb_spec a b)
         end;
  simpl; try reflexivity; try lia.

Lemma csi_inter_not_param (c : char) :
  RagChat.csi_inter c = true -> RagChat.csi_param c = false.
Proof. intros H. class_facts. Qed.

Lemma csi_final_not_param (c : char) :
  RagChat.csi_final c = true -> RagChat.csi_param c = false.
Proof. intros H. class_facts. Qed.

Lemma csi_final_not_inter (c : char) :
  RagChat.csi_final c = true -> RagChat.csi_inter c = false.
Proof. intros H. class_facts. Qed.

(** A greedy run over a class takes every leading character of the class
    when the pattern goes on successfully behind them. *)
Lemma star_cls_success (p : char -> bool) (k : bool -> text -> option text)
      (out : text) (s : text) :
  match s with [] => True | c :: _ => p c = false end ->
  (forall b, k b s = Some out) ->
  forall xs n bos,
    Forall (fun c => p c = true) xs ->
    (List.length (xs ++ s) <= n)%nat ->
    star_iter (rmatch (Cls p)) k n bos (xs ++ s) = Some out.
Proof.
  intros Hhead Hk xs.
  induction xs as [|x xs IH]; intros n bos Hxs Hn.
  - cbn [app]. destruct n as [|n]; cbn [star_iter]; [apply Hk|].
    destruct s as [|c s']; cbn [rmatch]; [apply Hk|].
    rewrite Hhead. apply Hk.
  - inversion Hxs as [|y ys Hx Hxs']; subst.
    destruct n as [|n]; [simpl in Hn; lia|].
    cbn [star_iter app rmatch]. rewrite Hx.
    destruct (Nat.ltb_spec (List.length (xs ++ s)) (List.length (x :: xs ++ s)))
      as [_|Hge]; [|simpl in Hge; lia].
    assert (E : star_iter (rmatch (Cls p)) k n false (xs ++ s) = Some out)
      by (apply IH; [exact Hxs' | simpl in Hn; lia]).
    cbn [rmatch] in E. rewrite E. reflexivity.
Qed.

(** A complete CSI sequence is matched as a whole. *)
Lemma match_at_CSI (bos : bool) (params inter : text) (final : char) (rest : text) :
  Forall (fun c => RagChat.csi_param c = true) params ->
  Forall (fun c => RagChat.csi_inter c = true) inter ->
  RagChat.csi_final final = true ->
  match_at RagChat.ANSI_RE bos
    (RagChat.ESC :: 0x5B :: params ++ inter ++ final :: rest) = Some rest.
Proof.
  intros Hp Hi Hf.
  unfold match_at, RagChat.ANSI_RE, alts, seqs, Chr.
  cbn [rmatch]. rewrite !N.eqb_refl.
  match goal with
  | |- match ?t with Some o => Some o | None => _ end = _ =>
      assert (E : t = Some rest); [|rewrite E; reflexivity]
  end.
  apply (star_cls_success RagChat.csi_param _ rest (inter ++ final :: rest)).
  - destruct inter as [|i inter']; cbn [app].
    + apply csi_final_not_param, Hf.
    + inversion Hi; subst. apply csi_inter_not_param. assumption.
  - intros b.
    apply (star_cls_success RagChat.csi_inter _ rest (final :: rest)).
    + apply csi_final_not_inter, Hf.
    + intros b'. cbn [rmatch]. rewrite Hf. reflexivity.
    + exact Hi.
    + apply Nat.le_refl.
  - exact Hp.
  - apply Nat.le_refl.
Qed.

(** [ANSI_RE] does not look at the start of the string. *)
Lemma match_at_ANSI_bos (b b' : bool) (s : text) :
  match_at RagChat.ANSI_RE b s = match_at RagChat.ANSI_RE b' s.
Proof. destruct s; reflexivity. Qed.

Lemma sub_from_ANSI_bos (s : text) :
  forall n b b', sub_from RagChat.ANSI_RE n b s = sub_from RagChat.ANSI_RE n b' s.
Proof.
  induction s as [|c s' IH]; intros n b b'; cbn [sub_from]; [reflexivity|].
  destruct n as [|n]; [|reflexivity].
  unfold match_len. rewrite (match_at_ANSI_bos b b'). reflexivity.
Qed.

(** Characters that start no match are kept, and the scan goes on behind
    them. *)
Lemma sub_from_app_fixed (r : regex) (P : char -> Prop) :
  (forall c, P c -> forall bos rest, match_at r bos (c :: rest) = None) ->
  forall p, Forall P p -> forall bos x,
    sub_from r 0 bos (p ++ x)
    = p ++ sub_from r 0 (match p with [] => bos | _ :: _ => false end) x.
Proof.
  intros Hnone p Hp. induction Hp as [|c p Hc Hp IH]; intros bos x.
  - reflexivity.
  - cbn [app sub_from]. unfold match_len. rewrite (Hnone c Hc).
    rewrite IH. destruct p; reflexivity.
Qed.

(** The characters of a match are deleted, and the scan goes on behind
    them. *)
Lemma sub_from_skip (r : regex) (x : text) :
  forall n bos rest, List.length x = n ->
    sub_from r n bos (x ++ rest)
    = sub_from r 0 (match x with [] => bos | _ :: _ => false end) rest.
Proof.
  induction x as [|c x IH]; intros n bos rest Hn; cbn [List.length] in Hn; subst n.
  - reflexivity.
  - cbn [app sub_from]. rewrite (IH (List.length x) false rest eq_refl).
    destruct x; reflexivity.
Qed.

Lemma sub_from_matched (r : regex) (bos : bool) (c : char) (x rest : text) :
  match_at r bos (c :: x ++ rest) = Some rest ->
  sub_from r 0 bos (c :: x ++ rest)
  = sub_from r 0 false rest.
Proof.
  intros E. cbn [sub_from]. unfold match_len. rewrite E.
  replace (List.length (c :: x ++ rest) - List.length rest)%nat
    with (S (List.length x)) by (cbn [List.length]; rewrite length_app; lia).
  rewrite (sub_from_skip r x (List.length x) false rest eq_refl).
  destruct x; reflexivity.
Qed.

(** [clean_text] without its first test, which changes nothing: the empty
    string goes through the steps unchanged. *)
Lemma rag_clean_text_steps (s : text) :
  RagChat.clean_text s
  = strip (sub RagChat.CONTROL_RE (sub RagChat.SPINNER_RE
             (sub RagChat.ANSI_RE (remove_char RagChat.NUL s)))).
Proof. destruct s; reflexivity. Qed.

Lemma remove_char_app (c : char) (a b : text) :
  remove_char c (a ++ b) = remove_char c a ++ remove_char c b.
Proof. unfold remove_char. apply filter_app. Qed.

Lemma ingest_clean_text_steps (s : text) :
  Ingest.clean_text s
  = strip (remove_char RagChat.CR
             (sub RagChat.CONTROL_RE (sub RagChat.SPINNER_RE
                (sub RagChat.ANSI_RE (remove_char RagChat.NUL s))))).
Proof. destruct s; reflexivity. Qed.

Lemma csi_param_not_NUL (c : char) : RagChat.csi_param c = true -> c <> RagChat.NUL.
Proof. intros H E. subst c. discriminate H. Qed.

Lemma csi_inter_not_NUL (c : char) : RagChat.csi_inter c = true -> c <> RagChat.NUL.
Proof. intros H E. subst c. discriminate H. Qed.

Lemma csi_final_not_NUL (c : char) : RagChat.csi_final c = true -> c <> RagChat.NUL.
Proof. intros H E. subst c. discriminate H. Qed.

(** The first two steps of [clean_text] delete a complete CSI sequence and
    nothing around it, when no ESC stands before it. *)
Lemma sub_ANSI_csi (pre params inter : text) (final : char) (post : text) :
  Forall (fun c => c <> RagChat.ESC) pre ->
  Forall (fun c => RagChat.csi_param c = true) params ->
  Forall (fun c => RagChat.csi_inter c = true) inter ->
  RagChat.csi_final final = true ->
  sub RagChat.ANSI_RE
    (remove_char RagChat.NUL
       (pre ++ RagChat.ESC :: 0x5B :: params ++ inter ++ final :: post))
  = sub RagChat.ANSI_RE (remove_char RagChat.NUL (pre ++ post)).
Proof.
  intros Hpre Hp Hi Hf.
  assert (Hnul : remove_char RagChat.NUL
                   (RagChat.ESC :: 0x5B :: params ++ inter ++ final :: post)
                 = RagChat.ESC :: 0x5B :: params ++ inter
                   ++ final :: remove_char RagChat.NUL post).
  { change (RagChat.ESC :: 0x5B :: params ++ inter ++ final :: post)
      with ([RagChat.ESC; 0x5B] ++ params ++ inter ++ [final] ++ post).
    rewrite !remove_char_app.
    rewrite (remove_char_fixed RagChat.NUL params)
      by (eapply Forall_impl; [apply csi_param_not_NUL | exact Hp]).
    rewrite (remove_char_fixed RagChat.NUL inter)
      by (eapply Forall_impl; [apply csi_inter_not_NUL | exact Hi]).
    rewrite (remove_char_fixed RagChat.NUL [final])
      by (constructor; [apply csi_final_not_NUL, Hf | constructor]).
    reflexivity. }
  rewrite !remove_char_app, Hnul. unfold sub.
  assert (Hpre' : Forall (fun c => c <> RagChat.ESC) (remove_char RagChat.NUL pre))
    by (apply remove_char_Forall, Hpre).
  rewrite !(sub_from_app_fixed RagChat.ANSI_RE (fun c => c <> RagChat.ESC)
              (fun c Hc bos rest => match_at_ANSI_none bos c rest Hc) _ Hpre').
  f_equal.
  set (b := match remove_char RagChat.NUL pre with [] => true | _ :: _ => false end).
  set (rest := remove_char RagChat.NUL post).
  assert (Hshape : RagChat.ESC :: 0x5B :: params ++ inter ++ final :: rest
                   = RagChat.ESC :: (0x5B :: params ++ inter ++ [final]) ++ rest).
  { cbn [app]. rewrite <- !app_assoc. reflexivity. }
  assert (Hm : match_at RagChat.ANSI_RE b
                 (RagChat.ESC :: (0x5B :: params ++ inter ++ [final]) ++ rest)
               = Some rest).
  { rewrite <- Hshape. apply match_at_CSI; assumption. }
  rewrite Hshape.
  etransitivity;
    [exact (sub_from_matched RagChat.ANSI_RE b RagChat.ESC
              (0x5B :: params ++ inter ++ [final]) rest Hm)|].
  apply sub_from_ANSI_bos.
Qed.

(** X4.  A complete CSI sequence (ESC, an opening bracket, parameter
    characters, intermediate characters, a final character) is deleted
    without a trace when no ESC stands before it: the text cleans to what
    it cleans to without the sequence.  For rag_chat.py and ingest.py. *)
Theorem csi_sequence_is_removed :
  forall (pre params inter : text) (final : char) (post : text),
    Forall (fun c => c <> RagChat.ESC) pre ->
    Forall (fun c => RagChat.csi_param c = true) params ->
    Forall (fun c => RagChat.csi_inter c = true) inter ->
    RagChat.csi_final final = true ->
    RagChat.clean_text
      (pre ++ RagChat.ESC :: 0x5B :: params ++ inter ++ final :: post)
    = RagChat.clean_text (pre ++ post)
    /\ Ingest.clean_text
         (pre ++ RagChat.ESC :: 0x5B :: params ++ inter ++ final :: post)
       = Ingest.clean_text (pre ++ post).
Proof.
  intros pre params inter final post Hpre Hp Hi Hf. split.
  - rewrite !rag_clean_text_steps. rewrite sub_ANSI_csi by assumption. reflexivity.
  - rewrite !ingest_clean_text_steps. rewrite sub_ANSI_csi by assumption. reflexivity.
Qed.

(** ["one" ESC ["1;31 m" "two"], with a space as intermediate character. *)
Lemma csi_sequence_is_removed_witness :
  RagChat.clean_text
    (of_string "one" ++ RagChat.ESC :: 0x5B :: of_string "1;31" ++ of_string " "
       ++ 0x6D :: of_string "two")
  = RagChat.clean_text (of_string "one" ++ of_string "two")
  /\ Ingest.clean_text
       (of_string "one" ++ RagChat.ESC :: 0x5B :: of_string "1;31" ++ of_string " "
          ++ 0x6D :: of_string "two")
     = Ingest.clean_text (of_string "one" ++ of_string "two").
Proof.
  apply (csi_sequence_is_removed (of_string "one") (of_string "1;31")
           (of_string " ") 0x6D (of_string "two")).
  - repeat constructor; discriminate.
  - repeat constructor.
  - repeat constructor.
  - reflexivity.
Defined.

(** On ESC and a closing bracket, [ANSI_RE] matches these two characters
    and no more: the alternative for two-character sequences comes before
    the one for OSC sequences and takes the bracket. *)
Lemma match_at_OSC (bos : bool) (rest : text) :
  match_at RagChat.ANSI_RE bos (RagChat.ESC :: 0x5D :: rest) = Some rest.
Proof. reflexivity. Qed.

Lemma sub_ANSI_osc (rest : text) :
  Forall (fun c => c <> RagChat.ESC) rest ->
  sub RagChat.ANSI_RE (RagChat.ESC :: 0x5D :: rest) = rest.
Proof.
  intros H. unfold sub.
  change (RagChat.ESC :: 0x5D :: rest) with (RagChat.ESC :: [0x5D] ++ rest).
  rewrite sub_from_matched by apply match_at_OSC.
  apply (sub_from_fixed RagChat.ANSI_RE (fun c => c <> RagChat.ESC)); [|exact H].
  intros c Hc b r. apply match_at_ANSI_none, Hc.
Qed.

(** X3.  The OSC alternative of [ANSI_RE] never matches.  Of an OSC
    sequence (ESC, a closing bracket, a payload, BEL) only ESC and the
    bracket are deleted as an escape sequence, whatever follows; BEL goes as
    a control character, and the payload stays in the cleaned text. *)
Theorem osc_payload_survives :
  forall payload : text,
    Forall tidy payload ->
    strip payload = payload ->
    (forall bos rest,
        match_at RagChat.ANSI_RE bos (RagChat.ESC :: 0x5D :: rest) = Some rest)
    /\ RagChat.clean_text (RagChat.ESC :: 0x5D :: payload ++ [RagChat.BEL])
       = payload
    /\ (Forall (fun c => c <> RagChat.CR) payload ->
        Ingest.clean_text (RagChat.ESC :: 0x5D :: payload ++ [RagChat.BEL])
        = payload).
Proof.
  intros payload Ht Hs.
  assert (Hnul : Forall (fun c => c <> RagChat.NUL)
                        (RagChat.ESC :: 0x5D :: payload ++ [RagChat.BEL])).
  { constructor; [discriminate|]. constructor; [discriminate|].
    apply Forall_app. split.
    - eapply Forall_impl; [apply tidy_not_NUL | exact Ht].
    - constructor; [discriminate | constructor]. }
  assert (Hesc : Forall (fun c => c <> RagChat.ESC) (payload ++ [RagChat.BEL])).
  { apply Forall_app. split.
    - eapply Forall_impl; [apply tidy_not_ESC | exact Ht].
    - constructor; [discriminate | constructor]. }
  assert (Hsp : Forall (fun c => RagChat.spinner c = false) (payload ++ [RagChat.BEL])).
  { apply Forall_app. split.
    - eapply Forall_impl; [|exact Ht]. intros c Hc. apply Hc.
    - constructor; [reflexivity | constructor]. }
  assert (Hctl : sub RagChat.CONTROL_RE (payload ++ [RagChat.BEL]) = payload).
  { unfold sub, RagChat.CONTROL_RE.
    rewrite (sub_from_app_fixed _ (fun c => RagChat.control c = false)
               (fun c Hc bos rest => match_at_Cls_none _ bos c rest Hc)).
    - cbn [sub_from]. rewrite match_len_Cls by reflexivity.
      cbn [sub_from]. apply app_nil_r.
    - eapply Forall_impl; [|exact Ht]. intros c Hc. apply Hc. }
  split; [intros; apply match_at_OSC|]. split.
  - rewrite rag_clean_text_steps.
    rewrite (remove_char_fixed RagChat.NUL) by exact Hnul.
    rewrite sub_ANSI_osc by exact Hesc.
    rewrite sub_SPINNER_fixed by exact Hsp.
    rewrite Hctl. exact Hs.
  - intros Hcr. rewrite ingest_clean_text_steps.
    rewrite (remove_char_fixed RagChat.NUL) by exact Hnul.
    rewrite sub_ANSI_osc by exact Hesc.
    rewrite sub_SPINNER_fixed by exact Hsp.
    rewrite Hctl. rewrite (remove_char_fixed RagChat.CR) by exact Hcr.
    exact Hs.
Qed.

(** The title ["0;my title"] of a terminal-title sequence stays. *)
Lemma osc_payload_survives_witness :
  (forall bos rest,
      match_at RagChat.ANSI_RE bos (RagChat.ESC :: 0x5D :: rest) = Some rest)
  /\ RagChat.clean_text
       (RagChat.ESC :: 0x5D :: of_string "0;my title" ++ [RagChat.BEL])
     = of_string "0;my title"
  /\ (Forall (fun c => c <> RagChat.CR) (of_string "0;my title") ->
      Ingest.clean_text
        (RagChat.ESC :: 0x5D :: of_string "0;my title" ++ [RagChat.BEL])
      = of_string "0;my title").
Proof.
  apply (osc_payload_survives (of_string "0;my title")).
  - repeat constructor.
  - reflexivity.
Defined.

(** ** What remember turns away *)

Lemma rstrip_app_black (p y : text) :
  p <> [] -> isspace (last p 0) = false -> rstrip (p ++ y) = p ++ rstrip y.
Proof.
  induction p as [|c p IH]; intros Hne Hl; [contradiction|].
  destruct p as [|c' p'].
  - cbn [app last] in *. cbn [rstrip]. rewrite Hl.
    destruct (rstrip y); reflexivity.
  - change ((c :: c' :: p') ++ y) with (c :: (c' :: p') ++ y).
    cbn [rstrip]. rewrite IH; [reflexivity | discriminate | exact Hl].
Qed.

Lemma startswith_app (p s : text) : startswith p (p ++ s) = true.
Proof.
  induction p as [|c p IH]; [destruct s; reflexivity|].
  cbn [app startswith]. rewrite N.eqb_refl. exact IH.
Qed.

(** A prefix made of characters no step deletes, with no white space at
    its two ends, is still the prefix of the cleaned text. *)
Lemma clean_text_keeps_prefix (p s : text) :
  p <> [] -> Forall tidy p ->
  isspace (hd 0 p) = false -> isspace (last p 0) = false ->
  exists s', RagChat.clean_text (p ++ s) = p ++ s'.
Proof.
  intros Hne Ht Hh Hl. rewrite rag_clean_text_steps.
  rewrite remove_char_app.
  rewrite (remove_char_fixed RagChat.NUL p)
    by (eapply Forall_impl; [apply tidy_not_NUL | exact Ht]).
  unfold sub.
  rewrite (sub_from_app_fixed RagChat.ANSI_RE (fun c => c <> RagChat.ESC)
             (fun c Hc bos rest => match_at_ANSI_none bos c rest Hc))
    by (eapply Forall_impl; [apply tidy_not_ESC | exact Ht]).
  unfold RagChat.SPINNER_RE.
  rewrite (sub_from_app_fixed _ (fun c => RagChat.spinner c = false)
             (fun c Hc bos rest => match_at_Plus_Cls_none _ bos c rest Hc))
    by (eapply Forall_impl; [|exact Ht]; intros c Hc; apply Hc).
  unfold RagChat.CONTROL_RE.
  rewrite (sub_from_app_fixed _ (fun c => RagChat.control c = false)
             (fun c Hc bos rest => match_at_Cls_none _ bos c rest Hc))
    by (eapply Forall_impl; [|exact Ht]; intros c Hc; apply Hc).
  unfold strip.
  match goal with |- context [lstrip (p ++ ?y)] =>
    assert (E : lstrip (p ++ y) = p ++ y)
      by (destruct p as [|c p']; [contradiction|];
          cbn [app lstrip hd] in *; rewrite Hh; reflexivity);
    rewrite E; exists (rstrip y)
  end.
  apply rstrip_app_black; assumption.
Qed.

(** X5.  A reply that reports a failed model call, ["(model error) "]
    followed by anything, is never stored: [remember] returns [None] and
    leaves the table as it was. *)
Theorem remember_drops_model_errors :
  forall (encode : text -> vector) (stored_float : Q -> Q)
         (SESSION_ID role e : text) (conn : db),
    RagChat.remember encode stored_float SESSION_ID role
      (of_string "(model error) " ++ e) conn
    = (None, conn).
Proof.
  intros.
  change (of_string "(model error) " ++ e)
    with (of_string "(model error)" ++ (0x20 :: e)).
  destruct (clean_text_keeps_prefix (of_string "(model error)") (0x20 :: e))
    as [s' E].
  - discriminate.
  - repeat constructor.
  - reflexivity.
  - reflexivity.
  - unfold RagChat.remember. cbv zeta. rewrite E, startswith_app. reflexivity.
Qed.

Lemma noise_header_search (h rest : text) :
  In h noise_headers -> search RagChat.NOISE_RE (h ++ rest) = true.
Proof.
  unfold noise_headers. cbn [List.map In].
  intros H; repeat (destruct H as [<-|H]; [vm_compute; reflexivity|]);
    contradiction.
Qed.

Lemma noise_header_prefix (h : text) :
  In h noise_headers ->
  h <> [] /\ Forall tidy h /\ isspace (hd 0 h) = false
  /\ isspace (last h 0) = false.
Proof.
  unfold noise_headers. cbn [List.map In].
  intros H; repeat (destruct H as [<-|H];
                    [split; [discriminate|];
                     split; [repeat constructor|]; split; reflexivity|]);
    contradiction.
Qed.

(** X6.  A text that starts with one of the fixed words of [NOISE_RE]
    (["Topic:"], ["CREATOR:"], ["BEGIN"], ["END"], ...) is noise whatever
    follows, without a word boundary: ["Endless"] and ["Beginning"] are
    noise too.  [remember] stores no such text. *)
Theorem remember_drops_noise_headers :
  forall (h rest : text),
    In h noise_headers ->
    search RagChat.NOISE_RE (h ++ rest) = true
    /\ forall (encode : text -> vector) (stored_float : Q -> Q)
              (SESSION_ID role : text) (conn : db),
         RagChat.remember encode stored_float SESSION_ID role (h ++ rest) conn
         = (None, conn).
Proof.
  intros h rest Hh. split; [apply noise_header_search, Hh|].
  intros. destruct (noise_header_prefix h Hh) as [H1 [H2 [H3 H4]]].
  destruct (clean_text_keeps_prefix h rest H1 H2 H3 H4) as [s' E].
  unfold RagChat.remember. cbv zeta. rewrite E.
  destruct (startswith _ _); [reflexivity|].
  destruct (is_empty _); [reflexivity|].
  rewrite (noise_header_search h s' Hh). reflexivity.
Qed.

(** ["Endless summer"] *)
Lemma remember_drops_noise_headers_witness :
  search RagChat.NOISE_RE (of_string "END" ++ of_string "less summer") = true
  /\ forall (encode : text -> vector) (stored_float : Q -> Q)
            (SESSION_ID role : text) (conn : db),
       RagChat.remember encode stored_float SESSION_ID role
         (of_string "END" ++ of_string "less summer") conn
       = (None, conn).
Proof.
  apply (remember_drops_noise_headers (of_string "END") (of_string "less summer")).
  unfold noise_headers. cbn [List.map In]. do 7 right. left. reflexivity.
Defined.

(** ** What remember stores *)

Lemma remember_accepted
      (encode : text -> vector) (stored_float : Q -> Q)
      (SESSION_ID role text : text) (conn conn' : db) (rid : Z) :
  RagChat.remember encode stored_float SESSION_ID role text conn
  = (Some rid, conn') ->
  storable (RagChat.clean_text text)
  /\ rid = next_id conn
  /\ conn' = mk_db (contexts conn
                    ++ [mk_row (next_id conn) SESSION_ID role
                          (RagChat.clean_text text)
                          (List.map stored_float
                             (encode (RagChat.clean_text text)))])
                   (next_id conn + 1).
Proof.
  unfold RagChat.remember. cbv zeta.
  destruct (startswith (of_string "(model error)") (RagChat.clean_text text)) eqn:E1;
    [discriminate|].
  destruct (is_empty (RagChat.clean_text text)) eqn:E2; [discriminate|].
  destruct (search RagChat.NOISE_RE (RagChat.clean_text text)) eqn:E3;
    [discriminate|].
  cbn [insert_row]. intros E. inversion E; subst. split; [|split; reflexivity].
  unfold storable. split; [|split; [|split; assumption]].
  - destruct (rag_clean_text_tidy text) as [Ht Hs].
    apply rag_clean_text_fixed; assumption.
  - intros H. rewrite H in E2. discriminate E2.
Qed.

Lemma remember_rejected
      (encode : text -> vector) (stored_float : Q -> Q)
      (SESSION_ID role text : text) (conn conn' : db) :
  RagChat.remember encode stored_float SESSION_ID role text conn
  = (None, conn') -> conn' = conn.
Proof.
  unfold RagChat.remember. cbv zeta.
  destruct (startswith _ _); [congruence|].
  destruct (is_empty _); [congruence|].
  destruct (search _ _); [congruence|].
  cbn [insert_row]. discriminate.
Qed.

(** X7.  [remember] keeps the table clean: when every stored text is a
    fixed point of [clean_text], not empty, not a model error and not noise,
    the same holds after the call, and every row of [SESSION_ID] stays one;
    a stored text is never changed. *)
Theorem remember_keeps_texts_storable :
  forall (encode : text -> vector) (stored_float : Q -> Q)
         (SESSION_ID role text : text) (conn : db),
    Forall (fun r => storable (txt r)) (contexts conn) ->
    let conn' :=
      snd (RagChat.remember encode stored_float SESSION_ID role text conn) in
    Forall (fun r => storable (txt r)) (contexts conn')
    /\ (exists new, contexts conn' = contexts conn ++ new
                    /\ Forall (fun r => session_id r = SESSION_ID) new).
Proof.
  intros encode stored_float SESSION_ID role text conn H. cbv zeta.
  destruct (RagChat.remember encode stored_float SESSION_ID role text conn)
    as [[rid|] conn'] eqn:E; cbn [snd].
  - apply remember_accepted in E. destruct E as [Hs [_ ->]]. cbn [contexts].
    split.
    + apply Forall_app. split; [exact H|].
      constructor; [exact Hs | constructor].
    + eexists. split; [reflexivity|]. constructor; [reflexivity | constructor].
  - apply remember_rejected in E. subst conn'. split; [exact H|].
    exists []. split; [symmetry; apply app_nil_r | constructor].
Qed.

(** On a table with one stored text, a new message. *)
Lemma remember_keeps_texts_storable_witness :
  Forall (fun r => storable (txt r))
    (contexts (snd (Example.remember Example.user Example.q_tea
                      (mk_db [mk_row 1 Example.s1 Example.user Example.near [1%Q]] 2))))
  /\ (exists new,
         contexts (snd (Example.remember Example.user Example.q_tea
                          (mk_db [mk_row 1 Example.s1 Example.user Example.near [1%Q]] 2)))
         = [mk_row 1 Example.s1 Example.user Example.near [1%Q]] ++ new
         /\ Forall (fun r => session_id r = Example.s1) new).
Proof.
  apply (remember_keeps_texts_storable Example.encode Example.stored_float
           Example.s1 Example.user Example.q_tea
           (mk_db [mk_row 1 Example.s1 Example.user Example.near [1%Q]] 2)).
  constructor; [|constructor].
  repeat split; try reflexivity. discriminate.
Defined.

(** ** Ids *)







(** ** More on recall of rag_chat.py *)

(** X11.  The second sort of [recall] changes nothing: the rows come from
    the database in ascending distance (NaN after the numbers) and the
    filter keeps their order, so [recall] returns the first [k] rows the
    filter keeps, in the order the database gave them. *)
Theorem recall_second_sort_is_idle :
  forall (encode : text -> vector) (stored_float : Q -> Q)
         (distance : vector -> vector -> option float8) (heap : Z -> Z)
         (lower : text -> text)
         (SESSION_ID : text) (MIN_SIM : Q) (DEFAULT_BLOCK_TERMS : list text)
         (query : text) (conn : db) (k : Z) (block_terms : list text),
    RagChat.recall encode stored_float distance heap lower SESSION_ID MIN_SIM
      DEFAULT_BLOCK_TERMS query conn k block_terms
    = match RagChat.select_rows distance heap SESSION_ID
              (RagChat.to_vec_literal stored_float (encode query)) k conn with
      | Raised e => Raised e
      | Returned rows =>
          Returned
            (List.map fst
               (firstn (Z.to_nat k)
                  (RagChat.keep lower MIN_SIM
                     (RagChat.block_lc lower DEFAULT_BLOCK_TERMS block_terms)
                     rows)))
      end.
Proof. intros. apply recall_spec. Qed.

(** X10.  A list [recall] returns holds no empty text and no text that
    [NOISE_RE] matches, whoever stored the rows (ingest.py and
    memory_chat.py store texts that [remember] of rag_chat.py would turn
    away). *)
Theorem recall_never_returns_noise :
  forall (encode : text -> vector) (stored_float : Q -> Q)
         (distance : vector -> vector -> option float8) (heap : Z -> Z)
         (lower : text -> text)
         (SESSION_ID : text) (MIN_SIM : Q) (DEFAULT_BLOCK_TERMS : list text)
         (query : text) (conn : db) (k : Z) (block_terms : list text)
         (out : list (text * text)),
    RagChat.recall encode stored_float distance heap lower SESSION_ID MIN_SIM
      DEFAULT_BLOCK_TERMS query conn k block_terms = Returned out ->
    Forall (fun p => snd p <> [] /\ search RagChat.NOISE_RE (snd p) = false) out.
Proof.
  intros encode stored_float distance heap lower SESSION_ID MIN_SIM
         DEFAULT_BLOCK_TERMS query conn k block_terms out.
  rewrite recall_spec.
  destruct (RagChat.select_rows distance heap SESSION_ID
              (RagChat.to_vec_literal stored_float (encode query)) k conn)
    as [rows|e]; [|discriminate].
  intros E. inversion E; subst out. clear E.
  apply Forall_forall. intros p Hp.
  apply in_map_iff in Hp. destruct Hp as [[[r t] d] [<- Hin]].
  apply firstn_member in Hin. apply keep_In in Hin.
  destruct Hin as [_ [_ [He [Hn _]]]]. cbn [fst snd]. split; [|exact Hn].
  intros ->. discriminate He.
Qed.

(** The noise text ["END of coffee"], stored by memory_chat.py next to a
    message at the same distance from the query, is not recalled by
    rag_chat.py. *)
Lemma recall_never_returns_noise_witness :
  Example.recall Example.q_tea Example2.db_noise 5 []
  = Returned [Example.row_tea]
  /\ Forall (fun p => snd p <> [] /\ search RagChat.NOISE_RE (snd p) = false)
        [Example.row_tea].
Proof.
  split; [vm_compute; reflexivity|].
  apply (recall_never_returns_noise Example.encode Example.stored_float
           Example.distance Example.heap Example.lower Example.s1
           Example.MIN_SIM [] Example.q_tea Example2.db_noise 5 []).
  vm_compute. reflexivity.
Defined.

Lemma existsb_block_false (lower : text -> text) (D bt : list text) (low : text) :
  existsb (fun b => contains b low) (RagChat.block_lc lower D bt) = false <->
  forall t, In t (bt ++ D) -> lower t <> [] -> contains (lower t) low = false.
Proof.
  split.
  - intros H t Ht Hl.
    destruct (contains (lower t) low) eqn:E; [|reflexivity].
    rewrite <- H. symmetry. apply existsb_exists. exists (lower t).
    split; [|exact E]. apply block_lc_In. exists t. auto.
  - intros H. destruct (existsb _ _) eqn:E; [|reflexivity].
    apply existsb_exists in E. destruct E as [b [Hb Hc]].
    apply block_lc_In in Hb. destruct Hb as [t [Ht [<- Hne]]].
    rewrite (H t Ht Hne) in Hc. discriminate Hc.
Qed.

(** With [k] at least the number of rows of the session nothing is cut
    off, by the LIMIT or by the slice: a returned list holds the rows that
    pass the tests, all of them. *)
Lemma recall_untruncated_In
      (encode : text -> vector) (stored_float : Q -> Q)
      (distance : vector -> vector -> option float8) (heap : Z -> Z)
      (lower : text -> text)
      (SESSION_ID : text) (MIN_SIM : Q) (DEFAULT_BLOCK_TERMS : list text)
      (query : text) (conn : db) (k : Z) (block_terms : list text)
      (out : list (text * text)) :
  RagChat.recall encode stored_float distance heap lower SESSION_ID MIN_SIM
    DEFAULT_BLOCK_TERMS query conn k block_terms = Returned out ->
  (List.length (session_rows SESSION_ID conn) <= Z.to_nat k)%nat ->
  forall p,
    In p out <->
    exists r, In r (contexts conn) /\ session_id r = SESSION_ID
              /\ p = (role r, txt r)
              /\ passes distance lower MIN_SIM
                   (block_terms ++ DEFAULT_BLOCK_TERMS)
                   (RagChat.to_vec_literal stored_float (encode query)) r.
Proof.
  rewrite recall_spec. unfold RagChat.select_rows.
  set (qvec := RagChat.to_vec_literal stored_float (encode query)).
  set (block := RagChat.block_lc lower DEFAULT_BLOCK_TERMS block_terms).
  pose proof (nearest_spec distance heap SESSION_ID qvec (k * 6) conn) as S.
  destruct (nearest distance heap SESSION_ID qvec (k * 6) conn) as [found|e];
    [|discriminate].
  destruct S as [Hk ->]. intros E Hlen. inversion E; subst out. clear E.
  set (sorted := Sorting.sort
                   (fun a b : row * option float8 => dist_leb (snd a) (snd b))
                   (List.map (fun r => (r, distance (embedding r) qvec))
                      (scan heap SESSION_ID conn))).
  assert (Hsorted : List.length sorted
                    = List.length (session_rows SESSION_ID conn)).
  { unfold sorted. rewrite sort_length, length_map. apply scan_length. }
  rewrite (firstn_all2 (n := Z.to_nat (k * 6)) sorted) by lia.
  set (rows := List.map
                 (fun rd : row * option float8 =>
                    (role (fst rd), txt (fst rd), snd rd)) sorted).
  rewrite (firstn_all2 (n := Z.to_nat k) (RagChat.keep lower MIN_SIM block rows)).
  2:{ pose proof (keep_length lower MIN_SIM block rows) as L.
      unfold rows in L at 2. rewrite length_map in L. lia. }
  assert (Hrows : forall r t od,
             In (r, t, od) rows <->
             exists x, In x (contexts conn) /\ session_id x = SESSION_ID
                       /\ role x = r /\ txt x = t
                       /\ distance (embedding x) qvec = od).
  { intros r t od. unfold rows, sorted. rewrite in_map_iff. split.
    - intros [[x od'] [Ex Hx]]. cbn [fst snd] in Ex. apply sort_In in Hx.
      apply in_map_iff in Hx. destruct Hx as [x' [Ex' Hx']].
      apply scan_In in Hx'. inversion Ex; inversion Ex'; subst.
      exists x. tauto.
    - intros [x [Hx [Hs [Hr [Ht Hd]]]]].
      exists (x, distance (embedding x) qvec). cbn [fst snd].
      split; [congruence|]. apply sort_In. apply in_map_iff.
      exists x. split; [reflexivity|]. apply scan_In. tauto. }
  intros p. rewrite in_map_iff. split.
  - intros [[[r t] d] [<- Hin]]. apply keep_In in Hin.
    destruct Hin as [Hin [Hd [He [Hn Hb]]]]. apply Hrows in Hin.
    destruct Hin as [x [Hx [Hs [Hr [Ht Hdist]]]]]. subst r t.
    exists x. cbn [fst snd].
    split; [exact Hx|]. split; [exact Hs|]. split; [reflexivity|].
    exists d. split; [exact Hdist|]. split; [exact Hd|].
    split; [intros E; rewrite E in He; discriminate He|].
    split; [exact Hn|]. apply existsb_block_false, Hb.
  - intros [r [Hr [Hs [-> [d [Hd [Hle [Hne [Hn Hb]]]]]]]]].
    exists (role r, txt r, d). split; [reflexivity|].
    apply keep_In. split.
    + apply Hrows. exists r. tauto.
    + split; [exact Hle|].
      split; [destruct (txt r); [contradiction | reflexivity]|].
      split; [exact Hn|]. apply existsb_block_false, Hb.
Qed.

(** X9.  With [k] at least the number of rows of the session, a list
    [recall] returns holds exactly the rows of the session that pass its
    tests: a pair is in it if and only if it is the (role, text) of a row
    of the session whose distance is not NULL and not greater than
    [MIN_SIM] (a number within the gate, or NaN), whose text is neither
    empty nor noise and holds no non-empty block term. *)
Theorem recall_returns_all_that_pass :
  forall (encode : text -> vector) (stored_float : Q -> Q)
         (distance : vector -> vector -> option float8) (heap : Z -> Z)
         (lower : text -> text)
         (SESSION_ID : text) (MIN_SIM : Q) (DEFAULT_BLOCK_TERMS : list text)
         (query : text) (conn : db) (k : Z) (block_terms : list text)
         (out : list (text * text)),
    RagChat.recall encode stored_float distance heap lower SESSION_ID MIN_SIM
      DEFAULT_BLOCK_TERMS query conn k block_terms = Returned out ->
    (List.length (session_rows SESSION_ID conn) <= Z.to_nat k)%nat ->
    forall p,
      In p out <->
      exists r, In r (contexts conn) /\ session_id r = SESSION_ID
                /\ p = (role r, txt r)
                /\ passes distance lower MIN_SIM
                     (block_terms ++ DEFAULT_BLOCK_TERMS)
                     (RagChat.to_vec_literal stored_float (encode query)) r.
Proof. intros until out. apply recall_untruncated_In. Qed.

(** [db4] has three rows of session ["s1"]; two of them pass. *)
Lemma recall_returns_all_that_pass_witness :
  Example.recall Example.q_tea Example.db4 3 []
  = Returned [Example.row_tea; Example.row_politics]
  /\ forall p,
       In p [Example.row_tea; Example.row_politics] <->
       exists r, In r (contexts Example.db4) /\ session_id r = Example.s1
                 /\ p = (role r, txt r)
                 /\ passes Example.distance Example.lower Example.MIN_SIM
                      ([] ++ [])
                      (RagChat.to_vec_literal Example.stored_float
                         (Example.encode Example.q_tea)) r.
Proof.
  split; [vm_compute; reflexivity|].
  apply (recall_returns_all_that_pass Example.encode Example.stored_float
           Example.distance Example.heap Example.lower Example.s1
           Example.MIN_SIM [] Example.q_tea Example.db4 3 []).
  - vm_compute. reflexivity.
  - vm_compute. lia.
Defined.

(** A row at a distance that is NaN passes the gate: with a cosine that is
    NaN on a zero vector, the empty query, whose toy embedding is zero,
    recalls every row of [db3], in the order of the table. *)
Lemma recall_returns_nan_rows_example :
  RagChat.recall Example.encode Example.stored_float Example2.distance0
    Example.heap Example.lower Example.s1 Example.MIN_SIM [] [] Example.db3 3 []
  = Returned [ (Example.user, Example.far); (Example.user, Example.near);
               (Example.user, Example.middle) ].
Proof. vm_compute. reflexivity. Qed.

(** X12.  Read your writes: a text [remember] has stored is in the list a
    later [recall] returns, when its distance to the query is not greater
    than [MIN_SIM], it holds no block term of the call, and [k] is more than
    the number of rows the session had. *)
Theorem recall_after_remember :
  forall (encode : text -> vector) (stored_float : Q -> Q)
         (distance : vector -> vector -> option float8) (heap : Z -> Z)
         (lower : text -> text)
         (SESSION_ID : text) (MIN_SIM : Q) (DEFAULT_BLOCK_TERMS : list text)
         (role msg query : text) (conn conn' : db) (rid : Z) (k : Z)
         (block_terms : list text) (d : float8) (out : list (text * text)),
    RagChat.remember encode stored_float SESSION_ID role msg conn
    = (Some rid, conn') ->
    RagChat.recall encode stored_float distance heap lower SESSION_ID MIN_SIM
      DEFAULT_BLOCK_TERMS query conn' k block_terms = Returned out ->
    distance (List.map stored_float (encode (RagChat.clean_text msg)))
             (RagChat.to_vec_literal stored_float (encode query)) = Some d ->
    float_gt d MIN_SIM = false ->
    (forall t, In t (block_terms ++ DEFAULT_BLOCK_TERMS) -> lower t <> [] ->
               contains (lower t) (lower (RagChat.clean_text msg)) = false) ->
    (List.length (session_rows SESSION_ID conn) < Z.to_nat k)%nat ->
    In (role, RagChat.clean_text msg) out.
Proof.
  intros encode stored_float distance heap lower SESSION_ID MIN_SIM
         DEFAULT_BLOCK_TERMS role msg query conn conn' rid k block_terms d out
         E Eout Hd Hle Hb Hlen.
  apply remember_accepted in E. destruct E as [[_ [Hne [_ Hn]]] [_ ->]].
  set (r := mk_row (next_id conn) SESSION_ID role (RagChat.clean_text msg)
              (List.map stored_float (encode (RagChat.clean_text msg)))).
  fold r in Eout.
  set (c' := mk_db (contexts conn ++ [r]) (next_id conn + 1)) in *.
  assert (Hrows : session_rows SESSION_ID c'
                  = session_rows SESSION_ID conn ++ [r]).
  { unfold session_rows, c'. cbn [contexts]. rewrite filter_app.
    cbn [List.filter r session_id]. rewrite eqb_refl. reflexivity. }
  apply (recall_untruncated_In encode stored_float distance heap lower
           SESSION_ID MIN_SIM DEFAULT_BLOCK_TERMS query c' k block_terms out Eout).
  - rewrite Hrows, length_app. cbn [List.length]. lia.
  - exists r.
    split; [unfold c'; cbn [contexts]; apply in_or_app; right; left; reflexivity|].
    split; [reflexivity|]. split; [reflexivity|].
    exists d. cbn [r embedding txt]. auto.
Qed.

(** ["tea or coffee"], stored and asked for again. *)
Lemma recall_after_remember_witness :
  Example.recall Example.q_tea
    (snd (Example.remember Example.user Example.q_tea Example.empty_db)) 1 []
  = Returned [Example.row_tea]
  /\ In (Example.user, RagChat.clean_text Example.q_tea) [Example.row_tea].
Proof.
  split; [vm_compute; reflexivity|].
  apply (recall_after_remember Example.encode Example.stored_float
           Example.distance Example.heap Example.lower Example.s1
           Example.MIN_SIM [] Example.user Example.q_tea Example.q_tea
           Example.empty_db
           (snd (Example.remember Example.user Example.q_tea Example.empty_db))
           1 1 [] (Num (0 # 10)%Q)).
  - reflexivity.
  - vm_compute. reflexivity.
  - reflexivity.
  - reflexivity.
  - intros t [].
  - vm_compute. lia.
Defined.

(** ** format_context *)

Lemma is_empty_firstn (n : nat) (t : text) :
  is_empty (firstn (S n) t) = is_empty t.
Proof. destruct t; reflexivity. Qed.

(** What passes the three tests of the loop gives one block, unless its
    text cleans to nothing. *)
Lemma blocks_of_passing (lower upper : text -> text) (block : list text)
      (snips : list (text * text)) :
  Forall (fun p => is_empty (snd p) = false
                   /\ search RagChat.NOISE_RE (snd p) = false
                   /\ existsb (fun bt => contains bt (lower (snd p))) block = false)
         snips ->
  RagContext.blocks lower upper block snips
  = List.map (fun p => upper (fst p) ++ RagContext.colon
                       ++ firstn 1200 (RagChat.clean_text (snd p)))
      (List.filter (fun p => negb (is_empty (RagChat.clean_text (snd p)))) snips).
Proof.
  induction 1 as [|[r t] snips [H1 [H2 H3]] Hs IH]; [reflexivity|].
  cbn [snd fst] in *. cbn [RagContext.blocks List.filter snd].
  rewrite H1, H2. cbn [orb]. cbv zeta. rewrite H3.
  rewrite is_empty_firstn.
  destruct (is_empty (RagChat.clean_text t)); cbn [negb]; [exact IH|].
  cbn [List.map fst snd]. rewrite IH. reflexivity.
Qed.

Lemma recall_out_passing
      (encode : text -> vector) (stored_float : Q -> Q)
      (distance : vector -> vector -> option float8) (heap : Z -> Z)
      (lower : text -> text)
      (SESSION_ID : text) (MIN_SIM : Q) (DEFAULT_BLOCK_TERMS : list text)
      (query : text) (conn : db) (k : Z) (block_terms : list text)
      (out : list (text * text)) :
  RagChat.recall encode stored_float distance heap lower SESSION_ID MIN_SIM
    DEFAULT_BLOCK_TERMS query conn k block_terms = Returned out ->
  Forall (fun p => is_empty (snd p) = false
                   /\ search RagChat.NOISE_RE (snd p) = false
                   /\ existsb (fun bt => contains bt (lower (snd p)))
                        (RagChat.block_lc lower DEFAULT_BLOCK_TERMS block_terms)
                      = false) out.
Proof.
  unfold RagChat.recall. cbv zeta.
  destruct (RagChat.select_rows distance heap SESSION_ID
              (RagChat.to_vec_literal stored_float (encode query)) k conn)
    as [rows|e]; [|discriminate].
  intros E. inversion E; subst out. clear E.
  apply Forall_forall. intros p Hp.
  apply in_map_iff in Hp. destruct Hp as [[[r t] d] [<- Hin]].
  unfold RagChat.ranked in Hin. apply firstn_member in Hin.
  apply sort_In in Hin. apply keep_In in Hin.
  cbn [fst snd]. tauto.
Qed.

(** X13.  [format_context] after [recall], with the same block terms:
    every snippet [recall] returns gives one block, ["ROLE: "] and the
    first 1200 characters of the cleaned text, in the order of [recall];
    only a snippet whose text cleans to nothing is left out.  When the
    stored texts are as [remember] stores them, the text is already clean
    and no snippet is left out.  ([str.lower] maps no other string than the
    empty one to the empty string.) *)
Theorem format_context_of_recall :
  forall (encode : text -> vector) (stored_float : Q -> Q)
         (distance : vector -> vector -> option float8) (heap : Z -> Z)
         (lower upper : text -> text)
         (SESSION_ID : text) (MIN_SIM : Q) (DEFAULT_BLOCK_TERMS : list text)
         (query : text) (conn : db) (k : Z) (block_terms : list text)
         (out : list (text * text)),
    (forall t, t <> [] -> lower t <> []) ->
    RagChat.recall encode stored_float distance heap lower SESSION_ID MIN_SIM
      DEFAULT_BLOCK_TERMS query conn k block_terms = Returned out ->
    RagContext.blocks lower upper (RagContext.block_lc lower block_terms) out
    = List.map (fun p => upper (fst p) ++ RagContext.colon
                         ++ firstn 1200 (RagChat.clean_text (snd p)))
        (List.filter (fun p => negb (is_empty (RagChat.clean_text (snd p)))) out)
    /\ (Forall (fun r => storable (txt r)) (contexts conn) ->
        RagContext.blocks lower upper (RagContext.block_lc lower block_terms) out
        = List.map (fun p => upper (fst p) ++ RagContext.colon
                             ++ firstn 1200 (snd p)) out).
Proof.
  intros encode stored_float distance heap lower upper SESSION_ID MIN_SIM
         DEFAULT_BLOCK_TERMS query conn k block_terms out Hlow E.
  assert (Hpass : Forall (fun p => is_empty (snd p) = false
                   /\ search RagChat.NOISE_RE (snd p) = false
                   /\ existsb (fun bt => contains bt (lower (snd p)))
                        (RagContext.block_lc lower block_terms) = false) out).
  { pose proof (recall_out_passing _ _ _ _ _ _ _ _ _ _ _ _ _ E) as H.
    eapply Forall_impl; [|exact H]. cbn beta.
    intros p [H1 [H2 H3]]. split; [exact H1|]. split; [exact H2|].
    destruct (existsb _ (RagContext.block_lc lower block_terms)) eqn:Eb;
      [|reflexivity].
    apply existsb_exists in Eb. destruct Eb as [b [Hb Hc]].
    unfold RagContext.block_lc in Hb. apply in_map_iff in Hb.
    destruct Hb as [t [<- Ht]]. apply filter_In in Ht. destruct Ht as [Ht Hne].
    rewrite <- H3. symmetry. apply existsb_exists. exists (lower t).
    split; [|exact Hc]. apply block_lc_In. exists t.
    split; [apply in_or_app; left; exact Ht|]. split; [reflexivity|].
    apply Hlow. intros ->. discriminate Hne. }
  rewrite (blocks_of_passing lower upper _ out Hpass).
  split; [reflexivity|]. intros Hst.
  assert (Hclean : Forall (fun p => RagChat.clean_text (snd p) = snd p
                                    /\ snd p <> []) out).
  { apply Forall_forall. intros p Hp.
    destruct (rag_recall_from_session _ _ _ _ _ _ _ _ _ _ _ _ _ E p Hp)
      as [r [Hr [_ <-]]].
    rewrite Forall_forall in Hst. destruct (Hst r Hr) as [H1 [H2 _]].
    cbn [snd]. auto. }
  clear - Hclean. induction Hclean as [|p out [H1 H2] Hc IH]; [reflexivity|].
  cbn [List.filter]. rewrite H1.
  assert (He : is_empty (snd p) = false)
    by (destruct (snd p); [contradiction | reflexivity]).
  rewrite He. cbn [negb List.map]. rewrite IH, H1. reflexivity.
Qed.

Lemma example_lower_nonempty (t : text) : t <> [] -> Example.lower t <> [].
Proof. destruct t; [contradiction | discriminate]. Qed.

(** The two rows recalled for ["tea or coffee"] in [db4]. *)
Lemma format_context_of_recall_witness :
  RagContext.blocks Example.lower Example2.upper
    (RagContext.block_lc Example.lower [])
    [Example.row_tea; Example.row_politics]
  = [ of_string "USER: tea or coffee"; of_string "ASSISTANT: Politics today" ]
  /\ (RagContext.blocks Example.lower Example2.upper
        (RagContext.block_lc Example.lower [])
        [Example.row_tea; Example.row_politics]
      = List.map (fun p => Example2.upper (fst p) ++ RagContext.colon
                           ++ firstn 1200 (RagChat.clean_text (snd p)))
          (List.filter (fun p => negb (is_empty (RagChat.clean_text (snd p))))
             [Example.row_tea; Example.row_politics])
      /\ (Forall (fun r => storable (txt r)) (contexts Example.db4) ->
          RagContext.blocks Example.lower Example2.upper
            (RagContext.block_lc Example.lower [])
            [Example.row_tea; Example.row_politics]
          = List.map (fun p => Example2.upper (fst p) ++ RagContext.colon
                               ++ firstn 1200 (snd p))
              [Example.row_tea; Example.row_politics])).
Proof.
  split; [vm_compute; reflexivity|].
  apply (format_context_of_recall Example.encode Example.stored_float
           Example.distance Example.heap Example.lower Example2.upper Example.s1
           Example.MIN_SIM [] Example.q_tea Example.db4 3 []
           [Example.row_tea; Example.row_politics]).
  - exact example_lower_nonempty.
  - vm_compute. reflexivity.
Defined.

Lemma blocks_In (lower upper : text -> text) (block : list text)
      (snips : list (text * text)) (b : text) :
  In b (RagContext.blocks lower upper block snips) ->
  exists role txt,
    In (role, txt) snips
    /\ b = upper role ++ RagContext.colon ++ firstn 1200 (RagChat.clean_text txt)
    /\ txt <> []
    /\ search RagChat.NOISE_RE txt = false
    /\ existsb (fun bt => contains bt (lower txt)) block = false
    /\ firstn 1200 (RagChat.clean_text txt) <> [].
Proof.
  induction snips as [|[r t] snips IH]; cbn [RagContext.blocks]; [intros []|].
  destruct (is_empty t) eqn:E1; cbn [orb].
  { intros H. destruct (IH H) as [r' [t' [Hin R]]].
    exists r', t'. split; [right; exact Hin | exact R]. }
  destruct (search RagChat.NOISE_RE t) eqn:E2.
  { intros H. destruct (IH H) as [r' [t' [Hin R]]].
    exists r', t'. split; [right; exact Hin | exact R]. }
  cbv zeta.
  destruct (existsb _ block) eqn:E3.
  { intros H. destruct (IH H) as [r' [t' [Hin R]]].
    exists r', t'. split; [right; exact Hin | exact R]. }
  destruct (is_empty (firstn 1200 (RagChat.clean_text t))) eqn:E4.
  { intros H. destruct (IH H) as [r' [t' [Hin R]]].
    exists r', t'. split; [right; exact Hin | exact R]. }
  intros [<-|H].
  - exists r, t. split; [left; reflexivity|]. split; [reflexivity|].
    split; [intros ->; discriminate E1|]. split; [exact E2|].
    split; [exact E3|]. intros E. rewrite E in E4. discriminate E4.
  - destruct (IH H) as [r' [t' [Hin R]]].
    exists r', t'. split; [right; exact Hin | exact R].
Qed.

Lemma blocks_length (lower upper : text -> text) (block : list text)
      (snips : list (text * text)) :
  (List.length (RagContext.blocks lower upper block snips)
   <= List.length snips)%nat.
Proof.
  induction snips as [|[r t] snips IH]; cbn [RagContext.blocks List.length];
    [lia|].
  destruct (_ || _); [lia|]. cbv zeta. destruct (existsb _ _); [lia|].
  destruct (is_empty _); [lia|]. cbn [List.length]. lia.
Qed.

(** X14.  The blocks [format_context] joins: each one is the upper-cased
    role, a colon and a space, and a body of 1 to 1200 characters, the
    start of the cleaned text of a snippet that is neither empty nor noise
    and holds no block term of the call; there are no more blocks than
    snippets, and when every snippet fails a test the context is the empty
    string. *)
Theorem format_context_blocks :
  forall (lower upper : text -> text) (snips : list (text * text))
         (block_terms : list text),
    let bs := RagContext.blocks lower upper
                (RagContext.block_lc lower block_terms) snips in
    (forall b, In b bs ->
       exists role txt body,
         In (role, txt) snips
         /\ b = upper role ++ of_string ": " ++ body
         /\ body = firstn 1200 (RagChat.clean_text txt)
         /\ (1 <= List.length body <= 1200)%nat
         /\ txt <> []
         /\ search RagChat.NOISE_RE txt = false
         /\ forall t, In t block_terms -> t <> [] ->
                      contains (lower t) (lower txt) = false)
    /\ (List.length bs <= List.length snips)%nat
    /\ (bs = [] -> RagContext.format_context lower upper snips block_terms = []).
Proof.
  intros lower upper snips block_terms. cbv zeta. split; [|split].
  - intros b Hb. apply blocks_In in Hb.
    destruct Hb as [role [txt [Hin [Eb [Hne [Hn [Hx Hbody]]]]]]].
    exists role, txt, (firstn 1200 (RagChat.clean_text txt)).
    split; [exact Hin|]. split; [exact Eb|]. split; [reflexivity|].
    split.
    + pose proof (firstn_le_length 1200 (RagChat.clean_text txt)).
      destruct (firstn 1200 (RagChat.clean_text txt)); [contradiction|].
      cbn [List.length] in *. lia.
    + split; [exact Hne|]. split; [exact Hn|].
      intros t Ht Htne.
      destruct (contains (lower t) (lower txt)) eqn:E; [|reflexivity].
      rewrite <- Hx. symmetry. apply existsb_exists. exists (lower t).
      split; [|exact E]. unfold RagContext.block_lc. apply in_map.
      apply filter_In. split; [exact Ht|].
      destruct t; [contradiction | reflexivity].
  - apply blocks_length.
  - intros E. unfold RagContext.format_context.
    destruct snips; [reflexivity|]. rewrite E. reflexivity.
Qed.

(** ** chunk_text and the loop of ingest.py over one file *)

Lemma slices_from_spec {A : Type} (size : nat) :
  (1 <= size)%nat ->
  forall (fuel : nat) (l : list A),
    (List.length l <= fuel)%nat ->
    List.concat (slices_from fuel size l) = l
    /\ Forall (fun c => c <> [] /\ (List.length c <= size)%nat)
              (slices_from fuel size l)
    /\ (forall i, (S i < List.length (slices_from fuel size l))%nat ->
                  List.length (nth i (slices_from fuel size l) []) = size).
Proof.
  intros Hsize. induction fuel as [|fuel IH]; intros l Hl.
  - destruct l; [|simpl in Hl; lia]. cbn. repeat split; [constructor|].
    intros i Hi. lia.
  - destruct l as [|x l']; [cbn; repeat split; [constructor | intros i Hi; lia]|].
    cbn [slices_from].
    assert (Hsk : (List.length (skipn size (x :: l')) <= fuel)%nat).
    { rewrite length_skipn. cbn [List.length] in *. lia. }
    destruct (IH (skipn size (x :: l')) Hsk) as [H1 [H2 H3]].
    split; [|split].
    + cbn [List.concat]. rewrite H1. apply firstn_skipn.
    + constructor; [|exact H2]. split.
      * destruct size; [lia|]. discriminate.
      * apply firstn_le_length.
    + intros [|i] Hi; cbn [nth].
      * cbn [List.length] in Hi.
        destruct (skipn size (x :: l')) as [|y r] eqn:Es.
        { destruct fuel; cbn in Hi; lia. }
        rewrite length_firstn.
        assert (List.length (skipn size (x :: l')) = S (List.length r))
          by (rewrite Es; reflexivity).
        rewrite length_skipn in H. lia.
      * apply H3. cbn [List.length] in Hi. lia.
Qed.

Lemma slices_positive {A : Type} (step : Z) (l : list A) :
  (0 < step)%Z ->
  exists parts,
    slices step l = Returned parts
    /\ List.concat parts = l
    /\ Forall (fun c => c <> [] /\ (Z.of_nat (List.length c) <= step)%Z) parts
    /\ (forall i, (S i < List.length parts)%nat ->
                  Z.of_nat (List.length (nth i parts [])) = step).
Proof.
  intros Hs. unfold slices.
  destruct (Z.eqb_spec step 0) as [E|_]; [lia|].
  destruct (Z.ltb_spec step 0) as [E|_]; [lia|].
  destruct (slices_from_spec (A := A) (Z.to_nat step) ltac:(lia)
              (List.length l) l (Nat.le_refl _)) as [H1 [H2 H3]].
  eexists. split; [reflexivity|]. split; [exact H1|]. split.
  - eapply Forall_impl; [|exact H2]. cbn beta. intros c [Hc Hl].
    split; [exact Hc | lia].
  - intros i Hi. rewrite (H3 i Hi). lia.
Qed.

Lemma chunk_text_positive :
  forall (s : text) (size : Z),
    (0 < size)%Z ->
    exists chunks,
      IngestMain.chunk_text s size = Returned chunks
      /\ List.concat chunks = s
      /\ chunks <> []
      /\ Forall (fun c => (Z.of_nat (List.length c) <= size)%Z) chunks
      /\ (s <> [] -> Forall (fun c => c <> []) chunks)
      /\ (forall i, (S i < List.length chunks)%nat ->
                    Z.of_nat (List.length (nth i chunks [])) = size).
Proof.
  intros s size Hs. unfold IngestMain.chunk_text.
  destruct (Z.leb_spec (Z.of_nat (List.length s)) size) as [Hle|Hgt].
  - exists [s]. split; [reflexivity|]. split; [apply app_nil_r|].
    split; [discriminate|]. split; [constructor; [exact Hle | constructor]|].
    split; [intros Hne; constructor; [exact Hne | constructor]|].
    intros i Hi. cbn in Hi. lia.
  - destruct (slices_positive size s Hs) as [parts [E [H1 [H2 H3]]]].
    exists parts. split; [exact E|]. split; [exact H1|]. split.
    + intros ->. cbn in H1. subst s. cbn in Hgt. lia.
    + split; [eapply Forall_impl; [|exact H2]; cbn beta; tauto|].
      split; [intros _; eapply Forall_impl; [|exact H2]; cbn beta; tauto|].
      exact H3.
Qed.

(** X15.  For a positive size, [chunk_text] cuts the text into pieces
    that put together give the text again; every piece has at most [size]
    characters and every piece but the last exactly [size]; a text that is
    not empty gives no empty piece, and there is always at least one
    piece. *)
Theorem chunk_text_round_trip :
  forall (s : text) (size : Z),
    (0 < size)%Z ->
    exists chunks,
      IngestMain.chunk_text s size = Returned chunks
      /\ List.concat chunks = s
      /\ chunks <> []
      /\ Forall (fun c => (Z.of_nat (List.length c) <= size)%Z) chunks
      /\ (s <> [] -> Forall (fun c => c <> []) chunks)
      /\ (forall i, (S i < List.length chunks)%nat ->
                    Z.of_nat (List.length (nth i chunks [])) = size).
Proof. intros s size Hs. apply chunk_text_positive, Hs. Qed.

(** 25 characters in pieces of 10. *)
Lemma chunk_text_round_trip_witness :
  IngestMain.chunk_text Example2.raw25 10
  = Returned [ of_string "alpha beta"; of_string " gamma tog"; of_string "ether" ]
  /\ exists chunks,
      IngestMain.chunk_text Example2.raw25 10 = Returned chunks
      /\ List.concat chunks = Example2.raw25
      /\ chunks <> []
      /\ Forall (fun c => (Z.of_nat (List.length c) <= 10)%Z) chunks
      /\ (Example2.raw25 <> [] -> Forall (fun c => c <> []) chunks)
      /\ (forall i, (S i < List.length chunks)%nat ->
                    Z.of_nat (List.length (nth i chunks [])) = 10%Z).
Proof.
  split; [vm_compute; reflexivity|].
  apply (chunk_text_round_trip Example2.raw25 10). lia.
Defined.

(** X16.  The sizes [chunk_text] is not made for.  With size 0 a text that
    is not empty raises [ValueError] (the step of the range); with a
    negative size every text, the empty one too, gives no chunk at all, so
    the text is lost; and the empty text with a size of 0 or more gives one
    empty chunk. *)
Theorem chunk_text_odd_sizes :
  forall (s : text) (size : Z),
    (size = 0%Z -> s <> [] -> IngestMain.chunk_text s size = Raised ValueError)
    /\ ((size < 0)%Z -> IngestMain.chunk_text s size = Returned [])
    /\ ((0 <= size)%Z -> IngestMain.chunk_text [] size = Returned [ [] ]).
Proof.
  intros s size. unfold IngestMain.chunk_text, slices. split; [|split].
  - intros -> Hne.
    destruct (Z.leb_spec (Z.of_nat (List.length s)) 0) as [H|_]; [|reflexivity].
    destruct s; [contradiction | cbn in H; lia].
  - intros Hneg.
    destruct (Z.leb_spec (Z.of_nat (List.length s)) size) as [H|_]; [lia|].
    destruct (Z.eqb_spec size 0) as [E|_]; [lia|].
    destruct (Z.ltb_spec size 0) as [_|E]; [reflexivity | lia].
  - intros Hpos. cbn [List.length Z.of_nat].
    destruct (Z.leb_spec 0 size) as [_|H]; [reflexivity | lia].
Qed.

Lemma execute_values_rows (rows : list (text * text * text * vector)) :
  forall conn, exists new,
    contexts (Ingest.execute_values rows conn) = contexts conn ++ new
    /\ List.map (fun r => (session_id r, role r, txt r, embedding r)) new = rows.
Proof.
  induction rows as [|[[[s r] t] v] rows IH]; intros conn;
    cbn [Ingest.execute_values].
  - exists []. split; [symmetry; apply app_nil_r | reflexivity].
  - destruct (IH (snd (insert_row s r t v conn))) as [new [E1 E2]].
    exists (mk_row (next_id conn) s r t v :: new). split.
    + rewrite E1. cbn [insert_row snd contexts]. rewrite <- app_assoc. reflexivity.
    + cbn [List.map session_id role txt embedding]. rewrite E2. reflexivity.
Qed.

Lemma map_fst_combine_map {A B : Type} (f : A -> B) (l : list A) :
  List.map fst (combine l (List.map f l)) = l.
Proof. induction l as [|x l IH]; cbn; [reflexivity | rewrite IH; reflexivity]. Qed.

(** One batch: all its chunks are inserted, in order, under the session and
    the role ["user"], with embeddings of [EMB_DIM] components; or nothing
    is, and [ValueError] is raised. *)
Lemma main_batch_spec
      (encode : text -> vector) (stored_float : Q -> Q)
      (session : text) (batch_texts : list text) (conn : db) :
  match Ingest.main_batch encode stored_float session batch_texts conn with
  | Returned conn' =>
      exists new,
        contexts conn' = contexts conn ++ new
        /\ List.map txt new = batch_texts
        /\ Forall (fun r => session_id r = session
                            /\ role r = of_string "user"
                            /\ List.length (embedding r) = Ingest.EMB_DIM) new
  | Raised e => e = ValueError
  end.
Proof.
  unfold Ingest.main_batch. cbv zeta. unfold Ingest.embed_texts.
  destruct (forallb (fun e => Nat.eqb (List.length e) Ingest.EMB_DIM)
                    (List.map encode batch_texts)) eqn:E; [|reflexivity].
  match goal with |- context [Ingest.execute_values ?rows conn] =>
    destruct (execute_values_rows rows conn) as [new [E1 E2]] end.
  exists new. split; [exact E1|].
  assert (Hnew : forall r, In r new ->
            exists t, In t batch_texts
                      /\ session_id r = session /\ role r = of_string "user"
                      /\ embedding r
                         = Ingest.emb_to_vector_literal stored_float (encode t)).
  { intros r Hr.
    apply (in_map (fun r => (session_id r, role r, txt r, embedding r))) in Hr.
    rewrite E2 in Hr. apply in_map_iff in Hr. destruct Hr as [[t e] [Eq Hin]].
    cbn [fst snd] in Eq. inversion Eq. exists t.
    assert (He : e = encode t).
    { clear - Hin. induction batch_texts as [|x l IH]; cbn in Hin; [contradiction|].
      destruct Hin as [H|H]; [inversion H; reflexivity | apply IH, H]. }
    subst e. split; [apply in_combine_l in Hin; exact Hin|]. auto. }
  split.
  - assert (Et : List.map txt new
                 = List.map (fun x => snd (fst x))
                     (List.map (fun r => (session_id r, role r, txt r, embedding r)) new))
      by (rewrite map_map; reflexivity).
    rewrite Et, E2, map_map. cbn [fst snd].
    apply (map_fst_combine_map encode batch_texts).
  - apply Forall_forall. intros r Hr.
    destruct (Hnew r Hr) as [t [Ht [H1 [H2 H3]]]].
    split; [exact H1|]. split; [exact H2|]. rewrite H3.
    unfold Ingest.emb_to_vector_literal. rewrite length_map.
    rewrite forallb_forall in E. apply Nat.eqb_eq, E. apply in_map, Ht.
Qed.

(** The batch loop: whole batches are committed one after the other, until
    the end or until the first batch that fails the dimension check. *)
Lemma run_batches_spec
      (encode : text -> vector) (stored_float : Q -> Q) (session : text)
      (batches : list (list text)) :
  forall conn conn' oe,
    IngestMain.run_batches encode stored_float session batches conn = (conn', oe) ->
    exists new,
      contexts conn' = contexts conn ++ new
      /\ Forall (fun r => session_id r = session
                          /\ role r = of_string "user"
                          /\ List.length (embedding r) = Ingest.EMB_DIM) new
      /\ match oe with
         | None => List.map txt new = List.concat batches
         | Some e =>
             e = ValueError
             /\ exists done rest,
                  batches = done ++ rest /\ rest <> []
                  /\ List.map txt new = List.concat done
         end.
Proof.
  induction batches as [|b batches IH]; intros conn conn' oe;
    cbn [IngestMain.run_batches].
  - intros E. inversion E; subst. exists [].
    split; [symmetry; apply app_nil_r|]. split; [constructor | reflexivity].
  - pose proof (main_batch_spec encode stored_float session b conn) as S.
    destruct (Ingest.main_batch encode stored_float session b conn) as [c1|e].
    + destruct S as [new1 [E1 [T1 F1]]]. intros E.
      destruct (IH c1 conn' oe E) as [new2 [E2 [F2 R]]].
      exists (new1 ++ new2). split; [rewrite E2, E1, app_assoc; reflexivity|].
      split; [apply Forall_app; split; assumption|].
      destruct oe as [e|].
      * destruct R as [He [done [rest [Hb [Hr Hm]]]]]. split; [exact He|].
        exists (b :: done), rest. split; [rewrite Hb; reflexivity|].
        split; [exact Hr|]. rewrite map_app, T1, Hm. reflexivity.
      * rewrite map_app, T1, R. reflexivity.
    + intros E. inversion E; subst. exists [].
      split; [symmetry; apply app_nil_r|]. split; [constructor|].
      split; [reflexivity|]. exists [], (b :: batches).
      split; [reflexivity|]. split; [discriminate | reflexivity].
Qed.

Lemma Forall_map_txt (P : text -> Prop) (new : list row) :
  Forall P (List.map txt new) -> Forall (fun r => P (txt r)) new.
Proof.
  induction new as [|r new IH]; cbn [List.map]; intros H; [constructor|].
  inversion H; subst. constructor; auto.
Qed.

Lemma Forall_both {A : Type} (P R : A -> Prop) (l : list A) :
  Forall P l -> Forall R l -> Forall (fun x => P x /\ R x) l.
Proof. intros HP HR. apply Forall_and; assumption. Qed.

(** With a chunk size or a batch size that is not positive, no row is
    inserted. *)
Lemma main_file_nonpositive
      (encode : text -> vector) (stored_float : Q -> Q) (CHUNK_CHARS BATCH : Z)
      (session raw : text) (conn : db) :
  (CHUNK_CHARS <= 0)%Z \/ (BATCH <= 0)%Z ->
  fst (IngestMain.main_file encode stored_float CHUNK_CHARS BATCH session raw conn)
  = conn.
Proof.
  intros Hnp. unfold IngestMain.main_file. cbv zeta.
  destruct (Ingest.clean_text raw) as [|c t] eqn:Ec; [reflexivity|].
  cbn [is_empty].
  assert (Hb : forall chunks : list text,
             chunks = [] \/ (BATCH <= 0)%Z ->
             fst match slices BATCH chunks with
                 | Raised e => (conn, Some e)
                 | Returned batches =>
                     IngestMain.run_batches encode stored_float session batches conn
                 end = conn).
  { intros chunks Hc. unfold slices.
    destruct (Z.eqb_spec BATCH 0); [reflexivity|].
    destruct (Z.ltb_spec BATCH 0); [reflexivity|].
    destruct Hc as [->|Hc]; [reflexivity | lia]. }
  unfold IngestMain.chunk_text.
  destruct (Z.leb_spec (Z.of_nat (List.length (c :: t))) CHUNK_CHARS) as [Hle|Hgt].
  - apply Hb. right.
    destruct Hnp as [Hn|Hn]; [cbn [List.length] in Hle; lia | exact Hn].
  - unfold slices at 1.
    destruct (Z.eqb_spec CHUNK_CHARS 0) as [E0|N0]; [reflexivity|].
    destruct (Z.ltb_spec CHUNK_CHARS 0) as [L0|G0];
      [apply Hb; left; reflexivity|].
    apply Hb. right. destruct Hnp as [Hn|Hn]; [lia | exact Hn].
Qed.

(** What the loop over one file does, for positive sizes. *)
Lemma main_file_spec
      (encode : text -> vector) (stored_float : Q -> Q) (CHUNK_CHARS BATCH : Z)
      (session raw : text) (conn conn' : db) (oe : option exn) :
  (0 < CHUNK_CHARS)%Z -> (0 < BATCH)%Z ->
  IngestMain.main_file encode stored_float CHUNK_CHARS BATCH session raw conn
  = (conn', oe) ->
  exists new rest,
    contexts conn' = contexts conn ++ new
    /\ List.concat (List.map txt new ++ rest) = Ingest.clean_text raw
    /\ Forall (fun r => session_id r = session
                        /\ role r = of_string "user"
                        /\ List.length (embedding r) = Ingest.EMB_DIM) new
    /\ Forall (fun r => txt r <> []
                        /\ (Z.of_nat (List.length (txt r)) <= CHUNK_CHARS)%Z) new
    /\ match oe with
       | None => rest = []
       | Some e => e = ValueError /\ rest <> []
       end.
Proof.
  intros Hc Hb. unfold IngestMain.main_file. cbv zeta.
  destruct (Ingest.clean_text raw) as [|c t] eqn:Ec.
  - cbn [is_empty]. intros E. inversion E; subst. exists [], [].
    split; [symmetry; apply app_nil_r|]. split; [reflexivity|].
    split; [constructor|]. split; [constructor | reflexivity].
  - cbn [is_empty].
    destruct (chunk_text_positive (c :: t) CHUNK_CHARS Hc)
      as [chunks [E1 [C1 [C2 [C3 [C4 _]]]]]].
    rewrite E1.
    destruct (slices_positive BATCH chunks Hb) as [batches [E2 [B1 _]]].
    rewrite E2. intros E.
    destruct (run_batches_spec encode stored_float session batches conn conn' oe E)
      as [new [N1 [N2 N3]]].
    assert (Hchunks : (exists more, List.map txt new ++ more = chunks) ->
              Forall (fun r => txt r <> []
                               /\ (Z.of_nat (List.length (txt r)) <= CHUNK_CHARS)%Z) new).
    { intros [more Hm]. apply Forall_map_txt with
        (P := fun x => x <> [] /\ (Z.of_nat (List.length x) <= CHUNK_CHARS)%Z).
      assert (Hall : Forall (fun x => x <> []
                        /\ (Z.of_nat (List.length x) <= CHUNK_CHARS)%Z) chunks).
      { apply Forall_both; [apply C4; discriminate | exact C3]. }
      rewrite <- Hm in Hall. apply Forall_app in Hall. apply Hall. }
    destruct oe as [e|].
    + destruct N3 as [He [done [rest [Hd [Hr Hm]]]]].
      exists new, (List.concat rest).
      assert (Hsplit : List.map txt new ++ List.concat rest = chunks).
      { rewrite Hm, <- concat_app, <- Hd. exact B1. }
      split; [exact N1|]. split; [rewrite Hsplit; exact C1|].
      split; [exact N2|]. split; [apply Hchunks; eauto|].
      split; [exact He|].
      intros Hnil.
      assert (Hne : Forall (fun b : list text => b <> []) batches).
      { destruct (slices_positive BATCH chunks Hb) as [bs [E2' [_ [F _]]]].
        rewrite E2 in E2'. inversion E2'; subst bs.
        eapply Forall_impl; [|exact F]. cbn beta. tauto. }
      rewrite Hd in Hne. apply Forall_app in Hne. destruct Hne as [_ Hne].
      destruct rest as [|b rest']; [contradiction|].
      inversion Hne; subst. cbn [List.concat] in Hnil.
      destruct b; [contradiction | discriminate].
    + exists new, [].
      assert (Hsplit : List.map txt new ++ [] = chunks)
        by (rewrite app_nil_r, N3; exact B1).
      split; [exact N1|]. split; [rewrite Hsplit; exact C1|].
      split; [exact N2|]. split; [apply Hchunks; eauto | reflexivity].
Qed.

(** X17.  A file that [main] of ingest.py processes to the end (positive
    chunk and batch sizes): the rows appended are its chunks, in order; put
    together, their texts are the cleaned content of the file; each text
    is not empty and at most [CHUNK_CHARS] long, and each row is stored
    under the session with the role ["user"] and an embedding of [EMB_DIM]
    components. *)
Theorem main_file_stores_the_cleaned_text :
  forall (encode : text -> vector) (stored_float : Q -> Q)
         (CHUNK_CHARS BATCH : Z) (session raw : text) (conn conn' : db),
    (0 < CHUNK_CHARS)%Z -> (0 < BATCH)%Z ->
    IngestMain.main_file encode stored_float CHUNK_CHARS BATCH session raw conn
    = (conn', None) ->
    exists new,
      contexts conn' = contexts conn ++ new
      /\ List.concat (List.map txt new) = Ingest.clean_text raw
      /\ Forall (fun r => session_id r = session
                          /\ role r = of_string "user"
                          /\ List.length (embedding r) = Ingest.EMB_DIM) new
      /\ Forall (fun r => txt r <> []
                          /\ (Z.of_nat (List.length (txt r)) <= CHUNK_CHARS)%Z) new.
Proof.
  intros encode stored_float CHUNK_CHARS BATCH session raw conn conn' Hc Hb E.
  destruct (main_file_spec encode stored_float CHUNK_CHARS BATCH session raw
              conn conn' None Hc Hb E) as [new [rest [H1 [H2 [H3 [H4 H5]]]]]].
  subst rest. rewrite app_nil_r in H2. exists new. auto.
Qed.

(** 25 characters in chunks of 10, two chunks to a batch. *)
Lemma main_file_stores_the_cleaned_text_witness :
  exists new,
    contexts (fst (IngestMain.main_file Example2.encode384 Example.stored_float
                     10 2 Example.s1 Example2.raw25 Example.empty_db))
    = contexts Example.empty_db ++ new
    /\ List.concat (List.map txt new) = Ingest.clean_text Example2.raw25
    /\ Forall (fun r => session_id r = Example.s1
                        /\ role r = of_string "user"
                        /\ List.length (embedding r) = Ingest.EMB_DIM) new
    /\ Forall (fun r => txt r <> []
                        /\ (Z.of_nat (List.length (txt r)) <= 10)%Z) new.
Proof.
  apply (main_file_stores_the_cleaned_text Example2.encode384 Example.stored_float
           10 2 Example.s1 Example2.raw25 Example.empty_db).
  - lia.
  - lia.
  - vm_compute. reflexivity.
Defined.




(** X19.  With a chunk size or a batch size that is not positive, [main]
    of ingest.py inserts nothing of the file; with a negative one it does
    so without an error (a negative chunk size with a batch size other than
    0, or a negative batch size with a chunk size other than 0), so the
    file is passed over as if it had been stored. *)
Theorem main_file_nonpositive_sizes :
  forall (encode : text -> vector) (stored_float : Q -> Q)
         (CHUNK_CHARS BATCH : Z) (session raw : text) (conn : db),
    ((CHUNK_CHARS <= 0)%Z \/ (BATCH <= 0)%Z ->
     fst (IngestMain.main_file encode stored_float CHUNK_CHARS BATCH
            session raw conn) = conn)
    /\ ((CHUNK_CHARS < 0)%Z /\ BATCH <> 0%Z
        \/ (BATCH < 0)%Z /\ CHUNK_CHARS <> 0%Z ->
        IngestMain.main_file encode stored_float CHUNK_CHARS BATCH
          session raw conn = (conn, None)).
Proof.
  intros encode stored_float CHUNK_CHARS BATCH session raw conn.
  split; [apply main_file_nonpositive|].
  intros Hneg.
  destruct (IngestMain.main_file encode stored_float CHUNK_CHARS BATCH
              session raw conn) as [c' oe] eqn:E.
  assert (Hc : c' = conn).
  { pose proof (main_file_nonpositive encode stored_float CHUNK_CHARS BATCH
                  session raw conn ltac:(lia)) as H.
    rewrite E in H. exact H. }
  subst c'. f_equal. destruct oe as [e|]; [exfalso|reflexivity].
  unfold IngestMain.main_file in E. cbv zeta in E.
  destruct (is_empty _); [discriminate E|].
  unfold IngestMain.chunk_text, slices in E.
  destruct (Z.leb_spec (Z.of_nat (List.length (Ingest.clean_text raw)))
                       CHUNK_CHARS) as [Hle|Hgt].
  - destruct (Z.eqb_spec BATCH 0) as [E0|N0]; [lia|].
    destruct (Z.ltb_spec BATCH 0) as [L0|G0]; [discriminate E|].
    lia.
  - destruct (Z.eqb_spec CHUNK_CHARS 0) as [E0|N0]; [lia|].
    destruct (Z.ltb_spec CHUNK_CHARS 0) as [L0|G0].
    + destruct (Z.eqb_spec BATCH 0) as [E1|N1]; [lia|].
      destruct (Z.ltb_spec BATCH 0); discriminate E.
    + destruct (Z.eqb_spec BATCH 0) as [E1|N1]; [lia|].
      destruct (Z.ltb_spec BATCH 0) as [L1|G1]; [discriminate E | lia].
Qed.

(** ** recall and remember of memory_chat.py *)

Lemma StronglySorted_app_le {A : Type} (R : A -> A -> Prop) (l1 l2 : list A) :
  StronglySorted R (l1 ++ l2) ->
  forall a b, In a l1 -> In b l2 -> R a b.
Proof.
  induction l1 as [|x l1 IH]; cbn [app]; intros H a b Ha Hb; [destruct Ha|].
  inversion H as [|y l Hs Hx]; subst.
  destruct Ha as [->|Ha].
  - rewrite Forall_forall in Hx. apply Hx. apply in_or_app. right. exact Hb.
  - apply (IH Hs a b Ha Hb).
Qed.

(** X20.  What [recall] of memory_chat.py returns are the [k] nearest rows
    of the session and nothing else: [min(k, n)] rows of the [n] the session
    has, in the order of the query (ascending distance, NaN after the
    numbers, NULL last), each at most as far from the query as any row of
    the session that is left out.  No row is left out for its distance or
    its text, and only a [k] that is not negative is answered. *)
Theorem memory_recall_k_nearest :
  forall (encode : text -> vector) (stored_float : Q -> Q)
         (distance : vector -> vector -> option float8) (heap : Z -> Z)
         (conn : db) (session query : text) (k : Z)
         (out : list (Z * text * text)),
    MemoryChat.recall encode stored_float distance heap conn session query k
    = Returned out ->
    let q := MemoryChat.embed encode stored_float query in
    let far a b :=
      dist_leb (distance (embedding a) q) (distance (embedding b) q) = true in
    (0 <= k)%Z
    /\ List.length out
       = Nat.min (Z.to_nat k) (List.length (session_rows session conn))
    /\ exists rows,
         out = List.map (fun r => (id r, role r, txt r)) rows
         /\ StronglySorted far rows
         /\ (forall r, In r rows -> In r (session_rows session conn))
         /\ (forall r r', In r rows -> In r' (session_rows session conn) ->
                          ~ In r' rows -> far r r')
         /\ ((List.length (session_rows session conn) <= Z.to_nat k)%nat ->
             forall r, In r (session_rows session conn) -> In r rows).
Proof.
  intros encode stored_float distance heap conn session query k out E.
  cbv zeta. apply memory_recall_spec in E. destruct E as [_ [Hk ->]].
  set (q := MemoryChat.embed encode stored_float query).
  set (leb := fun a b : row =>
                dist_leb (distance (embedding a) q) (distance (embedding b) q)).
  set (sorted := Sorting.sort leb (scan heap session conn)).
  assert (Hsorted : StronglySorted (fun a b => leb a b = true) sorted).
  { apply sort_sorted.
    - intros a b. apply dist_leb_total.
    - intros a b c. apply dist_leb_trans. }
  assert (Hin : forall r, In r sorted <-> In r (session_rows session conn)).
  { intros r. unfold sorted. rewrite sort_In, scan_In.
    unfold session_rows. rewrite filter_In, eqb_eq. tauto. }
  split; [lia|]. split.
  - rewrite length_map, length_firstn. unfold sorted.
    rewrite sort_length, scan_length. reflexivity.
  - exists (firstn (Z.to_nat k) sorted). split; [reflexivity|].
    split; [apply firstn_sorted, Hsorted|]. split; [|split].
    + intros r Hr. apply firstn_member in Hr. apply Hin, Hr.
    + intros r r' Hr Hr' Hnot. apply Hin in Hr'.
      rewrite <- (firstn_skipn (Z.to_nat k) sorted) in Hr', Hsorted.
      apply in_app_or in Hr'. destruct Hr' as [Hr'|Hr']; [contradiction|].
      apply (StronglySorted_app_le _ _ _ Hsorted r r' Hr Hr').
    + intros Hlen r Hr. rewrite firstn_all2.
      * apply Hin, Hr.
      * unfold sorted. rewrite sort_length, scan_length. exact Hlen.
Qed.

(** The two nearest of the three rows of [db3], from the empty query. *)
Lemma memory_recall_k_nearest_witness :
  MemoryChat.recall Example.encode Example.stored_float Example.distance
    Example.heap Example.db3 Example.s1 [] 2
  = Returned [ (2%Z, Example.user, Example.near);
               (3%Z, Example.user, Example.middle) ]
  /\ List.length [ (2%Z, Example.user, Example.near);
                   (3%Z, Example.user, Example.middle) ]
     = Nat.min (Z.to_nat 2) (List.length (session_rows Example.s1 Example.db3)).
Proof.
  split; [vm_compute; reflexivity|].
  apply (memory_recall_k_nearest Example.encode Example.stored_float
           Example.distance Example.heap Example.db3 Example.s1 [] 2).
  vm_compute. reflexivity.
Defined.

(** X21.  Read your writes in memory_chat.py: when [remember] has returned
    an id, the list a later [recall] for the session returns holds the row
    with that id, the role and the text as it was given (nothing is cleaned
    or turned away there), when [k] is more than the number of rows the
    session had. *)
Theorem memory_recall_after_remember :
  forall (encode : text -> vector) (stored_float : Q -> Q)
         (distance : vector -> vector -> option float8) (heap : Z -> Z)
         (conn conn' : db) (session role msg query : text) (k rid : Z)
         (rows : list (Z * text * text)),
    MemoryChat.remember encode stored_float conn session role msg
    = (Returned rid, conn') ->
    MemoryChat.recall encode stored_float distance heap conn' session query k
    = Returned rows ->
    (List.length (session_rows session conn) < Z.to_nat k)%nat ->
    In (rid, role, msg) rows.
Proof.
  intros encode stored_float distance heap conn conn' session role msg query
         k rid rows Erem Erec Hlen.
  unfold MemoryChat.remember in Erem. cbv zeta in Erem.
  destruct (has_nul session || has_nul role || has_nul msg); [discriminate|].
  cbn [insert_row] in Erem. inversion Erem; subst rid conn'. clear Erem.
  set (r := mk_row (next_id conn) session role msg
              (MemoryChat.embed encode stored_float msg)) in *.
  set (c' := mk_db (contexts conn ++ [r]) (next_id conn + 1)) in *.
  assert (Hrows : session_rows session c' = session_rows session conn ++ [r]).
  { unfold session_rows, c'. cbn [contexts]. rewrite filter_app.
    cbn [List.filter r session_id]. rewrite eqb_refl. reflexivity. }
  apply memory_recall_spec in Erec. destruct Erec as [_ [_ ->]].
  apply (in_map (fun x => (id x, Store.role x, txt x)) _ r).
  rewrite firstn_all2.
  - apply sort_In, scan_In. split; [|reflexivity].
    unfold c'. cbn [contexts]. apply in_or_app. right. left. reflexivity.
  - rewrite sort_length, scan_length, Hrows, length_app. cbn [List.length]. lia.
Qed.

(** The scaffolding text of turn 3, which rag_chat.py turns away, stored
    and recalled by memory_chat.py. *)
Lemma memory_recall_after_remember_witness :
  fst (MemoryChat.remember Example.encode Example.stored_float
         Example.db4 Example.s1 Example.user Example.turn3) = Returned 5%Z
  /\ MemoryChat.recall Example.encode Example.stored_float Example.distance
       Example.heap
       (snd (MemoryChat.remember Example.encode Example.stored_float
               Example.db4 Example.s1 Example.user Example.turn3))
       Example.s1 Example.q_tea 4
     = Returned [ (1%Z, Example.user, Example.q_tea);
                  (3%Z, Example.assistant, of_string "Politics today");
                  (4%Z, Example.user, of_string "something much longer");
                  (5%Z, Example.user, Example.turn3) ]
  /\ In (5%Z, Example.user, Example.turn3)
        [ (1%Z, Example.user, Example.q_tea);
          (3%Z, Example.assistant, of_string "Politics today");
          (4%Z, Example.user, of_string "something much longer");
          (5%Z, Example.user, Example.turn3) ].
Proof.
  split; [reflexivity|]. split; [vm_compute; reflexivity|].
  apply (memory_recall_after_remember Example.encode Example.stored_float
           Example.distance Example.heap Example.db4
           (snd (MemoryChat.remember Example.encode Example.stored_float
                   Example.db4 Example.s1 Example.user Example.turn3))
           Example.s1 Example.user Example.turn3 Example.q_tea 4 5).
  - reflexivity.
  - vm_compute. reflexivity.
  - vm_compute. lia.
Defined.

(** ** The default block terms *)

Lemma split_Forall (P : char -> Prop) (c : char) (s : text) :
  Forall P s -> Forall (Forall P) (split c s).
Proof.
  induction 1 as [|x s Hx Hs IH]; cbn [split]; [repeat constructor|].
  destruct (x =? c); [constructor; [constructor | exact IH]|].
  destruct (split c s) as [|piece pieces]; [repeat constructor; exact Hx|].
  inversion IH; subst. constructor; [constructor; assumption | assumption].
Qed.

Lemma split_no_separator (c : char) (s : text) :
  Forall (Forall (fun x => x <> c)) (split c s).
Proof.
  induction s as [|x s IH]; cbn [split]; [repeat constructor|].
  destruct (N.eqb_spec x c) as [E|N]; [constructor; [constructor | exact IH]|].
  destruct (split c s) as [|piece pieces]; [repeat constructor; exact N|].
  inversion IH; subst. constructor; [constructor; assumption | assumption].
Qed.

Lemma lstrip_blank (s : text) :
  Forall (fun c => isspace c = true) s -> lstrip s = [].
Proof.
  induction 1 as [|c s Hc Hs IH]; cbn [lstrip]; [reflexivity|].
  rewrite Hc. exact IH.
Qed.

(** X22.  The default block terms read from [BLOCK_TERMS]: each one is the
    lower-cased form of a piece between two commas, stripped, not empty and
    without a comma; so none is empty, and a value made of commas and white
    space only gives no term. *)
Theorem default_block_terms_are_terms :
  forall (lower : text -> text) (BLOCK_TERMS_ENV : text),
    Forall (fun t => exists p, t = lower p /\ p <> [] /\ strip p = p
                               /\ Forall (fun c => c <> 0x2C) p)
           (RagChat.default_block_terms lower BLOCK_TERMS_ENV)
    /\ ((forall p, p <> [] -> lower p <> []) ->
        Forall (fun t => t <> [])
               (RagChat.default_block_terms lower BLOCK_TERMS_ENV))
    /\ (Forall (fun c => isspace c = true \/ c = 0x2C) BLOCK_TERMS_ENV ->
        RagChat.default_block_terms lower BLOCK_TERMS_ENV = []).
Proof.
  intros lower env.
  assert (H : Forall (fun t => exists p, t = lower p /\ p <> [] /\ strip p = p
                               /\ Forall (fun c => c <> 0x2C) p)
           (RagChat.default_block_terms lower env)).
  { unfold RagChat.default_block_terms. apply Forall_forall. intros t Ht.
    apply in_map_iff in Ht. destruct Ht as [p [<- Hp]].
    apply filter_In in Hp. destruct Hp as [Hp Hne].
    exists (strip p). split; [reflexivity|].
    split; [intros E; rewrite E in Hne; discriminate Hne|].
    split; [apply strip_idem|].
    apply strip_Forall.
    pose proof (split_no_separator 0x2C env) as Hs.
    rewrite Forall_forall in Hs. apply Hs, Hp. }
  split; [exact H|]. split.
  - intros Hlow. eapply Forall_impl; [|exact H]. cbn beta.
    intros t [p [-> [Hp _]]]. apply Hlow, Hp.
  - intros Hblank. unfold RagChat.default_block_terms.
    assert (Hnone : forall l : list text,
               Forall (fun p => strip p = []) l ->
               List.filter (fun t => negb (is_empty (strip t))) l = []).
    { induction 1 as [|p l Hp Hl IH]; cbn [List.filter]; [reflexivity|].
      rewrite Hp. cbn [is_empty negb]. exact IH. }
    rewrite Hnone; [reflexivity|].
    pose proof (split_Forall _ 0x2C env Hblank) as H1.
    pose proof (split_no_separator 0x2C env) as H2.
    rewrite Forall_forall in H1, H2. apply Forall_forall. intros p Hp.
    unfold strip. rewrite lstrip_blank; [reflexivity|].
    specialize (H1 p Hp). specialize (H2 p Hp).
    rewrite Forall_forall in H1, H2. apply Forall_forall. intros c Hc.
    destruct (H1 c Hc) as [Hs|Hcomma]; [exact Hs|].
    exfalso. exact (H2 c Hc Hcomma).
Qed.

(** ** extract_block_terms *)

Lemma subseq_Forall {A : Type} (P : A -> Prop) (a b : list A) :
  subseq a b -> Forall P b -> Forall P a.
Proof.
  induction 1 as [|x a b H IH|x a b H IH]; intros F; [constructor| |].
  - inversion F; subst. auto.
  - inversion F; subst. constructor; auto.
Qed.

Lemma subseq_app_l {A : Type} (x y : list A) : subseq x (x ++ y).
Proof.
  induction x as [|c x IH]; cbn [app]; [apply subseq_nil_l|].
  apply subseq_keep, IH.
Qed.

(** A match ends where the continuation takes over, on what is left of the
    string. *)
Lemma star_iter_result
      (step : bool -> text -> (bool -> text -> option text) -> option text) :
  (forall bos s k out, step bos s k = Some out ->
     exists b' s', k b' s' = Some out /\ subseq s' s) ->
  forall k n bos s out,
    star_iter step k n bos s = Some out ->
    exists b' s', k b' s' = Some out /\ subseq s' s.
Proof.
  intros Hstep k n. induction n as [|n IH]; intros bos s out; cbn [star_iter].
  - intros E. exists bos, s. split; [exact E | apply subseq_refl].
  - destruct (step bos s _) as [o|] eqn:Es.
    + intros E. inversion E; subst o. clear E.
      apply Hstep in Es. destruct Es as [b1 [s1 [E1 S1]]].
      destruct (_ <? _)%nat; [|discriminate E1].
      apply IH in E1. destruct E1 as [b' [s' [E' S']]].
      exists b', s'. split; [exact E' | eapply subseq_trans; eassumption].
    + intros E. exists bos, s. split; [exact E | apply subseq_refl].
Qed.

Lemma rmatch_result (r : regex) :
  forall bos s k out,
    rmatch r bos s k = Some out ->
    exists b' s', k b' s' = Some out /\ subseq s' s.
Proof.
  induction r as [| |p|a IHa b IHb|a IHa b IHb|a IHa]; intros bos s k out;
    cbn [rmatch].
  - intros E. exists bos, s. split; [exact E | apply subseq_refl].
  - destruct bos; [|discriminate].
    intros E. exists true, s. split; [exact E | apply subseq_refl].
  - destruct s as [|c s']; [discriminate|]. destruct (p c); [|discriminate].
    intros E. exists false, s'. split; [exact E|].
    apply subseq_skip, subseq_refl.
  - intros E. apply IHa in E. destruct E as [b1 [s1 [E1 S1]]].
    apply IHb in E1. destruct E1 as [b2 [s2 [E2 S2]]].
    exists b2, s2. split; [exact E2 | eapply subseq_trans; eassumption].
  - destruct (rmatch a bos s k) as [o|] eqn:Ea.
    + intros E. inversion E; subst o. apply IHa in Ea. exact Ea.
    + apply IHb.
  - apply star_iter_result. exact IHa.
Qed.

(** What a greedy run over a class has passed over. *)
Lemma star_cls_taken (p : char -> bool) (n : nat) :
  forall bos s s2,
    star_iter (rmatch (Cls p)) (fun _ rest => Some rest) n bos s = Some s2 ->
    exists x, s = x ++ s2 /\ Forall (fun c => p c = true) x.
Proof.
  induction n as [|n IH]; intros bos s s2; cbn [star_iter rmatch].
  - intros E. inversion E; subst. exists []. split; [reflexivity | constructor].
  - destruct s as [|c s'].
    + intros E. inversion E; subst. exists []. split; [reflexivity | constructor].
    + destruct (p c) eqn:Ec.
      * destruct (_ <? _)%nat.
        -- destruct (star_iter _ _ n false s') as [o|] eqn:Es.
           ++ intros E. inversion E; subst o.
              assert (Es' : star_iter (rmatch (Cls p)) (fun _ rest => Some rest)
                              n false s' = Some s2) by exact Es.
              apply IH in Es'. destruct Es' as [x [-> Hx]].
              exists (c :: x). split; [reflexivity | constructor; assumption].
           ++ intros E. inversion E; subst. exists [].
              split; [reflexivity | constructor].
        -- intros E. inversion E; subst. exists [].
           split; [reflexivity | constructor].
      * intros E. inversion E; subst. exists [].
        split; [reflexivity | constructor].
Qed.

Lemma firstn_app_exact {A : Type} (x y : list A) :
  firstn (List.length (x ++ y) - List.length y) (x ++ y) = x.
Proof.
  rewrite length_app.
  replace (List.length x + List.length y - List.length y)%nat
    with (List.length x + 0)%nat by lia.
  rewrite firstn_app_2. cbn [firstn]. apply app_nil_r.
Qed.

(** The group [(.+)] holds a part of the text, not empty and without a line
    feed. *)
Lemma group1_at_spec (pat : regex) (bos : bool) (s g : text) :
  RagBlockTerms.group1_at pat bos s = Some g ->
  g <> [] /\ Forall (fun c => c <> RagChat.LF) g /\ subseq g s.
Proof.
  unfold RagBlockTerms.group1_at. intros E.
  apply rmatch_result in E. destruct E as [b1 [s1 [E1 S1]]].
  destruct (match_at (Plus (Cls RagBlockTerms.dot)) false s1) as [s2|] eqn:Em;
    [|discriminate E1].
  inversion E1; subst g. clear E1.
  unfold match_at, Plus in Em. cbn [rmatch] in Em.
  destruct s1 as [|c s1']; [discriminate Em|].
  destruct (RagBlockTerms.dot c) eqn:Ec; [|discriminate Em].
  assert (Em' : star_iter (rmatch (Cls RagBlockTerms.dot)) (fun _ rest => Some rest)
                  (List.length s1') false s1' = Some s2) by exact Em.
  apply star_cls_taken in Em'. destruct Em' as [x [-> Hx]].
  change (c :: x ++ s2) with ((c :: x) ++ s2). rewrite firstn_app_exact.
  split; [discriminate|]. split.
  - assert (Hd : forall a, RagBlockTerms.dot a = true -> a <> RagChat.LF).
    { intros a Ha ->. discriminate Ha. }
    constructor; [apply Hd, Ec|].
    eapply Forall_impl; [|exact Hx]. exact Hd.
  - eapply subseq_trans; [|exact S1]. apply (subseq_app_l (c :: x) s2).
Qed.

Lemma search_group1_spec (pat : regex) (s : text) :
  forall bos g,
    RagBlockTerms.search_group1 pat bos s = Some g ->
    g <> [] /\ Forall (fun c => c <> RagChat.LF) g /\ subseq g s.
Proof.
  induction s as [|c s IH]; intros bos g; cbn [RagBlockTerms.search_group1].
  - destruct (RagBlockTerms.group1_at pat bos []) eqn:E; [|discriminate].
    intros H. inversion H; subst. apply (group1_at_spec pat bos [] g E).
  - destruct (RagBlockTerms.group1_at pat bos (c :: s)) eqn:E.
    + intros H. inversion H; subst. apply (group1_at_spec pat bos (c :: s) g E).
    + intros H. apply IH in H. destruct H as [H1 [H2 H3]].
      split; [exact H1|]. split; [exact H2|]. apply subseq_skip, H3.
Qed.

(** The pieces of [re.split] are parts of the string, without a comma. *)
Lemma split_terms_pieces (isword : char -> bool) (s : text) :
  forall skip prev,
    Forall (fun piece => Forall (fun c => c <> 0x2C) piece /\ subseq piece s)
           (RagBlockTerms.split_terms isword skip prev s).
Proof.
  assert (Hskip : forall (c : char) (s' : text) (l : list text),
             Forall (fun piece => Forall (fun c => c <> 0x2C) piece
                                  /\ subseq piece s') l ->
             Forall (fun piece => Forall (fun c => c <> 0x2C) piece
                                  /\ subseq piece (c :: s')) l).
  { intros c s' l H. eapply Forall_impl; [|exact H]. cbn beta.
    intros piece [H1 H2]. split; [exact H1 | apply subseq_skip, H2]. }
  induction s as [|c s' IH]; intros skip prev; cbn [RagBlockTerms.split_terms].
  - constructor; [|constructor]. split; [constructor | constructor].
  - destruct skip as [|n]; [|apply Hskip, IH].
    destruct (N.eqb_spec c 0x2C) as [E|N].
    + constructor; [split; [constructor | apply subseq_nil_l]|]. apply Hskip, IH.
    + destruct (RagBlockTerms.and_here isword prev (c :: s')).
      * constructor; [split; [constructor | apply subseq_nil_l]|]. apply Hskip, IH.
      * specialize (IH 0%nat (Some c)).
        destruct (RagBlockTerms.split_terms isword 0 (Some c) s') as [|piece pieces].
        -- constructor; [|constructor]. split; [repeat constructor; exact N|].
           apply subseq_keep, subseq_nil_l.
        -- inversion IH as [|x l [H1 H2] Hl]; subst. constructor.
           ++ split; [constructor; assumption | apply subseq_keep, H2].
           ++ apply Hskip, Hl.
Qed.

(** X23.  Every block term [extract_block_terms] finds in a message is the
    lower-cased form of a part of the message that is not empty, has no
    white space at its ends and holds no comma and no line feed; so no
    block term is empty.  ([str.lower] maps no other string than the empty
    one to the empty string.) *)
Theorem extract_block_terms_are_terms :
  forall (lower : text -> text) (isword : char -> bool) (user_text : text),
    Forall (fun t => exists p, t = lower p /\ p <> [] /\ strip p = p
                               /\ Forall (fun c => c <> 0x2C /\ c <> RagChat.LF) p
                               /\ subseq p user_text)
           (RagBlockTerms.extract_block_terms lower isword user_text)
    /\ ((forall p, p <> [] -> lower p <> []) ->
        Forall (fun t => t <> [])
               (RagBlockTerms.extract_block_terms lower isword user_text)).
Proof.
  intros lower isword user_text.
  assert (H : Forall (fun t => exists p, t = lower p /\ p <> [] /\ strip p = p
                               /\ Forall (fun c => c <> 0x2C /\ c <> RagChat.LF) p
                               /\ subseq p user_text)
           (RagBlockTerms.extract_block_terms lower isword user_text)).
  { unfold RagBlockTerms.extract_block_terms.
    destruct (is_empty user_text); [constructor|].
    apply Forall_forall. intros t Ht. apply in_flat_map in Ht.
    destruct Ht as [pat [_ Ht]].
    destruct (RagBlockTerms.search_group1 pat true user_text) as [chunk|] eqn:Es;
      [|destruct Ht].
    apply search_group1_spec in Es. destruct Es as [_ [Hlf Hsub]].
    apply in_map_iff in Ht. destruct Ht as [p [<- Hp]].
    apply filter_In in Hp. destruct Hp as [Hp Hne].
    pose proof (split_terms_pieces isword chunk 0%nat None) as Hpieces.
    rewrite Forall_forall in Hpieces. destruct (Hpieces p Hp) as [Hc Hps].
    exists (strip p). split; [reflexivity|].
    split; [intros E; rewrite E in Hne; discriminate Hne|].
    split; [apply strip_idem|]. split.
    - apply strip_Forall. apply Forall_and; [exact Hc|].
      apply (subseq_Forall _ p chunk Hps Hlf).
    - eapply subseq_trans; [apply strip_subseq|].
      eapply subseq_trans; eassumption. }
  split; [exact H|].
  intros Hlow. eapply Forall_impl; [|exact H]. cbn beta.
  intros t [p [-> [Hp _]]]. apply Hlow, Hp.
Qed.

(** A message with a trigger phrase, one without, and the empty message. *)
Lemma extract_block_terms_example :
  RagBlockTerms.extract_block_terms Example.lower Example2.isword
    (of_string "Anything other than Cats, dogs and  Birds")
  = [ of_string "cats"; of_string "dogs"; of_string "birds" ]
  /\ RagBlockTerms.extract_block_terms Example.lower Example2.isword
       (of_string "hello there") = []
  /\ RagBlockTerms.extract_block_terms Example.lower Example2.isword [] = [].
Proof. repeat split; vm_compute; reflexivity. Qed.
